(** * Petfinder MCP server: a shallow embedding of [simple-mcp-server.ts]

    The server is one TypeScript file.  Its state is the module-level
    [tokenCache] (a [Map] from client id to cached token) and the
    module-level [requestContext] slot; its effects are the two upstream
    HTTP calls ([fetch] to the OAuth token endpoint and to the REST API)
    and JavaScript exceptions.  The embedding threads a [World] through a
    state-and-exception monad, keeps a log of the upstream calls made, and
    takes the libraries the file imports and the built-ins it calls (zod,
    [JSON], [URLSearchParams], the reading of a string as a number, the
    engine's error texts) and the upstream service as parameters.

    Conventions.
    - JavaScript values that can occur at run time are JSON values
      ([json]); [undefined] is [None] of [option json].
    - A JSON number is its integer numeral ([Z]): the arithmetic the
      program performs is on whole seconds and on HTTP status codes.  The
      value of a numeral beyond 2^53 is the double nearest to it, and it
      prints as JavaScript prints that double ([numberToString]).
    - Nothing the upstream sends is taken to be well typed: a reply body
      is whatever JSON it parses to.
    - An object is the list of its own properties.  JavaScript enumerates
      integer-like keys first; the only consumer of that order here is the
      validator, which is a parameter.
    - [console.log] output is not modelled.
    - One call runs to completion before the next one starts; [Date.now()]
      read twice within one synchronous stretch gives the same second
      ([now]). *)

From stdpp Require Import gmap strings list fin_maps pretty.
From Stdlib Require Import ZArith Lia.

Set Warnings "-register-all".
Local Open Scope string_scope.
Local Open Scope list_scope.
Local Open Scope Z_scope.

(** ** JavaScript values *)

Inductive json : Type :=
| JNull
| JBool (b : bool)
| JNum (n : Z)
| JStr (s : string)
| JArr (items : list json)
| JObj (fields : list (string * json)).

(** [undefined] is [None]. *)
Abbreviation jsval := (option json).

Fixpoint assoc {A : Type} (k : string) (l : list (string * A)) : option A :=
  match l with
  | [] => None
  | (k', v) :: r => if String.eqb k k' then Some v else assoc k r
  end.

(** [o[k] = v] on an object held as its list of own properties: an existing
    key keeps its place, a new key goes last. *)
Fixpoint setField {A : Type} (k : string) (v : A) (l : list (string * A))
  : list (string * A) :=
  match l with
  | [] => [(k, v)]
  | (k', v') :: r =>
      if String.eqb k k' then (k, v) :: r else (k', v') :: setField k v r
  end.

(** [{ ...base, ...extra }] *)
Definition objAssign {A : Type} (base extra : list (string * A))
  : list (string * A) :=
  fold_left (fun acc kv => setField kv.1 kv.2 acc) extra base.

(** ** Numbers as text *)

(** The double nearest to a non-negative integer (ties to even), itself an
    integer; [None] beyond the largest double, where the value is
    [Infinity]. *)
Definition nearestDouble (n : Z) : option Z :=
  let bits := Z.log2 n + 1 in
  if bits <=? 53 then Some n
  else
    let shift := bits - 53 in
    let m := Z.shiftr n shift in
    let rest := n - Z.shiftl m shift in
    let half := Z.shiftl 1 (shift - 1) in
    let m' := if (half <? rest) || ((rest =? half) && Z.odd m)
              then m + 1 else m in
    let v := Z.shiftl m' shift in
    if 2 ^ 1024 <=? v then None else Some v.

Definition readsBackAs (v x : Z) : bool :=
  match nearestDouble x with
  | Some y => y =? v
  | None => false
  end.

(** The decimal with the fewest significant digits that reads back as the
    double [v] (an integer above 2^53), the nearest to [v] if there are
    two: the [s × 10^(n-k)] of [Number::toString].  Seventeen digits always
    suffice. *)
Definition shortestDecimal (v : Z) : Z :=
  let n := Z.of_nat (String.length (pretty v)) in
  (fix search (fuel : nat) (k : Z) : Z :=
     match fuel with
     | O => v
     | S fuel' =>
         let p := 10 ^ (n - k) in
         let lo := (v / p) * p in
         let hi := lo + p in
         match readsBackAs v lo, readsBackAs v hi with
         | true, true =>
             if (v - lo <? hi - v)
                || ((v - lo =? hi - v) && Z.even (lo / p))
             then lo else hi
         | true, false => lo
         | false, true => hi
         | false, false => if k <? n then search fuel' (k + 1) else v
         end
     end) 17%nat 1.

Fixpoint stripZeros (fuel : nat) (d : Z) : Z :=
  match fuel with
  | O => d
  | S fuel' =>
      if (d mod 10 =? 0) && negb (d =? 0) then stripZeros fuel' (d / 10)
      else d
  end.

(** [Number::toString] on an integer: plain decimal up to 2^53, above it
    the shortest digits that read back as the double, zero-padded below
    10^21 and in exponent form from there on. *)
Definition numberToString (x : Z) : string :=
  if Z.abs x <=? 2 ^ 53 then pretty x
  else
    let sign := if x <? 0 then "-" else "" in
    match nearestDouble (Z.abs x) with
    | None => sign +:+ "Infinity"
    | Some v =>
        let d := shortestDecimal v in
        let n := String.length (pretty d) in
        if (n <=? 21)%nat then sign +:+ pretty d
        else
          let e := "e+" +:+ pretty (Z.of_nat n - 1) in
          match pretty (stripZeros n d) with
          | String c "" => sign +:+ String c "" +:+ e
          | String c rest => sign +:+ String c "" +:+ "." +:+ rest +:+ e
          | "" => sign +:+ e
          end
    end.

(** JavaScript truthiness ([!x] is its negation). *)
Definition truthy (v : jsval) : bool :=
  match v with
  | None | Some JNull => false
  | Some (JBool b) => b
  | Some (JNum n) => negb (n =? 0)
  | Some (JStr s) => negb (String.eqb s "")
  | Some (JArr _) | Some (JObj _) => true
  end.

(** Truthiness of a [string | undefined | null]. *)
Definition truthyStr (s : option string) : bool :=
  match s with
  | None => false
  | Some s => negb (String.eqb s "")
  end.

(** [ToString] of a value that is not [undefined] (template literals,
    property keys, [Array.prototype.join]).  Array elements that are [null]
    print as the empty string.  An object prints as ["[object Object]"]
    through the inherited [toString]; an own ["toString"] property (never
    callable in a JSON value) shadows it and the conversion raises a
    [TypeError] ([None]). *)
Fixpoint toStr (v : json) : option string :=
  match v with
  | JNull => Some "null"
  | JBool true => Some "true"
  | JBool false => Some "false"
  | JNum n => Some (numberToString n)
  | JStr s => Some s
  | JArr items =>
      (fix join (l : list json) : option string :=
         match l with
         | [] => Some ""
         | x :: r =>
             match (match x with JNull => Some "" | _ => toStr x end) with
             | None => None
             | Some sx =>
                 match r with
                 | [] => Some sx
                 | _ :: _ =>
                     match join r with
                     | None => None
                     | Some sr => Some (sx +:+ "," +:+ sr)
                     end
                 end
             end
         end) items
  | JObj fields =>
      match assoc "toString" fields with
      | Some _ => None
      | None => Some "[object Object]"
      end
  end.

Definition toStrV (v : jsval) : option string :=
  match v with
  | None => Some "undefined"
  | Some j => toStr j
  end.

(** The own enumerable properties that [{ ...v }] and [Object.entries(v)]
    see. *)
Definition ownEntries (v : jsval) : list (string * json) :=
  match v with
  | Some (JObj fields) => fields
  | Some (JArr items) => imap (fun i x => (pretty (Z.of_nat i), x)) items
  | Some (JStr s) =>
      imap (fun i c => (pretty (Z.of_nat i), JStr (String c EmptyString)))
           (String.list_ascii_of_string s)
  | _ => []
  end.

(** [v.k] for a value [v] that is neither [undefined] nor [null], and a
    name [k] that is not an index, ["length"] or a member of a built-in
    prototype (every name the server reads is of this kind). *)
Definition getProp (v : json) (k : string) : jsval :=
  match v with
  | JObj fields => assoc k fields
  | _ => None
  end.

(** [v.length] for a value that is neither [undefined] nor [null]. *)
Definition lengthOf (v : json) : jsval :=
  match v with
  | JArr items => Some (JNum (Z.of_nat (length items)))
  | JStr s => Some (JNum (Z.of_nat (String.length s)))
  | JObj fields => assoc "length" fields
  | _ => None
  end.

Definition isNull (v : json) : bool :=
  match v with JNull => true | _ => false end.

(** ** Exceptions *)

(** The run-time faults the engine itself raises ([TypeError],
    [SyntaxError]); their message texts are the engine's. *)
Inductive Fault :=
| DestructureNullish      (* const { a } = undefined / null *)
| ReadOfNullish           (* x.p with x undefined or null *)
| NotCallable             (* f(...) with f not a function *)
| ThisNullish             (* an Object.prototype method called with this = undefined *)
| NoPrimitive             (* ToString of an object whose toString is shadowed *)
| JsonSyntax.             (* JSON.parse / response.json() on text that is not JSON *)

Record ZodIssue := { issue_path : list string; issue_message : string }.

Inductive Exn :=
| PlainError (message : string)
| ZodError (issues : list ZodIssue) (message : string)
| PetfinderAPIError (status : Z) (statusText : string) (body : json)
                    (message : string).

Definition exn_message (e : Exn) : string :=
  match e with
  | PlainError m | ZodError _ m | PetfinderAPIError _ _ _ m => m
  end.

(** ** State *)

(** A number, as far as an order comparison with a whole number of
    seconds can tell. *)
Inductive JsNumber :=
| Whole (n : Z)
| Inside (n : Z)              (* strictly between n and n + 1 *)
| Infinity (negative : bool)
| NotANumber.

(** What [now + tokenData.expires_in] can be.  The reply of the token
    endpoint is not checked, so besides a time in seconds the sum is [NaN]
    (no [expires_in], or one that is not a number) or a string ([+]
    concatenates when [expires_in] is a string, an array or an object). *)
Inductive Expiry :=
| Seconds (t : Z)
| NaN
| Joined (s : string).

(** [interface TokenCache]; the fields hold what the reply had. *)
Record TokenCache := { access_token : jsval; expires_at : Expiry }.

Record ReqCtx := { clientId : option string; clientSecret : option string }.

Definition emptyCtx : ReqCtx := {| clientId := None; clientSecret := None |}.

(** One entry per upstream HTTP request issued. *)
Inductive NetCall :=
| TokenExchange (client_id client_secret : string)
| ApiGet (url : string) (bearer : string).

Record World := {
  tokenCache : gmap string TokenCache;
  requestContext : ReqCtx;
  netlog : list NetCall
}.

Definition initialWorld : World :=
  {| tokenCache := ∅; requestContext := emptyCtx; netlog := [] |}.

Definition setCache (c : gmap string TokenCache) (w : World) : World :=
  {| tokenCache := c; requestContext := requestContext w; netlog := netlog w |}.

Definition setCtx (x : ReqCtx) (w : World) : World :=
  {| tokenCache := tokenCache w; requestContext := x; netlog := netlog w |}.

Definition logCall (c : NetCall) (w : World) : World :=
  {| tokenCache := tokenCache w; requestContext := requestContext w;
     netlog := netlog w ++ [c] |}.

(** ** The state-and-exception monad *)

Inductive Outcome (A : Type) :=
| Returns (a : A)
| Throws (e : Exn).
Arguments Returns {A} a.
Arguments Throws {A} e.

Definition M (A : Type) : Type := World → Outcome A * World.

Definition ret {A} (a : A) : M A := fun w => (Returns a, w).
Definition throw {A} (e : Exn) : M A := fun w => (Throws e, w).
Definition bind {A B} (m : M A) (k : A → M B) : M B :=
  fun w => match m w with
           | (Returns a, w') => k a w'
           | (Throws e, w') => (Throws e, w')
           end.
Definition getW : M World := fun w => (Returns w, w).
Definition modifyW (f : World → World) : M unit := fun w => (Returns tt, f w).

(** [try { m } catch (e) { h e }] *)
Definition tryCatch {A} (m : M A) (h : Exn → M A) : M A :=
  fun w => match m w with
           | (Returns a, w') => (Returns a, w')
           | (Throws e, w') => h e w'
           end.

(** [try { m } finally { f }], for a [finally] block that cannot throw. *)
Definition tryFinally {A} (m : M A) (f : World → World) : M A :=
  fun w => let '(o, w') := m w in (o, f w').

#[global] Instance M_ret : MRet M := @ret.
#[global] Instance M_bind : MBind M := fun A B k m => bind m k.

(** ** The environment: upstream service, zod, JSON built-ins *)

Inductive Reply (A : Type) :=
| Rejects (message : string)
    (* fetch() rejects: no HTTP response *)
| Responds (status : Z) (statusText : string) (text : string)
           (parsed : option A)
    (* an HTTP response; [parsed] is the body read as JSON, [None] when the
       body is not JSON *)
| Truncated (status : Z) (statusText : string) (message : string).
    (* an HTTP response whose body cannot be read: [text()] and [json()]
       reject *)
Arguments Rejects {A} message.
Arguments Responds {A} status statusText text parsed.
Arguments Truncated {A} status statusText message.

(** [response.ok] *)
Definition ok (status : Z) : bool := (200 <=? status) && (status <=? 299).

(** The token endpoint, given the credentials posted to it, and the REST
    API, given the URL and the bearer token of a [GET]. *)
Record Upstream := {
  oauth2_token : string → string → Reply json;
  api : string → string → Reply json
}.

Record Engine := {
  JSON_parse : string → option json;
  JSON_stringify : json → string;      (* JSON.stringify(v, null, 2) *)
  URLSearchParams_toString : list (string * string) → string;
  StringToNumber : string → JsNumber;  (* ToNumber of a string *)
  fault_message : Fault → string
}.

Definition fault {A} (eng : Engine) (f : Fault) : M A :=
  throw (PlainError (fault_message eng f)).

(** Lifting of the partial conversions into the monad. *)
Definition toStrM (eng : Engine) (v : jsval) : M string :=
  match toStrV v with
  | Some s => ret s
  | None => fault eng NoPrimitive
  end.

(** [x.k], raising a [TypeError] when [x] is [undefined] or [null]. *)
Definition readProp (eng : Engine) (x : jsval) (k : string) : M jsval :=
  match x with
  | None | Some JNull => fault eng ReadOfNullish
  | Some v => ret (getProp v k)
  end.

(** ** OAuth token management *)

Definition PETFINDER_BASE : string := "https://api.petfinder.com/v2".

(** [ToNumber] of a stored [expires_at]. *)
Definition toNumber (eng : Engine) (x : Expiry) : JsNumber :=
  match x with
  | Seconds t => Whole t
  | NaN => NotANumber
  | Joined s => StringToNumber eng s
  end.

(** [x <= t] and [x > t]: both are false of [NaN]. *)
Definition jsLe (eng : Engine) (x : Expiry) (t : Z) : bool :=
  match toNumber eng x with
  | Whole n => n <=? t
  | Inside n => n <? t
  | Infinity negative => negative
  | NotANumber => false
  end.

Definition jsGt (eng : Engine) (x : Expiry) (t : Z) : bool :=
  match toNumber eng x with
  | Whole n => t <? n
  | Inside n => t <=? n
  | Infinity negative => negb negative
  | NotANumber => false
  end.

(** [now + x].  A missing [x] gives [NaN]; [null] and the booleans count as
    0 and 1; a string, an array or an object is turned into text and
    appended to the digits of [now]; an object that cannot be turned into
    text raises a [TypeError] ([None]).  The sum with a numeral is the
    exact one; JavaScript rounds it to a double only beyond 2^53, far from
    any time the clock reaches, so the comparisons come out the same. *)
Definition plus (now : Z) (x : jsval) : option Expiry :=
  match x with
  | None => Some NaN
  | Some JNull => Some (Seconds now)
  | Some (JBool b) => Some (Seconds (now + (if b then 1 else 0)))
  | Some (JNum n) => Some (Seconds (now + n))
  | Some v =>
      match toStr v with
      | Some s => Some (Joined (numberToString now +:+ s))
      | None => None
      end
  end.

(** The loop deletes, while iterating over the map, exactly the entries
    with [expires_at <= now]. *)
Definition cleanupExpiredTokens (eng : Engine) (now : Z) : M unit :=
  modifyW (fun w =>
    setCache (filter (fun kv => jsLe eng (expires_at kv.2) now = false)
                     (tokenCache w)) w).

Definition missingCredentials : string :=
  "Missing Petfinder credentials. Provide x-petfinder-client-id and x-petfinder-client-secret headers.".

(** A credential that passes the [!x] test. *)
Definition nonEmpty (s : option string) : option string :=
  if truthyStr s then s else None.

(** [fetch(`${PETFINDER_BASE}/oauth2/token`, { method: 'POST', ... })] *)
Definition fetchToken (up : Upstream) (cid secret : string)
  : M (Reply json) :=
  modifyW (logCall (TokenExchange cid secret));;
  ret (oauth2_token up cid secret).

(** [now + tokenData.expires_in] *)
Definition plusM (eng : Engine) (now : Z) (x : jsval) : M Expiry :=
  match plus now x with
  | Some sum => ret sum
  | None => fault eng NoPrimitive
  end.

(** The token is declared a [string]; it is whatever the cache or the
    reply held under [access_token]. *)
Definition getAccessToken (up : Upstream) (eng : Engine) (now : Z)
    (clientId clientSecret : option string) : M jsval :=
  match nonEmpty clientId, nonEmpty clientSecret with
  | Some cid, Some secret =>
      (* lines 74-116: reached when the cache has no usable entry *)
      let requestNew : M jsval :=
        response ← fetchToken up cid secret;
        match response with
        | Rejects msg | Truncated _ _ msg => throw (PlainError msg)
        | Responds status statusText errorText parsed =>
            if negb (ok status)
            then throw (PetfinderAPIError status statusText (JStr errorText)
                   ("OAuth token request failed (" +:+ pretty status +:+ "): "
                    +:+ errorText))
            else
              match parsed with
              | None => fault eng JsonSyntax
              | Some tokenData =>
                  (* [response.json()] is only cast to the expected shape *)
                  token ← readProp eng (Some tokenData) "access_token";
                  seconds ← readProp eng (Some tokenData) "expires_in";
                  expiry ← plusM eng now seconds;
                  let newToken :=
                    {| access_token := token; expires_at := expiry |} in
                  modifyW (fun w =>
                    setCache (<[cid := newToken]> (tokenCache w)) w);;
                  ret (access_token newToken)
              end
        end in
      cleanupExpiredTokens eng now;;
      w ← getW;
      match tokenCache w !! cid with
      | Some cachedToken =>
          if jsGt eng (expires_at cachedToken) (now + 60)
          then ret (access_token cachedToken)
          else requestNew
      | None => requestNew
      end
  | _, _ => throw (PlainError missingCredentials)
  end.

(** ** Input validation schemas *)

Inductive NumCheck := IsInt | IsPositive | Min (n : Z) | Max (n : Z).

Inductive ZType :=
| ZString
| ZNumber (checks : list NumCheck)
| ZEnum (values : list string)
| ZArray (elem : ZType).

Record ZField := {
  ftype : ZType;
  optional : bool;              (* .optional() *)
  defaultValue : option json    (* .default(v) *)
}.

(** [z.object({ ... })]: the shape, in declaration order. *)
Definition Schema := list (string * ZField).

Definition required (t : ZType) : ZField :=
  {| ftype := t; optional := false; defaultValue := None |}.
Definition opt (t : ZType) : ZField :=
  {| ftype := t; optional := true; defaultValue := None |}.
Definition optDefault (t : ZType) (d : json) : ZField :=
  {| ftype := t; optional := true; defaultValue := Some d |}.

Definition animalSearchSchema : Schema :=
  [ ("type", opt (ZEnum ["dog"; "cat"; "small-furry"; "bird";
                         "scales-fins-other"; "barnyard"; "rabbit"; "horse"]));
    ("breed", opt (ZArray ZString));
    ("size", opt (ZArray (ZEnum ["small"; "medium"; "large"; "extra-large"])));
    ("gender", opt (ZArray (ZEnum ["male"; "female"; "unknown"])));
    ("age", opt (ZArray (ZEnum ["baby"; "young"; "adult"; "senior"])));
    ("color", opt (ZArray ZString));
    ("coat", opt (ZArray (ZEnum ["short"; "medium"; "long"; "wire";
                                 "hairless"; "curly"])));
    ("status", optDefault (ZEnum ["adoptable"; "adopted"; "found"])
                          (JStr "adoptable"));
    ("name", opt ZString);
    ("organization", opt (ZArray ZString));
    ("location", opt ZString);
    ("distance", opt (ZNumber [IsInt; IsPositive]));
    ("sort", optDefault (ZEnum ["recent"; "-recent"; "distance"; "-distance";
                                "random"]) (JStr "recent"));
    ("page", optDefault (ZNumber [IsInt; Min 1]) (JNum 1));
    ("limit", optDefault (ZNumber [IsInt; Min 1; Max 100]) (JNum 20)) ].

Definition animalGetSchema : Schema :=
  [ ("id", required (ZNumber [IsInt; IsPositive])) ].

Definition organizationSearchSchema : Schema :=
  [ ("name", opt ZString);
    ("location", opt ZString);
    ("distance", opt (ZNumber [IsInt; IsPositive]));
    ("country", opt ZString);
    ("state", opt ZString);
    ("query", opt ZString);
    ("sort", opt (ZEnum ["distance"; "-distance"; "name"; "-name"; "country";
                         "-country"; "state"; "-state"]));
    ("page", optDefault (ZNumber [IsInt; Min 1]) (JNum 1));
    ("limit", optDefault (ZNumber [IsInt; Min 1; Max 100]) (JNum 20)) ].

Definition organizationGetSchema : Schema := [ ("id", required ZString) ].
Definition animalTypesSchema : Schema := [].
Definition animalTypeSchema : Schema := [ ("type", required ZString) ].
Definition animalBreedsSchema : Schema := [ ("type", required ZString) ].

(** The zod library: [schema.parse(v)] either returns the typed value or
    throws a [ZodError] with its issues; [z.toJSONSchema(schema)]. *)
Record ZodLib := {
  parse : Schema → json → list ZodIssue * string + json;
  toJSONSchema : Schema → json
}.

Definition zparse (zod : ZodLib) (schema : Schema) (v : json) : M json :=
  match parse zod schema v with
  | inl (issues, msg) => throw (ZodError issues msg)
  | inr validated => ret validated
  end.

(** ** Petfinder API functions *)

(** [v.toString()] on a value that is not [undefined]. *)
Definition toStringMethod (eng : Engine) (v : json) : M string :=
  match v with
  | JNull => fault eng ReadOfNullish
  | JObj fields =>
      match assoc "toString" fields with
      | Some _ => fault eng NotCallable
      | None => ret "[object Object]"
      end
  | _ => toStrM eng (Some v)
  end.

(** [Array.prototype.forEach] / sequencing of a list of effects. *)
Fixpoint forEach {A B} (f : A → M (list B)) (l : list A) : M (list B) :=
  match l with
  | [] => ret []
  | x :: r => ys ← f x; zs ← forEach f r; ret (ys ++ zs)
  end.

(** The [URLSearchParams] built from [params], as its list of pairs (none
    when [params] is falsy). *)
Definition buildSearchParams (eng : Engine) (params : jsval)
  : M (list (string * string)) :=
  if truthy params then
    forEach (fun kv : string * json =>
      let '(key, value) := kv in
      match value with
      | JNull => ret []
      | JArr items =>
          forEach (fun v => s ← toStringMethod eng v; ret [(key, s)]) items
      | _ => s ← toStringMethod eng value; ret [(key, s)]
      end) (ownEntries params)
  else ret [].

(** The URL: [PETFINDER_BASE] and [endpoint] put together as they are
    and, for truthy [params] whose query string is not empty, [?] and the
    query string. *)
Definition requestUrl (eng : Engine) (endpoint : string) (params : jsval)
    (searchParams : list (string * string)) : string :=
  let url := PETFINDER_BASE +:+ endpoint in
  if truthy params then
    let queryString := URLSearchParams_toString eng searchParams in
    if negb (String.eqb queryString "") then url +:+ "?" +:+ queryString
    else url
  else url.

(** [fetch(url, { headers: { Authorization: `Bearer ${token}`, ... } })]:
    the URL goes to [fetch] as the string built above. *)
Definition fetchApi (up : Upstream) (url : string) (bearer : string)
  : M (Reply json) :=
  modifyW (logCall (ApiGet url bearer));;
  ret (api up url bearer).

Definition petfinderRequest (up : Upstream) (eng : Engine) (now : Z)
    (endpoint : string) (params : jsval) : M json :=
  w ← getW;
  let ctx := requestContext w in
  match nonEmpty (clientId ctx), nonEmpty (clientSecret ctx) with
  | Some cid, Some secret =>
      token ← getAccessToken up eng now (Some cid) (Some secret);
      searchParams ← buildSearchParams eng params;
      let url := requestUrl eng endpoint params searchParams in
      bearer ← toStrM eng token;
      response ← fetchApi up url bearer;
      match response with
      | Rejects msg | Truncated _ _ msg => throw (PlainError msg)
      | Responds status statusText errorText parsed =>
          if negb (ok status)
          then
            let errorBody := default (JStr errorText) parsed in
            throw (PetfinderAPIError status statusText errorBody
                     ("Petfinder API error (" +:+ pretty status +:+ "): "
                      +:+ errorText))
          else
            match parsed with
            | None => fault eng JsonSyntax
            | Some j => ret j
            end
      end
  | _, _ => throw (PlainError "Request context missing credentials")
  end.

Section ApiWrappers.
Context (up : Upstream) (eng : Engine) (now : Z).

Definition searchAnimals (params : json) : M json :=
  petfinderRequest up eng now "/animals" (Some params).

Definition getAnimal (params : jsval) : M json :=
  id ← readProp eng params "id";
  s ← toStrM eng id;
  petfinderRequest up eng now ("/animals/" +:+ s) None.

Definition searchOrganizations (params : json) : M json :=
  petfinderRequest up eng now "/organizations" (Some params).

Definition getOrganization (params : jsval) : M json :=
  id ← readProp eng params "id";
  s ← toStrM eng id;
  petfinderRequest up eng now ("/organizations/" +:+ s) None.

Definition getAnimalTypes : M json :=
  petfinderRequest up eng now "/types" None.

Definition getAnimalType (params : jsval) : M json :=
  ty ← readProp eng params "type";
  s ← toStrM eng ty;
  petfinderRequest up eng now ("/types/" +:+ s) None.

Definition getAnimalBreeds (params : jsval) : M json :=
  ty ← readProp eng params "type";
  s ← toStrM eng ty;
  petfinderRequest up eng now ("/types/" +:+ s +:+ "/breeds") None.
End ApiWrappers.

(** ** JSON schema utilities *)

Fixpoint deleteField {A : Type} (k : string) (l : list (string * A))
  : list (string * A) :=
  match l with
  | [] => []
  | (k', v) :: r =>
      if String.eqb k k' then deleteField k r else (k', v) :: deleteField k r
  end.

(** [field.isOptional()]: the field accepts [undefined]. *)
Definition isOptional (f : ZField) : bool :=
  optional f || bool_decide (is_Some (defaultValue f)).

(** The [required] array that [z.toJSONSchema] produces names fields of the
    shape only (for any other element [shape[fieldName]] is [undefined] and
    the module would fail while loading); such an element is kept here. *)
Definition zodToMCPSchema (zod : ZodLib) (schema : Schema) : json :=
  let jsonSchema := toJSONSchema zod schema in
  match jsonSchema, getProp jsonSchema "required" with
  | JObj fields, Some (JArr names) =>
      let keep (fieldName : json) : bool :=
        match fieldName with
        | JStr n =>
            match assoc n schema with
            | Some field =>
                negb (isOptional field)
                && negb (bool_decide (is_Some (defaultValue field)))
            | None => true
            end
        | _ => true
        end in
      match List.filter keep names with
      | [] => JObj (deleteField "required" fields)
      | kept => JObj (setField "required" (JArr kept) fields)
      end
  | _, _ => jsonSchema
  end.

(** ** MCP tool implementations *)

Definition textBlock (text : string) : json :=
  JObj [("type", JStr "text"); ("text", JStr text)].

Definition toolResult (summary : string) (payload : string) : json :=
  JObj [("content", JArr [textBlock summary; textBlock payload])].

Section Tools.
Context (zod : ZodLib) (up : Upstream) (eng : Engine) (now : Z).

(** [`${result.k?.length || 0}`] *)
Definition countOf (result : json) (k : string) : M string :=
  x ← readProp eng (Some result) k;
  let len := match x with
             | None | Some JNull => None
             | Some v => lengthOf v
             end in
  toStrM eng (if truthy len then len else Some (JNum 0)).

Definition searchPets (input : jsval) : M json :=
  let inputWithDefaults :=
    objAssign [("status", JStr "adoptable"); ("sort", JStr "recent");
               ("page", JNum 1); ("limit", JNum 20)]
              (ownEntries input) in
  validatedInput ← zparse zod animalSearchSchema (JObj inputWithDefaults);
  result ← searchAnimals up eng now validatedInput;
  n ← countOf result "animals";
  ret (toolResult ("Found " +:+ n +:+ " pets matching your search criteria.")
                  (JSON_stringify eng result)).

Definition getPet (input : jsval) : M json :=
  result ← getAnimal up eng now input;
  id ← readProp eng input "id";
  s ← toStrM eng id;
  ret (toolResult ("Pet details for ID " +:+ s +:+ ":")
                  (JSON_stringify eng result)).

Definition searchOrgs (input : jsval) : M json :=
  let inputWithDefaults :=
    objAssign [("page", JNum 1); ("limit", JNum 20)] (ownEntries input) in
  validatedInput ←
    zparse zod organizationSearchSchema (JObj inputWithDefaults);
  result ← searchOrganizations up eng now validatedInput;
  n ← countOf result "organizations";
  ret (toolResult
         ("Found " +:+ n +:+ " organizations matching your search criteria.")
         (JSON_stringify eng result)).

Definition getOrg (input : jsval) : M json :=
  result ← getOrganization up eng now input;
  id ← readProp eng input "id";
  s ← toStrM eng id;
  ret (toolResult ("Organization details for ID " +:+ s +:+ ":")
                  (JSON_stringify eng result)).

Definition listAnimalTypes : M json :=
  result ← getAnimalTypes up eng now;
  ret (toolResult "Available animal types:" (JSON_stringify eng result)).

Definition getAnimalTypeDetails (input : jsval) : M json :=
  result ← getAnimalType up eng now input;
  ty ← readProp eng input "type";
  s ← toStrM eng ty;
  ret (toolResult ("Animal type details for " +:+ s +:+ ":")
                  (JSON_stringify eng result)).

Definition listAnimalBreeds (input : jsval) : M json :=
  result ← getAnimalBreeds up eng now input;
  ty ← readProp eng input "type";
  s ← toStrM eng ty;
  ret (toolResult ("Available breeds for " +:+ s +:+ ":")
                  (JSON_stringify eng result)).
End Tools.

(** ** MCP protocol implementation *)

Record RpcError := { code : Z; message : string; data : jsval }.

(** An absent field is [None]; [JSON.stringify] omits it. *)
Record MCPResponse := {
  jsonrpc : string;
  id : jsval;
  result : jsval;
  error : option RpcError
}.

Definition mapHTTPStatusToJSONRPCError (status : Z) : Z :=
  if status =? 400 then -32602
  else if status =? 401 then -32001
  else if status =? 403 then -32002
  else if status =? 404 then -32003
  else if status =? 429 then -32004
  else if (status =? 500) || (status =? 502) || (status =? 503)
          || (status =? 504) then -32603
  else -32603.

Definition getErrorMessage (status : Z) : string :=
  if status =? 400 then "Invalid request parameters"
  else if status =? 401 then "Authentication failed - invalid credentials"
  else if status =? 403 then "Access denied - insufficient permissions"
  else if status =? 404 then "Resource not found"
  else if status =? 429 then "Rate limit exceeded"
  else if status =? 500 then "Internal server error"
  else if status =? 502 then "Bad gateway"
  else if status =? 503 then "Service unavailable"
  else if status =? 504 then "Gateway timeout"
  else "Unknown error".

(** [if (parsedBody.k) errorData.k = parsedBody.k] *)
Definition copyIfTruthy (parsedBody : json) (k : string)
    (errorData : list (string * json)) : list (string * json) :=
  match getProp parsedBody k with
  | Some v => if truthy (Some v) then setField k v errorData else errorData
  | None => errorData
  end.

Definition createErrorResponse (eng : Engine) (id : jsval) (error : Exn)
    (fallbackCode : Z) : MCPResponse :=
  match error with
  | PetfinderAPIError status statusText body msg =>
      let code := mapHTTPStatusToJSONRPCError status in
      let errorData :=
        [("status", JNum status); ("title", JStr statusText);
         ("detail", JStr msg)] in
      let errorData :=
        match body with
        | JStr text =>
            match JSON_parse eng text with
            | None | Some JNull => errorData     (* caught: keep the original *)
            | Some parsedBody =>
                copyIfTruthy parsedBody "invalid-params"
                  (copyIfTruthy parsedBody "detail"
                     (copyIfTruthy parsedBody "title"
                        (copyIfTruthy parsedBody "type" errorData)))
            end
        | JObj _ | JArr _ => objAssign errorData (ownEntries (Some body))
        | _ => errorData
        end in
      {| jsonrpc := "2.0"; id := id; result := None;
         error := Some {| code := code; message := getErrorMessage status;
                          data := Some (JObj errorData) |} |}
  | _ =>
      {| jsonrpc := "2.0"; id := id; result := None;
         error := Some {| code := fallbackCode; message := exn_message error;
                          data := None |} |}
  end.

Definition serverInfo : json :=
  JObj [("name", JStr "petfinder-mcp"); ("version", JStr "1.0.0")].

Definition dq : string := String (Ascii.ascii_of_nat 34) "".

Definition toolEntry (zod : ZodLib) (name title description : string)
    (schema : Schema) : json :=
  JObj [("name", JStr name); ("title", JStr title);
        ("description", JStr description);
        ("inputSchema", zodToMCPSchema zod schema)].

Definition tools (zod : ZodLib) : list json :=
  [ toolEntry zod "pets.search" "Search for adoptable pets"
      ("Search for adoptable pets by type, breed, size, location, and other criteria. Optional parameters: status (default: "
       +:+ dq +:+ "adoptable" +:+ dq +:+ "), sort (default: " +:+ dq
       +:+ "recent" +:+ dq +:+ "), page (default: 1), limit (default: 20).")
      animalSearchSchema;
    toolEntry zod "pets.get" "Get pet details"
      "Get detailed information about a specific pet by ID."
      animalGetSchema;
    toolEntry zod "organizations.search"
      "Search for animal welfare organizations"
      "Search for animal welfare organizations by name, location, and other criteria. Optional parameters: sort, page (default: 1), limit (default: 20)."
      organizationSearchSchema;
    toolEntry zod "organizations.get" "Get organization details"
      "Get detailed information about a specific organization by ID."
      organizationGetSchema;
    toolEntry zod "types.list" "List animal types"
      "Get a list of all available animal types."
      animalTypesSchema;
    toolEntry zod "types.get" "Get animal type details"
      "Get detailed information about a specific animal type."
      animalTypeSchema;
    toolEntry zod "breeds.list" "List animal breeds"
      "Get a list of breeds for a specific animal type."
      animalBreedsSchema ].

(** *** The tool table

    [allTools] is an object literal, so [allTools[name]] finds the seven own
    properties and, failing that, the members of [Object.prototype]. *)

Inductive ToolFn :=
| Fn_searchPets
| Fn_getPet
| Fn_searchOrgs
| Fn_getOrg
| Fn_listAnimalTypes
| Fn_getAnimalTypeDetails
| Fn_listAnimalBreeds
| Fn_Object               (* constructor: the function Object *)
| Fn_toString             (* Object.prototype.toString *)
| Fn_isPrototypeOf        (* Object.prototype.isPrototypeOf *)
| Fn_keyed                (* hasOwnProperty, propertyIsEnumerable *)
| Fn_ofThis               (* valueOf, toLocaleString, __defineGetter__, ... *)
| Fn_prototypeObject.     (* __proto__: Object.prototype itself, not a function *)

Definition allTools : list (string * ToolFn) :=
  [ ("pets.search", Fn_searchPets);
    ("pets.get", Fn_getPet);
    ("organizations.search", Fn_searchOrgs);
    ("organizations.get", Fn_getOrg);
    ("types.list", Fn_listAnimalTypes);
    ("types.get", Fn_getAnimalTypeDetails);
    ("breeds.list", Fn_listAnimalBreeds) ].

Definition Object_prototype : list (string * ToolFn) :=
  [ ("constructor", Fn_Object);
    ("toString", Fn_toString);
    ("isPrototypeOf", Fn_isPrototypeOf);
    ("hasOwnProperty", Fn_keyed);
    ("propertyIsEnumerable", Fn_keyed);
    ("valueOf", Fn_ofThis);
    ("toLocaleString", Fn_ofThis);
    ("__defineGetter__", Fn_ofThis);
    ("__defineSetter__", Fn_ofThis);
    ("__lookupGetter__", Fn_ofThis);
    ("__lookupSetter__", Fn_ofThis);
    ("__proto__", Fn_prototypeObject) ].

(** [allTools[key]] *)
Definition lookupTool (key : string) : option ToolFn :=
  match assoc key allTools with
  | Some f => Some f
  | None => assoc key Object_prototype
  end.

(** What a call [handler(args)] hands back: a JSON value, or the wrapper
    object that [Object(primitive)] creates. *)
Inductive Returned :=
| Plain (v : json)
| Boxed (primitive : json).

Definition isObject (v : jsval) : bool :=
  match v with
  | Some (JObj _) | Some (JArr _) => true
  | _ => false
  end.

Section Protocol.
Context (zod : ZodLib) (up : Upstream) (eng : Engine) (now : Z).

(** [handler(args)]: a plain call, so [this] is [undefined]. *)
Definition callHandler (handler : ToolFn) (args : jsval) : M Returned :=
  match handler with
  | Fn_searchPets => r ← searchPets zod up eng now args; ret (Plain r)
  | Fn_getPet => r ← getPet up eng now args; ret (Plain r)
  | Fn_searchOrgs => r ← searchOrgs zod up eng now args; ret (Plain r)
  | Fn_getOrg => r ← getOrg up eng now args; ret (Plain r)
  | Fn_listAnimalTypes => r ← listAnimalTypes up eng now; ret (Plain r)
  | Fn_getAnimalTypeDetails => r ← getAnimalTypeDetails up eng now args; ret (Plain r)
  | Fn_listAnimalBreeds => r ← listAnimalBreeds up eng now args; ret (Plain r)
  | Fn_Object =>
      match args with
      | None | Some JNull => ret (Plain (JObj []))
      | Some (JObj fields) => ret (Plain (JObj fields))
      | Some (JArr items) => ret (Plain (JArr items))
      | Some primitive => ret (Boxed primitive)
      end
  | Fn_toString => ret (Plain (JStr "[object Undefined]"))
  | Fn_isPrototypeOf =>
      if isObject args then fault eng ThisNullish
      else ret (Plain (JBool false))
  | Fn_keyed => toStrM eng args;; fault eng ThisNullish
  | Fn_ofThis => fault eng ThisNullish
  | Fn_prototypeObject => fault eng NotCallable
  end.

(** [(typeof result === 'object' && result !== null && 'content' in result)
      ? result : { content: [{ type: 'text', text: JSON.stringify(result, null, 2) }] }] *)
Definition wrapResult (r : Returned) : json :=
  let wrapped (v : json) :=
    JObj [("content", JArr [textBlock (JSON_stringify eng v)])] in
  match r with
  | Plain (JObj fields) =>
      match assoc "content" fields with
      | Some _ => JObj fields
      | None => wrapped (JObj fields)
      end
  | Plain v => wrapped v
  | Boxed primitive => wrapped primitive
  end.

Definition extractCredentialsFromHeaders (headers : gmap string string)
  : ReqCtx :=
  {| clientId := headers !! "x-petfinder-client-id";
     clientSecret := headers !! "x-petfinder-client-secret" |}.

Definition methodIs (method : jsval) (name : string) : bool :=
  match method with
  | Some (JStr m) => String.eqb m name
  | _ => false
  end.

Definition success (id : jsval) (r : json) : MCPResponse :=
  {| jsonrpc := "2.0"; id := id; result := Some r; error := None |}.

Definition failure (id : jsval) (c : Z) (msg : string) : MCPResponse :=
  {| jsonrpc := "2.0"; id := id; result := None;
     error := Some {| code := c; message := msg; data := None |} |}.

Definition authenticationRequired : string :=
  "Authentication required - you need to pass both x-petfinder-client-id and x-petfinder-client-secret headers".

(** Declared [Promise<MCPResponse | null>]; no path returns [null].  The
    [switch] reads [request.method] first, which raises on [null]. *)
Definition handleMCPRequest (request : json) (headers : gmap string string)
  : M MCPResponse :=
  let method := getProp request "method" in
  let request_id := getProp request "id" in
  if isNull request then fault eng ReadOfNullish
  else if methodIs method "initialize" then
    ret (success request_id
           (JObj [("protocolVersion", JStr "2024-11-05");
                  ("capabilities",
                   JObj [("tools", JObj [("listChanged", JBool true)])]);
                  ("serverInfo", serverInfo)]))
  else if methodIs method "tools/list" then
    ret (success request_id (JObj [("tools", JArr (tools zod))]))
  else if methodIs method "tools/call" then
    match getProp request "params" with
    | None | Some JNull => fault eng DestructureNullish
    | Some params =>
        let name := getProp params "name" in
        let args := getProp params "arguments" in
        key ← toStrM eng name;
        let handler := lookupTool key in
        let creds := extractCredentialsFromHeaders headers in
        match handler with
        | None =>
            ret (failure request_id (-32601)
                   ("Tool " +:+ key +:+ " not found"))
        | Some handler =>
            match nonEmpty (clientId creds), nonEmpty (clientSecret creds)
            with
            | Some cid, Some secret =>
                tryFinally
                  (tryCatch
                     (modifyW (setCtx {| clientId := Some cid;
                                         clientSecret := Some secret |});;
                      r ← callHandler handler args;
                      ret (success request_id (wrapResult r)))
                     (fun error =>
                        ret (createErrorResponse eng request_id error
                               (-32603))))
                  (setCtx emptyCtx)
            | _, _ =>
                ret (failure request_id (-32001) authenticationRequired)
            end
        end
    end
  else
    m ← toStrM eng method;
    ret (failure
           (if truthy request_id then request_id else Some (JStr "unknown"))
           (-32601) ("Method " +:+ m +:+ " not found")).
End Protocol.

(** ** HTTP server *)

Record HttpRequest := {
  http_method : string;
  pathname : string;
  headers : gmap string string;   (* keyed by lower-case header name *)
  bodyText : string
}.

Inductive ResponseBody :=
| NoBody
| TextBody (text : string)
| JsonBody (r : MCPResponse).   (* JSON.stringify(r) *)

Record HttpResponse := { http_status : Z; http_body : ResponseBody }.

(** The [fetch] handler given to [serve]. *)
Definition fetch (zod : ZodLib) (up : Upstream) (eng : Engine) (now : Z)
    (req : HttpRequest) : M HttpResponse :=
  if String.eqb (http_method req) "OPTIONS" then
    ret {| http_status := 200; http_body := NoBody |}
  else if String.eqb (pathname req) "/healthz" then
    ret {| http_status := 200; http_body := TextBody "OK" |}
  else if negb (String.eqb (http_method req) "POST")
          || negb (String.eqb (pathname req) "/mcp") then
    ret {| http_status := 404; http_body := TextBody "Not found" |}
  else
    tryCatch
      (match JSON_parse eng (bodyText req) with
       | None => fault eng JsonSyntax
       | Some body =>
           (* the three log lines: `${body.method}`, `${body.id}`, body.params *)
           method ← readProp eng (Some body) "method";
           toStrM eng method;;
           toStrM eng (getProp body "id");;
           response ← handleMCPRequest zod up eng now body (headers req);
           ret {| http_status := 200; http_body := JsonBody response |}
       end)
      (fun error =>
         ret {| http_status := 400;
                http_body := JsonBody (createErrorResponse eng
                                         (Some (JStr "unknown")) error
                                         (-32700)) |}).

(** ** Running the server *)

(** The requests of one server process, handled one after the other; each
    comes with the upstream's behaviour and the clock reading at that time. *)
Fixpoint serveAll (zod : ZodLib) (eng : Engine)
    (steps : list (Upstream * Z * HttpRequest)) (w : World) : World :=
  match steps with
  | [] => w
  | (up, now, req) :: rest =>
      serveAll zod eng rest (fetch zod up eng now req w).2
  end.

(** ** Vocabulary of the specifications *)

(** The cache after the sweep of [cleanupExpiredTokens]. *)
Definition sweep (eng : Engine) (now : Z) (c : gmap string TokenCache)
  : gmap string TokenCache :=
  filter (fun kv => jsLe eng (expires_at kv.2) now = false) c.

(** The entry [getAccessToken] stores for the body [td] of a token reply,
    if building it does not raise. *)
Definition newEntry (now : Z) (td : json) : option TokenCache :=
  match td with
  | JNull => None
  | _ =>
      match plus now (getProp td "expires_in") with
      | Some sum => Some {| access_token := getProp td "access_token";
                            expires_at := sum |}
      | None => None
      end
  end.

(** The [TypeError] raised instead: reading a property of [null], or
    adding an object that has no text form. *)
Definition newEntryFault (td : json) : Fault :=
  match td with
  | JNull => ReadOfNullish
  | _ => NoPrimitive
  end.

(** Exactly one of [result] and [error] is present. *)
Definition resultXorError (r : MCPResponse) : Prop :=
  (is_Some (result r) ∧ error r = None)
  ∨ (result r = None ∧ is_Some (error r)).

Definition isTextBlock (b : json) : bool :=
  match getProp b "type" with
  | Some (JStr t) => String.eqb t "text"
  | _ => false
  end.

(** The value has a [content] array holding at least one text block. *)
Definition hasTextContent (r : json) : bool :=
  match getProp r "content" with
  | Some (JArr blocks) => existsb isTextBlock blocks
  | _ => false
  end.

Definition errorCode (r : MCPResponse) : option Z := code <$> error r.

(** [m] neither reads nor writes the world. *)
Definition stateless {A} (m : M A) : Prop :=
  ∃ o : Outcome A, ∀ w, m w = (o, w).

(** The request is a [tools/call] whose [params] can be destructured and
    whose [name] converts to the property key [key]. *)
Definition callsTool (request : json) (key : string) (args : jsval) : Prop :=
  getProp request "method" = Some (JStr "tools/call")
  ∧ ∃ params, getProp request "params" = Some params
              ∧ params ≠ JNull
              ∧ toStrV (getProp params "name") = Some key
              ∧ getProp params "arguments" = args.

Definition hasCredentials (hdrs : gmap string string) (cid secret : string)
  : Prop :=
  hdrs !! "x-petfinder-client-id" = Some cid ∧ cid ≠ ""
  ∧ hdrs !! "x-petfinder-client-secret" = Some secret ∧ secret ≠ "".

Definition lacksCredentials (hdrs : gmap string string) : Prop :=
  truthyStr (hdrs !! "x-petfinder-client-id") = false
  ∨ truthyStr (hdrs !! "x-petfinder-client-secret") = false.

(** The names of the catalogue, in order. *)
Definition toolNames : list jsval :=
  [ Some (JStr "pets.search"); Some (JStr "pets.get");
    Some (JStr "organizations.search"); Some (JStr "organizations.get");
    Some (JStr "types.list"); Some (JStr "types.get");
    Some (JStr "breeds.list") ].

(** The error text of a failed upstream call. *)
Definition oauthFailure (status : Z) (text : string) : string :=
  "OAuth token request failed (" +:+ pretty status +:+ "): " +:+ text.
Definition apiFailure (status : Z) (text : string) : string :=
  "Petfinder API error (" +:+ pretty status +:+ "): " +:+ text.

(** The functions that [allTools] holds as its own properties. *)
Definition registered (h : ToolFn) : bool :=
  match h with
  | Fn_searchPets | Fn_getPet | Fn_searchOrgs | Fn_getOrg
  | Fn_listAnimalTypes | Fn_getAnimalTypeDetails | Fn_listAnimalBreeds => true
  | _ => false
  end.

(** Whenever [m] returns, it returns a two-block tool result. *)
Definition yieldsToolResult (m : M json) : Prop :=
  ∀ w r w', m w = (Returns r, w') →
            ∃ summary payload, r = toolResult summary payload.

(** What the declared shapes accept: a reading of the zod declarations,
    used to tell which inputs mismatch a schema. *)
Definition numCheck (n : Z) (c : NumCheck) : bool :=
  match c with
  | IsInt => true
  | IsPositive => 0 <? n
  | Min m => m <=? n
  | Max m => n <=? m
  end.

Fixpoint conformsType (t : ZType) (v : json) : bool :=
  match t, v with
  | ZString, JStr _ => true
  | ZNumber checks, JNum n => forallb (numCheck n) checks
  | ZEnum values, JStr s => existsb (String.eqb s) values
  | ZArray elem, JArr items => forallb (conformsType elem) items
  | _, _ => false
  end.

Definition conforms (schema : Schema) (v : json) : bool :=
  match v with
  | JObj fields =>
      forallb (fun kf : string * ZField =>
                 match assoc kf.1 fields with
                 | Some x => conformsType (ftype kf.2) x
                 | None => isOptional kf.2
                 end) schema
  | _ => false
  end.

(** ** A concrete environment for the worked examples *)

Definition q (s : string) : string := dq +:+ s +:+ dq.

(** A compact JSON printer (no escapes, no indentation). *)
Fixpoint printJson (v : json) : string :=
  match v with
  | JNull => "null"
  | JBool true => "true"
  | JBool false => "false"
  | JNum n => pretty n
  | JStr s => q s
  | JArr items =>
      "[" +:+
      (fix go (l : list json) : string :=
         match l with
         | [] => ""
         | x :: r =>
             match r with
             | [] => printJson x
             | _ :: _ => printJson x +:+ "," +:+ go r
             end
         end) items +:+ "]"
  | JObj fields =>
      "{" +:+
      (fix go (l : list (string * json)) : string :=
         match l with
         | [] => ""
         | (k, x) :: r =>
             match r with
             | [] => q k +:+ ":" +:+ printJson x
             | _ :: _ => q k +:+ ":" +:+ printJson x +:+ "," +:+ go r
             end
         end) fields +:+ "}"
  end.

Definition rpc (id : json) (method : string) (params : list (string * json))
  : json :=
  JObj ([("jsonrpc", JStr "2.0"); ("id", id); ("method", JStr method)]
        ++ params).

Definition toolCall (id : json) (name : string) (args : json) : json :=
  rpc id "tools/call"
      [("params", JObj [("name", JStr name); ("arguments", args)])].

(** The request bodies of the examples. *)
Definition callUnknownTool : json := toolCall (JNum 1) "pets.adopt" (JObj []).
Definition callGetPetAbc : json :=
  toolCall (JNum 2) "pets.get" (JObj [("id", JStr "abc")]).
Definition callSearchDogs : json :=
  toolCall (JNum 3) "pets.search" (JObj [("type", JStr "dog")]).
Definition callSearchDragons : json :=
  toolCall (JNum 8) "pets.search" (JObj [("type", JStr "dragon")]).
Definition callConstructor : json :=
  toolCall (JNum 4) "constructor" (JObj [("content", JNum 5)]).
Definition callNoParams : json := rpc (JNum 5) "tools/call" [].
Definition callStringParams : json :=
  rpc (JNum 6) "tools/call" [("params", JStr "abc")].
Definition listTools : json := rpc (JNum 7) "tools/list" [].

Definition exampleBodies : list json :=
  [ callUnknownTool; callGetPetAbc; callSearchDogs; callConstructor;
    callNoParams; callStringParams; listTools ].

Fixpoint joinWith (sep : string) (l : list string) : string :=
  match l with
  | [] => ""
  | [x] => x
  | x :: r => x +:+ sep +:+ joinWith sep r
  end.

(** The number a non-empty string of decimal digits denotes. *)
Definition readDigits (s : string) : option Z :=
  match s with
  | "" => None
  | _ =>
      fold_left (fun acc c =>
                   match acc with
                   | Some n =>
                       let d := Z.of_nat (Ascii.nat_of_ascii c) - 48 in
                       if (0 <=? d) && (d <=? 9) then Some (10 * n + d)
                       else None
                   | None => None
                   end)
                (String.list_ascii_of_string s) (Some 0)
  end.

(** [JSON.parse] on the texts of the example bodies, [None] elsewhere; no
    escaping in query strings; only strings of digits are numbers. *)
Definition demoEngine : Engine :=
  {| JSON_parse := fun text =>
       assoc text (map (fun b => (printJson b, b)) exampleBodies);
     JSON_stringify := printJson;
     URLSearchParams_toString := fun pairs =>
       joinWith "&" (map (fun kv => kv.1 +:+ "=" +:+ kv.2) pairs);
     StringToNumber := fun s =>
       match readDigits s with
       | Some n => Whole n
       | None => NotANumber
       end;
     fault_message := fun f =>
       match f with
       | DestructureNullish => "Right side of assignment cannot be destructured"
       | ReadOfNullish => "undefined is not an object"
       | NotCallable => "handler is not a function"
       | ThisNullish => "undefined is not an object (this)"
       | NoPrimitive => "No default value"
       | JsonSyntax => "JSON Parse error: Unexpected token"
       end |}.

(** A validator that accepts exactly the conforming values, unchanged. *)
Definition demoZod : ZodLib :=
  {| parse := fun schema v =>
       if conforms schema v then inr v
       else inl ([{| issue_path := []; issue_message := "Invalid input" |}],
                 "Invalid input");
     toJSONSchema := fun schema =>
       JObj [("type", JStr "object");
             ("required", JArr (map (fun kf => JStr kf.1) schema))] |}.

Definition tokenData (token : string) (lifetime : Z) : json :=
  JObj [("token_type", JStr "Bearer"); ("expires_in", JNum lifetime);
        ("access_token", JStr token)].

Definition tokenReply (token : string) (lifetime : Z) : Reply json :=
  Responds 200 "OK" "" (Some (tokenData token lifetime)).

(** An upstream that issues the token ["tok"] with the given lifetime and
    answers every API call with the given reply. *)
Definition demoUpstream (lifetime : Z) (answer : Reply json) : Upstream :=
  {| oauth2_token := fun _ _ => tokenReply "tok" lifetime;
     api := fun _ _ => answer |}.

Definition emptyPage : Reply json :=
  Responds 200 "OK" "{}" (Some (JObj [("animals", JArr [])])).
Definition serverError : Reply json :=
  Responds 500 "Internal Server Error" "" None.


Definition credentialHeaders : gmap string string :=
  {[ "x-petfinder-client-id" := "id"; "x-petfinder-client-secret" := "secret" ]}.

Definition post (hdrs : gmap string string) (body : json) : HttpRequest :=
  {| http_method := "POST"; pathname := "/mcp"; headers := hdrs;
     bodyText := printJson body |}.

(** A world whose cache holds a live token for ["id"] and a stale one for
    ["old"]. *)
Definition demoWorld : World :=
  {| tokenCache :=
       {[ "id" := {| access_token := Some (JStr "cached");
                     expires_at := Seconds 5000 |};
          "old" := {| access_token := Some (JStr "stale");
                      expires_at := Seconds 900 |} ]};
     requestContext := emptyCtx;
     netlog := [] |}.

(** ** Vocabulary for the effects of a request *)

(** The credential slot while the handler of a request runs. *)
Definition ctxOf (cid secret : string) : ReqCtx :=
  {| clientId := Some cid; clientSecret := Some secret |}.

(** The upstream calls one [petfinderRequest] may log: at most one token
    exchange, with the given credentials, then at most one API call. *)
Definition upstreamCalls (cid secret : string) (calls : list NetCall) : Prop :=
  ∃ te ag,
    calls = te ++ ag
    ∧ (te = [] ∨ te = [TokenExchange cid secret])
    ∧ (ag = [] ∨ ∃ url bearer, ag = [ApiGet url bearer]).

(** What one upstream request on behalf of [cid] may do to the world: the
    credential slot is as before, the cache entries of the other clients
    are swept and nothing else, the log grows by [upstreamCalls], and an
    API call carries, as text, the token that the cache then holds for
    [cid]. *)
Definition requestStep (eng : Engine) (now : Z) (cid secret : string)
    (w w' : World) : Prop :=
  requestContext w' = requestContext w
  ∧ (∀ k, k ≠ cid → tokenCache w' !! k = sweep eng now (tokenCache w) !! k)
  ∧ ∃ calls,
      netlog w' = netlog w ++ calls
      ∧ upstreamCalls cid secret calls
      ∧ ∀ url bearer,
          ApiGet url bearer ∈ calls →
          ∃ e, tokenCache w' !! cid = Some e
               ∧ toStrV (access_token e) = Some bearer.

(** Run in a world whose slot holds [cid]/[secret], [m] leaves the world as
    it is or makes one upstream request. *)
Definition atMostOneRequest {A} (eng : Engine) (now : Z) (cid secret : string)
    (m : M A) : Prop :=
  ∀ w, requestContext w = ctxOf cid secret →
       (m w).2 = w ∨ requestStep eng now cid secret w (m w).2.

(** The client id a request presents, when it presents one. *)
Definition presentedId (req : HttpRequest) : option string :=
  headers req !! "x-petfinder-client-id".

(** More request bodies for the examples. *)
Definition callGetPet123 : json :=
  toolCall (JNum 9) "pets.get" (JObj [("id", JNum 123)]).
Definition callUnknownMethod : json := rpc (JNum 0) "resources/list" [].

Definition fido : json := JObj [("id", JNum 123); ("name", JStr "Fido")].
Definition fidoReply : Reply json := Responds 200 "OK" "" (Some fido).

(** Headers of a second client. *)
Definition guestHeaders : gmap string string :=
  {[ "x-petfinder-client-id" := "guest";
     "x-petfinder-client-secret" := "guest-secret" ]}.

(** How many query pairs a property of [params] contributes. *)
Definition arity (v : json) : nat :=
  match v with
  | JNull => 0
  | JArr items => length items
  | _ => 1
  end.

Definition callSearchOrgsTooMany : json :=
  toolCall (JNum 10) "organizations.search" (JObj [("limit", JNum 500)]).

Definition twoDogs : json :=
  JObj [("animals", JArr [JObj [("id", JNum 1)]; JObj [("id", JNum 2)]])].
Definition twoDogsReply : Reply json := Responds 200 "OK" "" (Some twoDogs).

(** A request whose body is not JSON. *)
Definition postGarbage : HttpRequest :=
  {| http_method := "POST"; pathname := "/mcp"; headers := ∅;
     bodyText := "{not json" |}.

(** A problem-detail body as the API sends it. *)
Definition notFoundProblem : list (string * json) :=
  [("type", JStr "https://www.petfinder.com/developers/v2/docs/errors/ERR-404/");
   ("status", JNum 404); ("title", JStr "Not Found");
   ("detail", JStr "The requested resource was not found.")].

(** Every API call that [m] adds to the log is to a URL that [P] allows,
    and a value that [m] returns is related by [R] to the JSON body of a
    2xx reply to the last of those calls. *)
Definition relays {A} (up : Upstream) (P : string → Prop)
    (R : A → json → Prop) (m : M A) : Prop :=
  ∀ w, ∃ calls,
    netlog (m w).2 = netlog w ++ calls
    ∧ (∀ url bearer, ApiGet url bearer ∈ calls → P url)
    ∧ ∀ a, (m w).1 = Returns a →
        ∃ j url bearer status statusText text earlier,
          R a j
          ∧ api up url bearer = Responds status statusText text (Some j)
          ∧ ok status = true
          ∧ calls = earlier ++ [ApiGet url bearer].

(** The URL string that a tool function called with [args] hands to
    [fetch]: the two searches append to a fixed endpoint the query string
    of the validated arguments; the others append no query and, but for
    [listAnimalTypes], splice a property of the arguments into the path as
    it prints, without escaping it. *)
Definition buildsUrl (zod : ZodLib) (eng : Engine) (h : ToolFn)
    (args : jsval) (url : string) : Prop :=
  let printed k s :=
    ∃ v, args = Some v ∧ v ≠ JNull ∧ toStrV (getProp v k) = Some s in
  let search endpoint schema defaults :=
    ∃ validated query,
      parse zod schema (JObj (objAssign defaults (ownEntries args)))
      = inr validated
      ∧ (∀ w, (buildSearchParams eng (Some validated) w).1 = Returns query)
      ∧ url = requestUrl eng endpoint (Some validated) query in
  match h with
  | Fn_searchPets =>
      search "/animals" animalSearchSchema
             [("status", JStr "adoptable"); ("sort", JStr "recent");
              ("page", JNum 1); ("limit", JNum 20)]
  | Fn_searchOrgs =>
      search "/organizations" organizationSearchSchema
             [("page", JNum 1); ("limit", JNum 20)]
  | Fn_getPet =>
      ∃ s, printed "id" s ∧ url = PETFINDER_BASE +:+ "/animals/" +:+ s
  | Fn_getOrg =>
      ∃ s, printed "id" s ∧ url = PETFINDER_BASE +:+ "/organizations/" +:+ s
  | Fn_listAnimalTypes => url = PETFINDER_BASE +:+ "/types"
  | Fn_getAnimalTypeDetails =>
      ∃ s, printed "type" s ∧ url = PETFINDER_BASE +:+ "/types/" +:+ s
  | Fn_listAnimalBreeds =>
      ∃ s, printed "type" s
           ∧ url = PETFINDER_BASE +:+ "/types/" +:+ s +:+ "/breeds"
  | _ => False
  end.

(** The entry is the one built at [now] from the body of a 2xx JSON reply
    of the token endpoint to these credentials. *)
Definition issued (up : Upstream) (now : Z) (cid secret : string)
    (e : TokenCache) : Prop :=
  ∃ status statusText text td,
    oauth2_token up cid secret = Responds status statusText text (Some td)
    ∧ ok status = true ∧ newEntry now td = Some e.

(** The world that [m] leaves is the one it found or the one that a single
    [petfinderRequest] leaves. *)
Definition viaPetfinderRequest {A} (up : Upstream) (eng : Engine) (now : Z)
    (m : M A) : Prop :=
  ∀ w, (m w).2 = w
       ∨ ∃ endpoint params,
           (m w).2 = (petfinderRequest up eng now endpoint params w).2.

Definition callGetPetHuge : json :=
  toolCall (JNum 12) "pets.get" (JObj [("id", JNum 1000000000000000000000)]).

(** Token endpoints that answer 200 with [null], and with a token but no
    [expires_in]. *)
Definition nullTokens : Upstream :=
  {| oauth2_token := fun _ _ => Responds 200 "OK" "null" (Some JNull);
     api := fun _ _ => emptyPage |}.
Definition undatedTokens : Upstream :=
  {| oauth2_token := fun _ _ =>
       Responds 200 "OK" "" (Some (JObj [("access_token", JStr "tok")]));
     api := fun _ _ => emptyPage |}.

Definition otherSecretHeaders : gmap string string :=
  {[ "x-petfinder-client-id" := "id";
     "x-petfinder-client-secret" := "another-secret" ]}.

(** * Properties *)

(** ** Running the monad *)

Ltac run :=
  unfold mbind, mret, M_bind, M_ret, bind, ret, throw, fault, getW, modifyW,
         tryCatch, tryFinally in *.

Lemma truthyStr_Some s : s ≠ "" → truthyStr (Some s) = true.
Proof. intros H. simpl. by destruct (String.eqb_spec s ""). Qed.

Lemma nonEmpty_Some s : s ≠ "" → nonEmpty (Some s) = Some s.
Proof. intros H. unfold nonEmpty. by rewrite truthyStr_Some. Qed.

Lemma nonEmpty_falsy s : truthyStr s = false → nonEmpty s = None.
Proof. intros H. unfold nonEmpty. by rewrite H. Qed.

(** ** The token cache *)

Section TokenCacheProperties.
Context (eng : Engine).
Implicit Types (up : Upstream) (now : Z) (w : World).

Lemma sweep_lookup now (c : gmap string TokenCache) k e :
  sweep eng now c !! k = Some e
  ↔ c !! k = Some e ∧ jsLe eng (expires_at e) now = false.
Proof. unfold sweep. by rewrite map_lookup_filter_Some. Qed.

(** What is later than [t'] is not at or before an earlier [t]. *)
Lemma jsGt_not_jsLe x t t' :
  jsGt eng x t' = true → t ≤ t' → jsLe eng x t = false.
Proof.
  unfold jsGt, jsLe. destruct (toNumber eng x) as [n|n|[]|]; try done.
  - intros ?%Z.ltb_lt ?. apply Z.leb_gt. lia.
  - intros ?%Z.leb_le ?. apply Z.ltb_ge. lia.
Qed.

Lemma cleanupExpiredTokens_run now w :
  cleanupExpiredTokens eng now w
  = (Returns tt, setCache (sweep eng now (tokenCache w)) w).
Proof. reflexivity. Qed.

Lemma usable_or_not now cid w :
  (∃ e, tokenCache w !! cid = Some e
        ∧ jsGt eng (expires_at e) (now + 60) = true)
  ∨ (∀ e, tokenCache w !! cid = Some e →
          jsGt eng (expires_at e) (now + 60) = false).
Proof.
  destruct (tokenCache w !! cid) as [e|]; [|by right].
  destruct (jsGt eng (expires_at e) (now + 60)) eqn:E; [left; eauto|].
  right. by intros e' [= <-].
Qed.

(** A usable entry is handed out as it is. *)
Lemma getAccessToken_hit up now cid secret w e :
  cid ≠ "" → secret ≠ "" →
  tokenCache w !! cid = Some e → jsGt eng (expires_at e) (now + 60) = true →
  getAccessToken up eng now (Some cid) (Some secret) w
  = (Returns (access_token e), setCache (sweep eng now (tokenCache w)) w).
Proof.
  intros Hc Hs He Hgt. unfold getAccessToken.
  rewrite !nonEmpty_Some by done. run.
  rewrite cleanupExpiredTokens_run. cbn [tokenCache setCache].
  assert (sweep eng now (tokenCache w) !! cid = Some e) as ->.
  { apply sweep_lookup. split; [done|].
    apply (jsGt_not_jsLe _ _ _ Hgt). lia. }
  by rewrite Hgt.
Qed.

(** Without a usable entry the call goes to the token endpoint; what
    follows depends on the reply alone. *)
Lemma getAccessToken_miss up now cid secret w :
  cid ≠ "" → secret ≠ "" →
  (∀ e, tokenCache w !! cid = Some e →
        jsGt eng (expires_at e) (now + 60) = false) →
  let w1 := logCall (TokenExchange cid secret)
                    (setCache (sweep eng now (tokenCache w)) w) in
  getAccessToken up eng now (Some cid) (Some secret) w
  = match oauth2_token up cid secret with
    | Rejects msg | Truncated _ _ msg => (Throws (PlainError msg), w1)
    | Responds status statusText text parsed =>
        if ok status then
          match parsed with
          | None => (Throws (PlainError (fault_message eng JsonSyntax)), w1)
          | Some td =>
              match newEntry now td with
              | Some e =>
                  (Returns (access_token e),
                   setCache (<[cid := e]> (sweep eng now (tokenCache w)))
                            w1)
              | None =>
                  (Throws (PlainError
                             (fault_message eng (newEntryFault td))), w1)
              end
          end
        else
          (Throws (PetfinderAPIError status statusText (JStr text)
                     ("OAuth token request failed (" +:+ pretty status
                      +:+ "): " +:+ text)), w1)
    end.
Proof.
  intros Hc Hs Hmiss w1. unfold getAccessToken.
  rewrite !nonEmpty_Some by done. run.
  rewrite cleanupExpiredTokens_run. cbn [tokenCache setCache].
  assert (match sweep eng now (tokenCache w) !! cid with
          | Some e => jsGt eng (expires_at e) (now + 60)
          | None => false
          end = false) as Hno.
  { destruct (sweep eng now (tokenCache w) !! cid) as [e|] eqn:E; [|done].
    apply sweep_lookup in E as [E _]. by apply Hmiss. }
  unfold fetchToken. run.
  assert (∀ td : json,
            match
              (let (o, w') := readProp eng (Some td) "access_token" w1 in
               match o with
               | Returns token =>
                   let (o0, w'0) := readProp eng (Some td) "expires_in" w' in
                   match o0 with
                   | Returns seconds =>
                       let (o1, w'1) := plusM eng now seconds w'0 in
                       match o1 with
                       | Returns expiry =>
                           (Returns (access_token
                                       {| access_token := token;
                                          expires_at := expiry |}),
                            setCache
                              (<[cid := {| access_token := token;
                                           expires_at := expiry |}]>
                                 (tokenCache w'1)) w'1)
                       | Throws e => (Throws e, w'1)
                       end
                   | Throws e => (Throws e, w'0)
                   end
               | Throws e => (Throws e, w')
               end)
            with
            | (o, w2) => (o, w2)
            end
            = match newEntry now td with
              | Some e =>
                  (Returns (access_token e),
                   setCache (<[cid := e]> (sweep eng now (tokenCache w)))
                            w1)
              | None =>
                  (Throws (PlainError
                             (fault_message eng (newEntryFault td))), w1)
              end) as Hstore.
  { intros td. unfold readProp, plusM, newEntry, fault. run.
    destruct td; try done;
      destruct (plus now _); done. }
  destruct (sweep eng now (tokenCache w) !! cid) as [e|];
    [rewrite Hno|];
    (destruct (oauth2_token up cid secret) as [msg|st stt txt [td|]|st stt msg];
     [reflexivity
     | destruct (ok st); [|reflexivity]; cbn [negb];
       rewrite <- (Hstore td); unfold readProp, plusM, fault; run;
       destruct td; try reflexivity; destruct (plus now _); reflexivity
     | destruct (ok st); reflexivity
     | reflexivity]).
Qed.

(** C4: with either credential empty or absent, [getAccessToken] fails
    with the missing-credentials error at once: the world it returns is
    the world it was given, so the cache was neither swept nor read nor
    written, and no network call was logged. *)
Theorem getAccessToken_missing_credentials up now cid secret w :
  truthyStr cid = false ∨ truthyStr secret = false →
  getAccessToken up eng now cid secret w
  = (Throws (PlainError missingCredentials), w).
Proof.
  intros [H|H]; unfold getAccessToken; rewrite (nonEmpty_falsy _ H).
  - reflexivity.
  - by destruct (nonEmpty cid).
Qed.

(** C3: a cached entry for the client id with [expires_at > now + 60] is
    returned with no network call; without such an entry exactly one
    token exchange is made and, when it succeeds, the entry
    [{access_token, expires_at: now + expires_in}] replaces whatever was
    stored under the client id and the new token is returned; a second
    acquisition inside the validity window then returns the same token
    and makes no further call. *)
Theorem getAccessToken_cache_or_exchange up now cid secret w :
  cid ≠ "" → secret ≠ "" →
  let acquire := getAccessToken up eng now (Some cid) (Some secret) w in
  let swept := sweep eng now (tokenCache w) in
  (∀ e, tokenCache w !! cid = Some e →
     jsGt eng (expires_at e) (now + 60) = true →
     acquire = (Returns (access_token e), setCache swept w)
     ∧ netlog acquire.2 = netlog w)
  ∧ ((∀ e, tokenCache w !! cid = Some e →
           jsGt eng (expires_at e) (now + 60) = false) →
     netlog acquire.2 = netlog w ++ [TokenExchange cid secret]
     ∧ ∀ status statusText text td e,
         oauth2_token up cid secret
         = Responds status statusText text (Some td) →
         ok status = true →
         newEntry now td = Some e →
         acquire.1 = Returns (access_token e)
         ∧ tokenCache acquire.2 = <[cid := e]> swept
         ∧ tokenCache acquire.2 !! cid = Some e
         ∧ ∀ up2 now2,
             jsGt eng (expires_at e) (now2 + 60) = true →
             let again :=
               getAccessToken up2 eng now2 (Some cid) (Some secret)
                              acquire.2 in
             again.1 = Returns (access_token e)
             ∧ netlog again.2 = netlog w ++ [TokenExchange cid secret]).
Proof.
  intros Hc Hs acquire swept. split.
  - intros e He Hgt. subst acquire.
    by rewrite (getAccessToken_hit _ _ _ _ _ e).
  - intros Hmiss. subst acquire.
    rewrite getAccessToken_miss by done. split.
    + destruct (oauth2_token up cid secret)
        as [msg|st stt txt [td|]|st stt msg];
        [done | destruct (ok st); [by destruct (newEntry now td) | done]
         | by destruct (ok st) | done].
    + intros st stt txt td e Hup Hok He. rewrite Hup, Hok, He.
      cbn [fst snd tokenCache setCache].
      split; [done|]. split; [done|].
      split; [by rewrite lookup_insert_eq|].
      intros up2 now2 Hwin.
      rewrite (getAccessToken_hit up2 now2 _ _ _ e);
        [done | done | done | cbn [tokenCache setCache];
           by rewrite lookup_insert_eq | done].
Qed.


End TokenCacheProperties.

(** *** Worked instances *)

Lemma getAccessToken_missing_credentials_witness :
  truthyStr (Some "") = false
  ∧ getAccessToken (demoUpstream 3600 emptyPage) demoEngine 1000
                   (Some "") (Some "secret") demoWorld
    = (Throws (PlainError missingCredentials), demoWorld).
Proof.
  split; [reflexivity|].
  apply getAccessToken_missing_credentials. left. reflexivity.
Defined.

Lemma getAccessToken_cache_or_exchange_witness :
  (* a live entry is reused *)
  getAccessToken (demoUpstream 3600 emptyPage) demoEngine 1000
                 (Some "id") (Some "secret") demoWorld
  = (Returns (Some (JStr "cached")),
     setCache (sweep demoEngine 1000 (tokenCache demoWorld)) demoWorld)
  (* an empty cache: one exchange, then reuse 3000 seconds later *)
  ∧ (let first := getAccessToken (demoUpstream 3600 emptyPage) demoEngine 1000
                    (Some "id") (Some "secret") initialWorld in
     let second := getAccessToken (demoUpstream 3600 emptyPage) demoEngine 4000
                     (Some "id") (Some "secret") first.2 in
     first.1 = Returns (Some (JStr "tok"))
     ∧ tokenCache first.2 !! "id"
       = Some {| access_token := Some (JStr "tok"); expires_at := Seconds 4600 |}
     ∧ second.1 = Returns (Some (JStr "tok"))
     ∧ netlog second.2 = [TokenExchange "id" "secret"]).
Proof.
  split.
  - apply (proj1 (getAccessToken_cache_or_exchange demoEngine
                    (demoUpstream 3600 emptyPage) 1000 "id" "secret" demoWorld
                    ltac:(discriminate) ltac:(discriminate))
                 {| access_token := Some (JStr "cached");
                    expires_at := Seconds 5000 |}).
    + vm_compute. reflexivity.
    + reflexivity.
  - destruct (proj2 (getAccessToken_cache_or_exchange demoEngine
                       (demoUpstream 3600 emptyPage) 1000 "id" "secret"
                       initialWorld ltac:(discriminate) ltac:(discriminate)))
      as [_ Hok].
    + intros e He. vm_compute in He. discriminate.
    + destruct (Hok 200 "OK" "" (tokenData "tok" 3600)
                  {| access_token := Some (JStr "tok");
                     expires_at := Seconds 4600 |} eq_refl eq_refl eq_refl)
        as (H1 & _ & H3 & H4).
      destruct (H4 (demoUpstream 3600 emptyPage) 4000 eq_refl) as [H5 H6].
      split; [exact H1 | split; [exact H3 | split; [exact H5 | exact H6]]].
Defined.



(** ** Computations that leave the world alone *)

Lemma stateless_ret {A} (a : A) : stateless (ret a).
Proof. by exists (Returns a). Qed.

Lemma stateless_throw {A} e : stateless (@throw A e).
Proof. by exists (Throws e). Qed.

Lemma stateless_bind {A B} (m : M A) (k : A → M B) :
  stateless m → (∀ a, stateless (k a)) → stateless (m ≫= k).
Proof.
  intros [[a|e] Hm] Hk.
  - destruct (Hk a) as [o Ho]. exists o. intros w. run. by rewrite Hm.
  - exists (Throws e). intros w. run. by rewrite Hm.
Qed.

Create HintDb stateless.
#[local] Hint Resolve stateless_ret stateless_throw stateless_bind : stateless.

Section Stateless.
Context (eng : Engine).

Lemma stateless_toStrM v : stateless (toStrM eng v).
Proof. unfold toStrM, fault. destruct (toStrV v); auto with stateless. Qed.

Lemma stateless_readProp x k : stateless (readProp eng x k).
Proof.
  unfold readProp, fault. destruct x as [[]|]; auto with stateless.
Qed.

Lemma stateless_toStringMethod v : stateless (toStringMethod eng v).
Proof.
  unfold toStringMethod, fault.
  destruct v; try apply stateless_toStrM; auto with stateless.
  destruct (assoc "toString" fields); auto with stateless.
Qed.

Lemma stateless_forEach {A B} (f : A → M (list B)) l :
  (∀ a, stateless (f a)) → stateless (forEach f l).
Proof.
  intros Hf. induction l as [|x r IH]; simpl; [apply stateless_ret|].
  apply stateless_bind; [done|]. intros ys.
  apply stateless_bind; [done|]. intros zs. apply stateless_ret.
Qed.

Lemma stateless_buildSearchParams params :
  stateless (buildSearchParams eng params).
Proof.
  unfold buildSearchParams. destruct (truthy params); [|apply stateless_ret].
  apply stateless_forEach. intros [key value].
  assert (stateless (s ← toStringMethod eng value; ret [(key, s)])) as Hone.
  { apply stateless_bind; [apply stateless_toStringMethod|].
    intros; apply stateless_ret. }
  destruct value; try exact Hone; [apply stateless_ret|].
  apply stateless_forEach. intros v.
  apply stateless_bind; [apply stateless_toStringMethod|].
  intros; apply stateless_ret.
Qed.
End Stateless.

#[local] Hint Resolve stateless_toStrM stateless_readProp
  stateless_toStringMethod stateless_buildSearchParams : stateless.

(** ** The protocol adapter *)

Section ProtocolProperties.
Context (zod : ZodLib) (eng : Engine).
Implicit Types (up : Upstream) (now : Z) (w : World) (request : json)
         (hdrs : gmap string string).

(** *** The shape of a [tools/call] *)

Lemma handleMCPRequest_tools_call up now request hdrs key args w :
  callsTool request key args →
  handleMCPRequest zod up eng now request hdrs w
  = match lookupTool key with
    | None =>
        (Returns (failure (getProp request "id") (-32601)
                          ("Tool " +:+ key +:+ " not found")), w)
    | Some handler =>
        match nonEmpty (hdrs !! "x-petfinder-client-id"),
              nonEmpty (hdrs !! "x-petfinder-client-secret") with
        | Some cid, Some secret =>
            let '(o, w') :=
              callHandler zod up eng now handler args
                (setCtx {| clientId := Some cid; clientSecret := Some secret |}
                        w) in
            (Returns
               match o with
               | Returns r =>
                   success (getProp request "id") (wrapResult eng r)
               | Throws e =>
                   createErrorResponse eng (getProp request "id") e (-32603)
               end,
             setCtx emptyCtx w')
        | _, _ =>
            (Returns (failure (getProp request "id") (-32001)
                              authenticationRequired), w)
        end
    end.
Proof.
  intros (Hm & params & Hp & Hnn & Hkey & Hargs).
  assert (isNull request = false) as Hreq by (by destruct request).
  unfold handleMCPRequest. rewrite Hreq, Hm, Hp.
  change (methodIs (Some (JStr "tools/call")) "initialize") with false.
  change (methodIs (Some (JStr "tools/call")) "tools/list") with false.
  change (methodIs (Some (JStr "tools/call")) "tools/call") with true.
  cbn iota.
  destruct params; try done;
    (unfold toStrM; rewrite Hkey, Hargs; run;
     destruct (lookupTool key) as [h|]; [|done];
     cbn [extractCredentialsFromHeaders clientId clientSecret];
     destruct (nonEmpty (hdrs !! "x-petfinder-client-id")) as [cid|]; [|done];
     destruct (nonEmpty (hdrs !! "x-petfinder-client-secret")) as [sec|];
       [|done];
     destruct (callHandler zod up eng now h args _) as [[r|e] w']; done).
Qed.

(** *** Listing the tools *)

(** C9: [tools/list] answers with the seven-entry catalogue, named
    [pets.search], [pets.get], [organizations.search],
    [organizations.get], [types.list], [types.get] and [breeds.list];
    the answer is the same for every set of headers, and the world (token
    cache, credential slot, log of upstream calls) is left as it was. *)
Theorem tools_list_catalogue up now request hdrs w :
  getProp request "method" = Some (JStr "tools/list") →
  handleMCPRequest zod up eng now request hdrs w
  = (Returns (success (getProp request "id")
                      (JObj [("tools", JArr (tools zod))])), w)
  ∧ length (tools zod) = 7%nat
  ∧ map (fun t => getProp t "name") (tools zod) = toolNames.
Proof.
  intros Hm. split; [|split; reflexivity].
  assert (isNull request = false) as Hreq by (by destruct request).
  unfold handleMCPRequest. rewrite Hreq, Hm.
  change (methodIs (Some (JStr "tools/list")) "initialize") with false.
  change (methodIs (Some (JStr "tools/list")) "tools/list") with true.
  reflexivity.
Qed.

(** *** Credentials *)

Lemma lacksCredentials_nonEmpty hdrs :
  lacksCredentials hdrs →
  nonEmpty (hdrs !! "x-petfinder-client-id") = None
  ∨ nonEmpty (hdrs !! "x-petfinder-client-secret") = None.
Proof. intros [H|H]; [left|right]; by apply nonEmpty_falsy. Qed.

Lemma hasCredentials_nonEmpty hdrs cid secret :
  hasCredentials hdrs cid secret →
  nonEmpty (hdrs !! "x-petfinder-client-id") = Some cid
  ∧ nonEmpty (hdrs !! "x-petfinder-client-secret") = Some secret.
Proof.
  intros (-> & Hc & -> & Hs). split; by apply nonEmpty_Some.
Qed.

(** C2 (as amended): the tool name is looked up first, so a name that
    [allTools] does not resolve is answered with -32601 whatever the
    headers are; for a name that does resolve, a request lacking either
    credential header is answered with the authentication-required error
    -32001, and the world is untouched: no handler ran, no token exchange
    and no API call was made. *)
Theorem tools_call_checks_credentials_after_lookup
    up now request hdrs key args w :
  callsTool request key args →
  (lookupTool key = None →
     handleMCPRequest zod up eng now request hdrs w
     = (Returns (failure (getProp request "id") (-32601)
                         ("Tool " +:+ key +:+ " not found")), w))
  ∧ (is_Some (lookupTool key) → lacksCredentials hdrs →
     handleMCPRequest zod up eng now request hdrs w
     = (Returns (failure (getProp request "id") (-32001)
                         authenticationRequired), w)).
Proof.
  intros Hcall. rewrite (handleMCPRequest_tools_call _ _ _ _ _ _ _ Hcall).
  split.
  - by intros ->.
  - intros [h ->] Hlack.
    destruct (lacksCredentials_nonEmpty _ Hlack) as [-> | ->]; [done|].
    by destruct (nonEmpty (hdrs !! "x-petfinder-client-id")).
Qed.

(** *** Upstream failures *)

Lemma bind_stateless_run {A B} (m : M A) (k : A → M B) w a :
  (∀ w', m w' = (Returns a, w')) → (m ≫= k) w = k a w.
Proof. intros Hm. run. by rewrite Hm. Qed.

Lemma petfinderRequest_run up now endpoint params w cid secret :
  requestContext w = {| clientId := Some cid; clientSecret := Some secret |} →
  cid ≠ "" → secret ≠ "" →
  petfinderRequest up eng now endpoint params w
  = match getAccessToken up eng now (Some cid) (Some secret) w with
    | (Throws e, w1) => (Throws e, w1)
    | (Returns token, w1) =>
        match buildSearchParams eng params w1 with
        | (Throws e, _) => (Throws e, w1)
        | (Returns query, _) =>
            match toStrV token with
            | None =>
                (Throws (PlainError (fault_message eng NoPrimitive)), w1)
            | Some bearer =>
                let url := requestUrl eng endpoint params query in
                let w2 := logCall (ApiGet url bearer) w1 in
                match api up url bearer with
                | Rejects msg | Truncated _ _ msg =>
                    (Throws (PlainError msg), w2)
                | Responds status statusText text parsed =>
                    if ok status then
                      match parsed with
                      | None =>
                          (Throws (PlainError
                                     (fault_message eng JsonSyntax)), w2)
                      | Some j => (Returns j, w2)
                      end
                    else
                      (Throws (PetfinderAPIError status statusText
                                 (default (JStr text) parsed)
                                 (apiFailure status text)), w2)
                end
            end
        end
    end.
Proof.
  intros Hctx Hc Hs. unfold petfinderRequest. run. rewrite Hctx.
  cbn [clientId clientSecret]. rewrite !nonEmpty_Some by done.
  destruct (getAccessToken up eng now (Some cid) (Some secret) w)
    as [[token|e] w1]; [|done].
  destruct (stateless_buildSearchParams eng params) as [o Ho].
  rewrite Ho. destruct o as [query|e]; [|done].
  unfold toStrM, fault. run.
  destruct (toStrV token) as [bearer|]; [|done].
  unfold fetchApi. run.
  destruct (api up _ bearer) as [msg|st stt txt [j|]|st stt msg];
    [done | by destruct (ok st) .. | done].
Qed.

Lemma createErrorResponse_upstream rid status statusText body msg fallback :
  let r := createErrorResponse eng rid
             (PetfinderAPIError status statusText body msg) fallback in
  errorCode r = Some (mapHTTPStatusToJSONRPCError status)
  ∧ result r = None ∧ id r = rid.
Proof. done. Qed.

Lemma createErrorResponse_local rid e fallback :
  (∀ status statusText body msg,
     e ≠ PetfinderAPIError status statusText body msg) →
  createErrorResponse eng rid e fallback
  = failure rid fallback (exn_message e).
Proof. intros Hne. destruct e; [done | done | exfalso; by eapply Hne]. Qed.

Lemma mapHTTPStatusToJSONRPCError_table status :
  mapHTTPStatusToJSONRPCError status
  = if decide (status = 400) then -32602
    else if decide (status = 401) then -32001
    else if decide (status = 403) then -32002
    else if decide (status = 404) then -32003
    else if decide (status = 429) then -32004
    else -32603.
Proof.
  unfold mapHTTPStatusToJSONRPCError.
  repeat case_decide; subst; try reflexivity.
  repeat match goal with
         | H : status ≠ _ |- _ => rewrite (proj2 (Z.eqb_neq _ _) H); clear H
         end.
  by destruct (_ || _).
Qed.



(** *** What a request can do to the response and to the world *)

Lemma resultXorError_success rid r : resultXorError (success rid r).
Proof. left. by split; [eexists|]. Qed.

Lemma resultXorError_failure rid c msg : resultXorError (failure rid c msg).
Proof. right. by split; [|eexists]. Qed.

Lemma resultXorError_createErrorResponse rid e fallback :
  resultXorError (createErrorResponse eng rid e fallback).
Proof. right. destruct e; by split; [|eexists]. Qed.

(** A request either fails before anything happened, or is answered
    without touching the world, or went through the handler, after which
    the credential slot is empty.  Every answer has exactly one of
    [result] and [error]. *)
Lemma handleMCPRequest_cases up now request hdrs w :
  let run := handleMCPRequest zod up eng now request hdrs w in
  (∃ e, run = (Throws e, w))
  ∨ (∃ r, run = (Returns r, w) ∧ resultXorError r)
  ∨ (∃ r w', run = (Returns r, setCtx emptyCtx w') ∧ resultXorError r).
Proof.
  intros run. subst run. unfold handleMCPRequest.
  destruct (isNull request); [left; by eexists|].
  destruct (methodIs _ "initialize").
  { right; left. eexists. split; [reflexivity|].
    apply resultXorError_success. }
  destruct (methodIs _ "tools/list").
  { right; left. eexists. split; [reflexivity|].
    apply resultXorError_success. }
  destruct (methodIs _ "tools/call").
  - destruct (getProp request "params") as [params|];
      [|left; by eexists].
    assert (∀ name args,
      let run :=
        (key ← toStrM eng name;
         let handler := lookupTool key in
         let creds := extractCredentialsFromHeaders hdrs in
         match handler with
         | None =>
             ret (failure (getProp request "id") (-32601)
                    ("Tool " +:+ key +:+ " not found"))
         | Some handler =>
             match nonEmpty (clientId creds), nonEmpty (clientSecret creds)
             with
             | Some cid, Some secret =>
                 tryFinally
                   (tryCatch
                      (modifyW (setCtx {| clientId := Some cid;
                                          clientSecret := Some secret |});;
                       r ← callHandler zod up eng now handler args;
                       ret (success (getProp request "id")
                                    (wrapResult eng r)))
                      (fun error =>
                         ret (createErrorResponse eng (getProp request "id")
                                error (-32603))))
                   (setCtx emptyCtx)
             | _, _ =>
                 ret (failure (getProp request "id") (-32001)
                        authenticationRequired)
             end
         end) w in
      (∃ e, run = (Throws e, w))
      ∨ (∃ r, run = (Returns r, w) ∧ resultXorError r)
      ∨ (∃ r w', run = (Returns r, setCtx emptyCtx w') ∧ resultXorError r))
      as Hbody.
    { intros name args. unfold toStrM, fault. run.
      destruct (toStrV name) as [key|]; [|left; by eexists].
      destruct (lookupTool key) as [h|].
      2:{ right; left. eexists. split; [reflexivity|].
          apply resultXorError_failure. }
      destruct (nonEmpty _) as [cid|].
      2:{ right; left. eexists. split; [reflexivity|].
          apply resultXorError_failure. }
      destruct (nonEmpty _) as [secret|].
      2:{ right; left. eexists. split; [reflexivity|].
          apply resultXorError_failure. }
      right; right.
      destruct (callHandler zod up eng now h args _) as [[r|e] w'].
      - eexists _, w'. split; [reflexivity|]. apply resultXorError_success.
      - eexists _, w'. split; [reflexivity|].
        apply resultXorError_createErrorResponse. }
    destruct params; try apply Hbody. left; by eexists.
  - unfold toStrM, fault. run.
    destruct (toStrV _) as [m|]; [|left; by eexists].
    right; left. eexists. split; [reflexivity|].
    apply resultXorError_failure.
Qed.

(** The transport never lets an exception escape, and inherits the two
    properties above. *)
Lemma fetch_cases up now req w :
  ∃ resp w',
    fetch zod up eng now req w = (Returns resp, w')
    ∧ (w' = w ∨ requestContext w' = emptyCtx)
    ∧ (∀ r, http_body resp = JsonBody r → resultXorError r).
Proof.
  unfold fetch.
  destruct (String.eqb _ "OPTIONS").
  { eexists _, w. split; [reflexivity|]. split; [by left|]. done. }
  destruct (String.eqb _ "/healthz").
  { eexists _, w. split; [reflexivity|]. split; [by left|]. done. }
  destruct (_ || _).
  { eexists _, w. split; [reflexivity|]. split; [by left|]. done. }
  assert (∀ e, ∃ resp w',
    (Returns {| http_status := 400;
               http_body := JsonBody (createErrorResponse eng
                              (Some (JStr "unknown")) e (-32700)) |}, w)
    = (Returns resp, w')
    ∧ (w' = w ∨ requestContext w' = emptyCtx)
    ∧ (∀ r, http_body resp = JsonBody r → resultXorError r)) as Hcatch.
  { intros e. eexists _, w. split; [reflexivity|]. split; [by left|].
    intros r [= <-]. apply resultXorError_createErrorResponse. }
  unfold fault. run.
  destruct (JSON_parse eng (bodyText req)) as [body|]; [|apply Hcatch].
  destruct (stateless_readProp eng (Some body) "method") as [o1 H1].
  rewrite H1. destruct o1 as [method|e]; [|apply Hcatch].
  destruct (stateless_toStrM eng method) as [o2 H2].
  rewrite H2. destruct o2 as [s|e]; [|apply Hcatch].
  destruct (stateless_toStrM eng (getProp body "id")) as [o3 H3].
  rewrite H3. destruct o3 as [s'|e]; [|apply Hcatch].
  destruct (handleMCPRequest_cases up now body (headers req) w)
    as [[e ->] | [(r & -> & Hr) | (r & w' & -> & Hr)]].
  - apply Hcatch.
  - eexists _, w. split; [reflexivity|]. split; [by left|].
    by intros ? [= <-].
  - eexists _, _. split; [reflexivity|]. split; [by right|].
    by intros ? [= <-].
Qed.

Lemma serveAll_requestContext steps w :
  requestContext w = emptyCtx →
  requestContext (serveAll zod eng steps w) = emptyCtx.
Proof.
  revert w. induction steps as [|[[up now] req] rest IH]; intros w Hw;
    [done|].
  simpl. apply IH.
  destruct (fetch_cases up now req w) as (resp & w' & -> & [-> | Hctx] & _);
    done.
Qed.

(** C8: over any sequence of requests served from the initial state the
    credential slot is empty after each of them; and a [tools/call] that
    reaches its handler leaves the slot empty whatever the slot held
    before and however the handler ended (a result, a validation error,
    an upstream error). *)
Theorem requestContext_cleared :
  (∀ steps, requestContext (serveAll zod eng steps initialWorld) = emptyCtx)
  ∧ (∀ up now request hdrs key args handler cid secret w,
       callsTool request key args →
       lookupTool key = Some handler →
       hasCredentials hdrs cid secret →
       requestContext (handleMCPRequest zod up eng now request hdrs w).2
       = emptyCtx).
Proof.
  split; [intros; by apply serveAll_requestContext|].
  intros up now request hdrs key args h cid secret w Hcall Hh Hcred.
  rewrite (handleMCPRequest_tools_call _ _ _ _ _ _ _ Hcall), Hh.
  destruct (hasCredentials_nonEmpty _ _ _ Hcred) as [-> ->].
  by destruct (callHandler _ _ _ _ _ _ _) as [o w'].
Qed.

(** *** Successful tool calls *)

Lemma yieldsToolResult_ret summary payload :
  yieldsToolResult (ret (toolResult summary payload)).
Proof. intros w r w' [= <- _]. eauto. Qed.

Lemma yieldsToolResult_bind {A} (m : M A) (k : A → M json) :
  (∀ a, yieldsToolResult (k a)) → yieldsToolResult (m ≫= k).
Proof.
  intros Hk w r w'. run. destruct (m w) as [[a|e] w1]; [|done].
  apply Hk.
Qed.

Ltac yields :=
  repeat (apply yieldsToolResult_bind; intros); apply yieldsToolResult_ret.

Lemma assoc_allTools_registered key h :
  assoc key allTools = Some h → registered h = true.
Proof.
  unfold allTools. simpl.
  repeat (destruct (String.eqb key _); [by intros [= <-]|]). done.
Qed.

(** The seven tool functions, when they return, return
    [{ content: [summary, payload] }]. *)
Lemma registered_tools_return_content up now h args w r w' :
  registered h = true →
  callHandler zod up eng now h args w = (Returns r, w') →
  ∃ summary payload, r = Plain (toolResult summary payload).
Proof.
  intros Hreg Hrun.
  assert (∀ m : M json, yieldsToolResult m →
            (x ← m; ret (Plain x)) w = (Returns r, w') →
            ∃ summary payload, r = Plain (toolResult summary payload))
    as Hlift.
  { intros m Hm. run. destruct (m w) as [[x|e] w1] eqn:E; [|done].
    intros [= <- <-]. destruct (Hm _ _ _ E) as (a & b & ->). eauto. }
  destruct h; try done; simpl in Hrun; revert Hrun; apply Hlift;
    unfold searchPets, getPet, searchOrgs, getOrg, listAnimalTypes,
           getAnimalTypeDetails, listAnimalBreeds; yields.
Qed.

(** For the seven registered names a successful [tools/call] carries a
    [content] array with a text block. *)
Lemma registered_call_has_text_content
    up now request hdrs key args h w resp x :
  callsTool request key args →
  assoc key allTools = Some h →
  (handleMCPRequest zod up eng now request hdrs w).1 = Returns resp →
  result resp = Some x →
  hasTextContent x = true.
Proof.
  intros Hcall Hh. rewrite (handleMCPRequest_tools_call _ _ _ _ _ _ _ Hcall).
  unfold lookupTool. rewrite Hh.
  destruct (nonEmpty _) as [cid|]; [|by intros [= <-]].
  destruct (nonEmpty _) as [secret|]; [|by intros [= <-]].
  destruct (callHandler _ _ _ _ _ _ _) as [[r|e] w'] eqn:E; simpl.
  - intros [= <-] [= <-].
    destruct (registered_tools_return_content _ _ _ _ _ _ _
                (assoc_allTools_registered _ _ Hh) E) as (a & b & ->).
    reflexivity.
  - intros [= <-]. by destruct e.
Qed.

Lemma credentialHeaders_present :
  hasCredentials credentialHeaders "id" "secret".
Proof. repeat split; by vm_compute. Qed.

Lemma callsTool_toolCall rid name args :
  callsTool (toolCall rid name args) name (Some args).
Proof. split; [done|]. eexists. by repeat split. Qed.

(** C7 at the failing input: [name: "constructor"] is not one of the
    seven tools, yet [allTools["constructor"]] is the inherited function
    [Object]; called on the arguments [{ content: 5 }] it hands them back,
    they pass the ['content' in result] test, and the response is a
    success whose [result] is [{ content: 5 }]: no content array, no text
    block.  No upstream call is made on the way. *)
Theorem constructor_call_result_without_text_block up now w :
  let run := handleMCPRequest zod up eng now callConstructor
                              credentialHeaders w in
  run.1 = Returns (success (Some (JNum 4)) (JObj [("content", JNum 5)]))
  ∧ hasTextContent (JObj [("content", JNum 5)]) = false
  ∧ assoc "constructor" allTools = None
  ∧ netlog run.2 = netlog w.
Proof.
  intros run. subst run. unfold callConstructor.
  rewrite (handleMCPRequest_tools_call _ _ _ _ _ _ _
             (callsTool_toolCall _ _ _)).
  change (lookupTool "constructor") with (Some Fn_Object).
  destruct (hasCredentials_nonEmpty _ _ _ credentialHeaders_present)
    as [-> ->].
  done.
Qed.

(** *** [tools/call] without usable [params] *)

(** C10 (as amended): when [params] is absent or [null] the
    destructuring in [handleMCPRequest] throws; the transport's catch
    turns that into HTTP 400 with the envelope
    [{ id: "unknown", error: { code: -32700, ... } }], the request's own
    id is not used, and the world is untouched. *)
Theorem tools_call_without_params up now req body w :
  http_method req = "POST" → pathname req = "/mcp" →
  JSON_parse eng (bodyText req) = Some body →
  getProp body "method" = Some (JStr "tools/call") →
  getProp body "params" = None ∨ getProp body "params" = Some JNull →
  handleMCPRequest zod up eng now body (headers req) w
  = (Throws (PlainError (fault_message eng DestructureNullish)), w)
  ∧ ∃ msg,
      fetch zod up eng now req w
      = (Returns {| http_status := 400;
                    http_body :=
                      JsonBody (failure (Some (JStr "unknown")) (-32700) msg)
                 |}, w)
      ∧ (is_Some (toStrV (getProp body "id")) →
         msg = fault_message eng DestructureNullish).
Proof.
  intros Hpost Hpath Hbody Hm Hp.
  assert (handleMCPRequest zod up eng now body (headers req) w
          = (Throws (PlainError (fault_message eng DestructureNullish)), w))
    as Hthrow.
  { assert (isNull body = false) as Hreq by (by destruct body).
    unfold handleMCPRequest. rewrite Hreq, Hm.
    change (methodIs (Some (JStr "tools/call")) "initialize") with false.
    change (methodIs (Some (JStr "tools/call")) "tools/list") with false.
    change (methodIs (Some (JStr "tools/call")) "tools/call") with true.
    by destruct Hp as [-> | ->]. }
  split; [done|].
  unfold fetch. rewrite Hpost, Hpath, Hbody.
  change (String.eqb "POST" "OPTIONS") with false.
  change (String.eqb "/mcp" "/healthz") with false.
  change (negb (String.eqb "POST" "POST") || negb (String.eqb "/mcp" "/mcp"))
    with false.
  cbv iota. unfold readProp.
  destruct body; try done. rewrite Hm. unfold toStrM, fault. run.
  cbn [toStrV toStr].
  destruct (toStrV (getProp (JObj fields) "id")) as [s|].
  - rewrite Hthrow. eexists. split; [reflexivity|]. done.
  - eexists. split; [reflexivity|]. by intros [? ?].
Qed.

(** *** Validation *)

Lemma searchPets_rejects_before_upstream up now input issues msg w :
  parse zod animalSearchSchema
    (JObj (objAssign [("status", JStr "adoptable"); ("sort", JStr "recent");
                      ("page", JNum 1); ("limit", JNum 20)]
                     (ownEntries input)))
  = inl (issues, msg) →
  callHandler zod up eng now Fn_searchPets input w
  = (Throws (ZodError issues msg), w).
Proof.
  intros Hv. unfold callHandler, searchPets, zparse. rewrite Hv. done.
Qed.

Lemma searchOrgs_rejects_before_upstream up now input issues msg w :
  parse zod organizationSearchSchema
    (JObj (objAssign [("page", JNum 1); ("limit", JNum 20)]
                     (ownEntries input)))
  = inl (issues, msg) →
  callHandler zod up eng now Fn_searchOrgs input w
  = (Throws (ZodError issues msg), w).
Proof.
  intros Hv. unfold callHandler, searchOrgs, zparse. rewrite Hv. done.
Qed.

(** A request without query parameters always gets as far as an upstream
    call (the token exchange, the API call, or both), but for one case:
    the cache holds a token for the client that is still valid and that
    has no text form, so that building the [Authorization] header
    raises. *)
Lemma petfinderRequest_reaches_upstream up now endpoint w cid secret :
  requestContext w = {| clientId := Some cid; clientSecret := Some secret |} →
  cid ≠ "" → secret ≠ "" →
  (length (netlog w)
   < length (netlog (petfinderRequest up eng now endpoint None w).2))%nat
  ∨ ∃ e, tokenCache w !! cid = Some e
         ∧ jsGt eng (expires_at e) (now + 60) = true
         ∧ toStrV (access_token e) = None.
Proof.
  intros Hctx Hc Hs.
  rewrite (petfinderRequest_run _ _ _ _ _ cid secret) by done.
  change (buildSearchParams eng None) with (@ret (list (string * string)) []).
  unfold ret.
  destruct (usable_or_not eng now cid w) as [(e & E & Hgt)|Hno].
  - rewrite (getAccessToken_hit _ _ _ _ _ _ e) by done.
    destruct (toStrV (access_token e)) as [bearer|] eqn:Eb;
      [left | right; by exists e].
    cbv zeta.
    destruct (api up _ bearer) as [m|st stt txt [j|]|st stt m];
      [|destruct (ok st)..|]; simpl; rewrite length_app; simpl; lia.
  - left. rewrite getAccessToken_miss by done.
    destruct (oauth2_token up cid secret) as [m|st stt txt [td|]|st stt m];
      [|destruct (ok st)..|]; try (simpl; rewrite length_app; simpl; lia).
    destruct (newEntry now td) as [e|];
      [|simpl; rewrite length_app; simpl; lia].
    destruct (toStrV (access_token e)) as [bearer|];
      [|simpl; rewrite length_app; simpl; lia].
    cbv zeta.
    destruct (api up _ bearer) as [m|st' stt' txt' [j|]|st' stt' m];
      [|destruct (ok st')..|]; simpl; rewrite !length_app; simpl; lia.
Qed.

Lemma bind_stateless_world {A B} (m : M A) (k : A → M B) w :
  (∀ a, stateless (k a)) → ((m ≫= k) w).2 = (m w).2.
Proof.
  intros Hk. run. destruct (m w) as [[a|e] w']; [|done].
  destruct (Hk a) as [o Ho]. by rewrite Ho.
Qed.

(** [getPet] on [{ id: "abc" }]: the world it leaves is the one the
    upstream request for [/animals/abc] leaves. *)
Lemma getPet_abc_world up now w :
  (callHandler zod up eng now Fn_getPet (Some (JObj [("id", JStr "abc")])) w).2
  = (petfinderRequest up eng now "/animals/abc" None w).2.
Proof.
  unfold callHandler, getPet, getAnimal.
  rewrite bind_stateless_world by auto with stateless.
  rewrite bind_stateless_world.
  2:{ intros j. repeat (apply stateless_bind; [auto with stateless|]; intros).
      apply stateless_ret. }
  rewrite (bind_stateless_run _ _ _ (Some (JStr "abc"))) by done.
  by rewrite (bind_stateless_run _ _ _ "abc") by done.
Qed.
End ProtocolProperties.

(** The five handlers below never consult the validator: their behaviour
    is the same under any two zod libraries. *)
Lemma unvalidated_handlers_ignore_validator zod zod' up eng now h args :
  h ∈ [Fn_getPet; Fn_getOrg; Fn_listAnimalTypes; Fn_getAnimalTypeDetails;
       Fn_listAnimalBreeds] →
  callHandler zod up eng now h args = callHandler zod' up eng now h args.
Proof.
  rewrite !elem_of_cons, elem_of_nil.
  intros [-> | [-> | [-> | [-> | [-> | []]]]]]; reflexivity.
Qed.

(** C1 at the failing input: [pets.get] with [{ id: "abc" }] does not fit
    [animalGetSchema] (which wants a positive integer), yet the call is
    never validated: whatever the validator would say, the outcome is the
    same, and it includes at least one upstream call made on behalf of the
    mismatching input (the one way round it has nothing to do with the
    input: a cached token, still valid, that cannot be put in the
    [Authorization] header); with no valid token cached and a token
    granted, the calls are the token exchange and the [GET] of
    [/animals/abc]. *)
Theorem getPet_reaches_upstream_unvalidated zod up eng now w :
  let outcome := handleMCPRequest zod up eng now callGetPetAbc
                                  credentialHeaders w in
  conforms animalGetSchema (JObj [("id", JStr "abc")]) = false
  ∧ ((length (netlog w) < length (netlog outcome.2))%nat
     ∨ ∃ e, tokenCache w !! "id" = Some e
            ∧ jsGt eng (expires_at e) (now + 60) = true
            ∧ toStrV (access_token e) = None)
  ∧ (∀ status statusText text td e bearer,
       (∀ e', tokenCache w !! "id" = Some e' →
              jsGt eng (expires_at e') (now + 60) = false) →
       oauth2_token up "id" "secret"
       = Responds status statusText text (Some td) →
       ok status = true → newEntry now td = Some e →
       toStrV (access_token e) = Some bearer →
       netlog outcome.2
       = netlog w ++ [TokenExchange "id" "secret";
                      ApiGet (PETFINDER_BASE +:+ "/animals/abc") bearer])
  ∧ (∀ zod', handleMCPRequest zod' up eng now callGetPetAbc
                              credentialHeaders w = outcome).
Proof.
  intros outcome. subst outcome. split; [reflexivity|].
  assert (∀ z, handleMCPRequest z up eng now callGetPetAbc credentialHeaders w
            = let '(o, w') :=
                callHandler z up eng now Fn_getPet
                  (Some (JObj [("id", JStr "abc")]))
                  (setCtx {| clientId := Some "id";
                             clientSecret := Some "secret" |} w) in
              (Returns match o with
                       | Returns r => success (Some (JNum 2)) (wrapResult eng r)
                       | Throws e =>
                           createErrorResponse eng (Some (JNum 2)) e (-32603)
                       end, setCtx emptyCtx w')) as Hrun.
  { intros z. unfold callGetPetAbc.
    rewrite (handleMCPRequest_tools_call _ _ _ _ _ _ _ _ _
               (callsTool_toolCall _ _ _)).
    change (lookupTool "pets.get") with (Some Fn_getPet).
    by destruct (hasCredentials_nonEmpty _ _ _ credentialHeaders_present)
      as [-> ->]. }
  split.
  - rewrite Hrun.
    pose proof (getPet_abc_world zod eng up now
                  (setCtx {| clientId := Some "id";
                             clientSecret := Some "secret" |} w)) as Hw.
    destruct (callHandler _ _ _ _ _ _ _) as [o w']. simpl in Hw |- *.
    rewrite Hw.
    exact (petfinderRequest_reaches_upstream eng up now "/animals/abc"
             (setCtx {| clientId := Some "id"; clientSecret := Some "secret" |}
                     w)
             "id" "secret" eq_refl ltac:(discriminate) ltac:(discriminate)).
  - split; [|intros zod'; by rewrite !Hrun].
    intros st stt txt td e bearer Hmiss Hup Hok He Hb. rewrite Hrun.
    pose proof (getPet_abc_world zod eng up now
                  (setCtx {| clientId := Some "id";
                             clientSecret := Some "secret" |} w)) as Hw.
    destruct (callHandler _ _ _ _ _ _ _) as [o w']. simpl in Hw |- *.
    rewrite Hw.
    rewrite (petfinderRequest_run eng _ _ _ _ _ "id" "secret") by done.
    rewrite getAccessToken_miss by done. rewrite Hup, Hok, He.
    change (buildSearchParams eng None) with (@ret (list (string * string)) []).
    unfold ret. rewrite Hb. cbv zeta.
    change (requestUrl eng "/animals/abc" None [])
      with (PETFINDER_BASE +:+ "/animals/abc").
    destruct (api up _ bearer) as [m|st' stt' txt' [j|]|st' stt' m];
      [|destruct (ok st')..|]; simpl; by rewrite <- app_assoc.
Qed.

(** ** Worked instances of the protocol properties *)

Lemma tools_list_catalogue_witness :
  getProp listTools "method" = Some (JStr "tools/list")
  ∧ handleMCPRequest demoZod (demoUpstream 3600 emptyPage) demoEngine 1000
                     listTools ∅ initialWorld
    = (Returns (success (Some (JNum 7))
                        (JObj [("tools", JArr (tools demoZod))])),
       initialWorld).
Proof.
  split; [reflexivity|].
  apply (tools_list_catalogue demoZod demoEngine
           (demoUpstream 3600 emptyPage) 1000 listTools ∅ initialWorld).
  reflexivity.
Defined.

Lemma tools_call_checks_credentials_after_lookup_witness :
  (* an unknown name, with credentials *)
  handleMCPRequest demoZod (demoUpstream 3600 emptyPage) demoEngine 1000
                   callUnknownTool credentialHeaders initialWorld
  = (Returns (failure (Some (JNum 1)) (-32601) "Tool pets.adopt not found"),
     initialWorld)
  (* a known name, without credentials *)
  ∧ handleMCPRequest demoZod (demoUpstream 3600 emptyPage) demoEngine 1000
                     callSearchDogs ∅ initialWorld
    = (Returns (failure (Some (JNum 3)) (-32001) authenticationRequired),
       initialWorld).
Proof.
  split.
  - apply (proj1 (tools_call_checks_credentials_after_lookup demoZod demoEngine
                    (demoUpstream 3600 emptyPage) 1000 callUnknownTool
                    credentialHeaders "pets.adopt" (Some (JObj []))
                    initialWorld (callsTool_toolCall _ _ _))).
    reflexivity.
  - apply (proj2 (tools_call_checks_credentials_after_lookup demoZod demoEngine
                    (demoUpstream 3600 emptyPage) 1000 callSearchDogs
                    ∅ "pets.search" (Some (JObj [("type", JStr "dog")]))
                    initialWorld (callsTool_toolCall _ _ _))).
    + exists Fn_searchPets. reflexivity.
    + left. reflexivity.
Defined.

(** C2, the claim as stated fails: a [tools/call] that carries no
    credential header and names an unknown tool is answered with the
    tool-not-found error -32601, not with -32001: the name is looked up
    before the credentials are checked. *)
Lemma unknown_tool_without_credentials :
  lacksCredentials ∅
  ∧ ∃ r, handleMCPRequest demoZod (demoUpstream 3600 emptyPage) demoEngine 1000
                          callUnknownTool ∅ initialWorld
         = (Returns r, initialWorld)
         ∧ errorCode r = Some (-32601)
         ∧ errorCode r ≠ Some (-32001).
Proof.
  split; [by left|]. eexists. split; [by vm_compute|]. by split.
Qed.


Lemma requestContext_cleared_witness :
  let slot up body :=
    requestContext
      (handleMCPRequest demoZod up demoEngine 1000 body credentialHeaders
                        demoWorld).2 in
  (* a result *)
  slot (demoUpstream 3600 emptyPage) callSearchDogs = emptyCtx
  (* a validation error *)
  ∧ slot (demoUpstream 3600 emptyPage) callSearchDragons = emptyCtx
  (* an upstream error *)
  ∧ slot (demoUpstream 3600 serverError) callSearchDogs = emptyCtx.
Proof.
  intros slot.
  pose proof (proj2 (requestContext_cleared demoZod demoEngine)) as H.
  split; [|split].
  - exact (H (demoUpstream 3600 emptyPage) 1000 callSearchDogs
             credentialHeaders "pets.search" _ Fn_searchPets "id" "secret"
             demoWorld (callsTool_toolCall _ _ _) eq_refl
             credentialHeaders_present).
  - exact (H (demoUpstream 3600 emptyPage) 1000 callSearchDragons
             credentialHeaders "pets.search" _ Fn_searchPets "id" "secret"
             demoWorld (callsTool_toolCall _ _ _) eq_refl
             credentialHeaders_present).
  - exact (H (demoUpstream 3600 serverError) 1000 callSearchDogs
             credentialHeaders "pets.search" _ Fn_searchPets "id" "secret"
             demoWorld (callsTool_toolCall _ _ _) eq_refl
             credentialHeaders_present).
Defined.

Lemma tools_call_without_params_witness :
  getProp callNoParams "params" = None
  ∧ ∃ msg,
      fetch demoZod (demoUpstream 3600 emptyPage) demoEngine 1000
            (post credentialHeaders callNoParams) initialWorld
      = (Returns {| http_status := 400;
                    http_body :=
                      JsonBody (failure (Some (JStr "unknown")) (-32700) msg)
                 |}, initialWorld).
Proof.
  split; [reflexivity|].
  destruct (proj2 (tools_call_without_params demoZod demoEngine
                     (demoUpstream 3600 emptyPage) 1000
                     (post credentialHeaders callNoParams) callNoParams
                     initialWorld eq_refl eq_refl
                     ltac:(vm_compute; reflexivity) eq_refl
                     (or_introl eq_refl)))
    as (msg & Hfetch & _).
  exists msg. exact Hfetch.
Defined.

(** C10, the claim as stated fails for [params] that is not an object but
    can be destructured: with [params: "abc"] nothing throws, [name] is
    [undefined], and the answer is the ordinary tool-not-found envelope
    under the request's own id, served with status 200. *)
Lemma string_params_answered_as_unknown_tool :
  getProp callStringParams "params" = Some (JStr "abc")
  ∧ fetch demoZod (demoUpstream 3600 emptyPage) demoEngine 1000
          (post credentialHeaders callStringParams) initialWorld
    = (Returns {| http_status := 200;
                  http_body :=
                    JsonBody (failure (Some (JNum 6)) (-32601)
                                      "Tool undefined not found") |},
       initialWorld).
Proof. split; [reflexivity|]. by vm_compute. Qed.

(** ** The examples, run *)

Lemma getPet_reaches_upstream_unvalidated_witness :
  netlog (handleMCPRequest demoZod (demoUpstream 3600 emptyPage) demoEngine
            1000 callGetPetAbc credentialHeaders initialWorld).2
  = [TokenExchange "id" "secret";
     ApiGet "https://api.petfinder.com/v2/animals/abc" "tok"].
Proof.
  apply (proj1 (proj2 (proj2 (getPet_reaches_upstream_unvalidated demoZod
                                (demoUpstream 3600 emptyPage) demoEngine 1000
                                initialWorld)))
           200 "OK" "" (tokenData "tok" 3600)
           {| access_token := Some (JStr "tok"); expires_at := Seconds 4600 |}
           "tok").
  - intros e He. vm_compute in He. discriminate.
  - reflexivity.
  - reflexivity.
  - reflexivity.
  - reflexivity.
Defined.

Example searchDragons_rejected :
  handleMCPRequest demoZod (demoUpstream 3600 emptyPage) demoEngine 1000
                   callSearchDragons credentialHeaders initialWorld
  = (Returns (failure (Some (JNum 8)) (-32603) "Invalid input"), initialWorld).
Proof. by vm_compute. Qed.

Example searchDogs_answer :
  (handleMCPRequest demoZod (demoUpstream 3600 emptyPage) demoEngine 1000
                    callSearchDogs credentialHeaders initialWorld).1
  = Returns (success (Some (JNum 3))
               (toolResult "Found 0 pets matching your search criteria."
                           (printJson (JObj [("animals", JArr [])])))).
Proof. by vm_compute. Qed.

(** * Further properties of the server *)

(** ** Association lists as objects *)

Lemma assoc_setField_eq {A} k (v : A) l : assoc k (setField k v l) = Some v.
Proof.
  induction l as [|[k' v'] r IH]; simpl.
  - by rewrite String.eqb_refl.
  - destruct (String.eqb_spec k k') as [->|Hne]; simpl.
    + by rewrite String.eqb_refl.
    + by destruct (String.eqb_spec k k').
Qed.

Lemma assoc_setField_ne {A} k k' (v : A) l :
  k ≠ k' → assoc k (setField k' v l) = assoc k l.
Proof.
  intros Hne. induction l as [|[k2 v2] r IH]; simpl.
  - by destruct (String.eqb_spec k k').
  - destruct (String.eqb_spec k' k2) as [->|Hne2]; simpl.
    + by destruct (String.eqb_spec k k2).
    + destruct (String.eqb_spec k k2); [done | exact IH].
Qed.

Lemma assoc_deleteField_eq {A} k (l : list (string * A)) :
  assoc k (deleteField k l) = None.
Proof.
  induction l as [|[k' v'] r IH]; simpl; [done|].
  destruct (String.eqb_spec k k') as [->|Hne]; simpl; [done|].
  by destruct (String.eqb_spec k k').
Qed.

Lemma assoc_deleteField_ne {A} k k' (l : list (string * A)) :
  k ≠ k' → assoc k (deleteField k' l) = assoc k l.
Proof.
  intros Hne. induction l as [|[k2 v2] r IH]; simpl; [done|].
  destruct (String.eqb_spec k' k2) as [->|Hne2]; simpl.
  - by destruct (String.eqb_spec k k2).
  - by destruct (String.eqb_spec k k2).
Qed.

Lemma assoc_None_not_key {A} k (l : list (string * A)) :
  assoc k l = None ↔ k ∉ l.*1.
Proof.
  induction l as [|[k' v'] r IH]; simpl.
  - split; [intros _; apply not_elem_of_nil | done].
  - rewrite not_elem_of_cons.
    destruct (String.eqb_spec k k') as [->|Hne].
    + split; [done | by intros [? _]].
    + rewrite IH. split; [by intros ? | by intros [_ ?]].
Qed.

(** With distinct keys in [extra], a key of [extra] reads its value there
    and any other key reads what [base] has. *)
Lemma assoc_objAssign {A} k (base extra : list (string * A)) :
  NoDup extra.*1 →
  assoc k (objAssign base extra)
  = match assoc k extra with
    | Some v => Some v
    | None => assoc k base
    end.
Proof.
  unfold objAssign. revert base.
  induction extra as [|[k' v'] r IH]; intros base Hnd; simpl; [done|].
  apply NoDup_cons in Hnd as [Hk' Hnd]. rewrite (IH _ Hnd).
  destruct (String.eqb_spec k k') as [->|Hne].
  - apply assoc_None_not_key in Hk'. simpl in Hk'. rewrite Hk'.
    apply assoc_setField_eq.
  - destruct (assoc k r); [done|]. by apply assoc_setField_ne.
Qed.

(** ** The effect of one upstream request *)

Section RequestEffects.
Context (zod : ZodLib) (eng : Engine).
Implicit Types (up : Upstream) (now : Z) (w : World).

(** What an acquisition does to the world, whatever its outcome. *)
Lemma getAccessToken_effect up now cid secret w :
  cid ≠ "" → secret ≠ "" →
  let r := getAccessToken up eng now (Some cid) (Some secret) w in
  requestContext r.2 = requestContext w
  ∧ (∀ k, k ≠ cid → tokenCache r.2 !! k = sweep eng now (tokenCache w) !! k)
  ∧ (∃ te, netlog r.2 = netlog w ++ te
           ∧ (te = [] ∨ te = [TokenExchange cid secret]))
  ∧ (∀ tok, r.1 = Returns tok →
            ∃ e, tokenCache r.2 !! cid = Some e ∧ access_token e = tok)
  ∧ (∀ x, r.1 = Throws x →
          tokenCache r.2 = sweep eng now (tokenCache w)
          ∧ netlog r.2 = netlog w ++ [TokenExchange cid secret]).
Proof.
  intros Hc Hs r. subst r.
  destruct (usable_or_not eng now cid w) as [(e & E & Hgt)|Hno].
  - rewrite (getAccessToken_hit _ _ _ _ _ _ e) by done.
    cbn [fst snd requestContext tokenCache netlog setCache].
    split; [done|]. split; [done|].
    split; [exists []; by rewrite app_nil_r; auto|].
    split; [|done].
    intros tok [= <-]. exists e. split; [|done].
    apply sweep_lookup. split; [done|].
    apply (jsGt_not_jsLe _ _ _ _ Hgt). lia.
  - rewrite getAccessToken_miss by done.
    assert (∀ (o : Outcome jsval) c,
              (∀ k, k ≠ cid → c !! k = sweep eng now (tokenCache w) !! k) →
              (∀ tok, o = Returns tok →
                      ∃ e, c !! cid = Some e ∧ access_token e = tok) →
              (∀ x, o = Throws x → c = sweep eng now (tokenCache w)) →
              let r := (o, setCache c
                            (logCall (TokenExchange cid secret)
                               (setCache (sweep eng now (tokenCache w)) w))) in
              requestContext r.2 = requestContext w
              ∧ (∀ k, k ≠ cid →
                      tokenCache r.2 !! k = sweep eng now (tokenCache w) !! k)
              ∧ (∃ te, netlog r.2 = netlog w ++ te
                       ∧ (te = [] ∨ te = [TokenExchange cid secret]))
              ∧ (∀ tok, r.1 = Returns tok →
                        ∃ e, tokenCache r.2 !! cid = Some e
                             ∧ access_token e = tok)
              ∧ (∀ x, r.1 = Throws x →
                      tokenCache r.2 = sweep eng now (tokenCache w)
                      ∧ netlog r.2 = netlog w ++ [TokenExchange cid secret]))
      as Hshape.
    { intros o c H1 H2 H3 r. subst r.
      cbn [fst snd requestContext tokenCache netlog setCache logCall].
      split; [done|]. split; [done|].
      split; [eexists; split; [reflexivity | by right]|].
      split; [done|]. intros x Hx. split; [by apply (H3 x) | done]. }
    destruct (oauth2_token up cid secret) as [msg|st stt txt [td|]|st stt msg];
      [|destruct (ok st); [destruct (newEntry now td) as [e|]|]
       |destruct (ok st)|].
    + by apply (Hshape _ (sweep eng now (tokenCache w))).
    + apply (Hshape _ (<[cid:=e]> (sweep eng now (tokenCache w)))).
      * intros k Hk. by rewrite lookup_insert_ne.
      * intros tok [= <-]. eexists. by rewrite lookup_insert_eq.
      * done.
    + by apply (Hshape _ (sweep eng now (tokenCache w))).
    + by apply (Hshape _ (sweep eng now (tokenCache w))).
    + by apply (Hshape _ (sweep eng now (tokenCache w))).
    + by apply (Hshape _ (sweep eng now (tokenCache w))).
    + by apply (Hshape _ (sweep eng now (tokenCache w))).
Qed.

Lemma upstreamCalls_nil cid secret : upstreamCalls cid secret [].
Proof. exists [], []. auto. Qed.

Lemma no_api_in_exchange cid secret te url bearer :
  te = [] ∨ te = [TokenExchange cid secret] →
  ApiGet url bearer ∈ te → False.
Proof.
  intros [-> | ->] Hin; [by apply elem_of_nil in Hin|].
  by apply list_elem_of_singleton in Hin.
Qed.

(** [petfinderRequest], run with the credentials in the slot, makes one
    upstream request. *)
Lemma petfinderRequest_step up now endpoint params w cid secret :
  requestContext w = ctxOf cid secret → cid ≠ "" → secret ≠ "" →
  requestStep eng now cid secret w
              (petfinderRequest up eng now endpoint params w).2.
Proof.
  intros Hctx Hc Hs.
  rewrite (petfinderRequest_run _ _ _ _ _ _ cid secret) by done.
  pose proof (getAccessToken_effect up now cid secret w Hc Hs)
    as (Hx & Hother & (te & Hlog & Hte) & Htok & _).
  assert (∀ w1, requestContext w1 = requestContext w →
                (∀ k, k ≠ cid → tokenCache w1 !! k
                                = sweep eng now (tokenCache w) !! k) →
                netlog w1 = netlog w ++ te →
                requestStep eng now cid secret w w1) as Hquiet.
  { intros w1 H1 H2 H3. split; [done|]. split; [done|]. exists te.
    split; [done|]. split; [exists te, []; rewrite app_nil_r; auto|].
    intros u b Hin. destruct (no_api_in_exchange _ _ _ _ _ Hte Hin). }
  destruct (getAccessToken up eng now (Some cid) (Some secret) w)
    as [[token|e] w1]; cbn [fst snd] in *; [|by apply Hquiet].
  destruct (Htok token eq_refl) as (e & He & Hacc).
  destruct (stateless_buildSearchParams eng params) as [o Ho]. rewrite Ho.
  destruct o as [query|x]; [|by apply Hquiet].
  destruct (toStrV token) as [bearer|] eqn:Eb; [|by apply Hquiet].
  set (url := requestUrl eng endpoint params query).
  assert (requestStep eng now cid secret w
            (logCall (ApiGet url bearer) w1)) as Hstep.
  { split; [done|]. split; [done|].
    exists (te ++ [ApiGet url bearer]).
    split; [cbn [netlog logCall]; by rewrite Hlog, app_assoc|].
    split; [exists te, [ApiGet url bearer]; split; [done|];
            split; [done | right; eauto]|].
    intros u b Hin. exists e. split; [done|].
    apply elem_of_app in Hin as [Hin|Hin].
    - destruct (no_api_in_exchange _ _ _ _ _ Hte Hin).
    - apply list_elem_of_singleton in Hin. injection Hin as _ ->.
      by rewrite Hacc. }
  cbv zeta.
  destruct (api up url bearer) as [msg|st stt txt [j|]|st stt msg];
    [done | by destruct (ok st) .. | done].
Qed.

(** *** At most one request per handler *)

Lemma atMostOneRequest_stateless {A} now cid secret (m : M A) :
  stateless m → atMostOneRequest eng now cid secret m.
Proof. intros [o Ho] w _. left. by rewrite Ho. Qed.

Lemma atMostOneRequest_bind_l {A B} now cid secret (m : M A) (k : A → M B) :
  stateless m → (∀ a, atMostOneRequest eng now cid secret (k a)) →
  atMostOneRequest eng now cid secret (m ≫= k).
Proof.
  intros [o Ho] Hk w Hw. run. rewrite Ho.
  destruct o as [a|e]; [by apply Hk | by left].
Qed.

Lemma atMostOneRequest_bind_r {A B} now cid secret (m : M A) (k : A → M B) :
  atMostOneRequest eng now cid secret m → (∀ a, stateless (k a)) →
  atMostOneRequest eng now cid secret (m ≫= k).
Proof.
  intros Hm Hk w Hw. rewrite bind_stateless_world by done. by apply Hm.
Qed.

Lemma atMostOneRequest_petfinderRequest up now cid secret endpoint params :
  atMostOneRequest eng now cid secret (petfinderRequest up eng now endpoint params).
Proof.
  intros w Hw.
  destruct (decide (cid = "")) as [->|Hc].
  { left. unfold petfinderRequest. run. by rewrite Hw. }
  destruct (decide (secret = "")) as [->|Hs].
  { left. unfold petfinderRequest. run. rewrite Hw. cbn [clientId clientSecret ctxOf].
    by destruct (nonEmpty (Some cid)). }
  right. by apply petfinderRequest_step.
Qed.

Lemma stateless_zparse schema v : stateless (zparse zod schema v).
Proof.
  unfold zparse. destruct (parse zod schema v) as [[issues msg]|x];
    auto with stateless.
Qed.

Lemma stateless_countOf result k : stateless (countOf eng result k).
Proof.
  unfold countOf. apply stateless_bind; [auto with stateless|].
  intros x. apply stateless_toStrM.
Qed.

Lemma stateless_fault {A} f : stateless (@fault A eng f).
Proof. apply stateless_throw. Qed.

(** A stateless prefix, one upstream request, a stateless suffix. *)
Ltac no_effect :=
  solve [ repeat first [ apply stateless_ret | apply stateless_toStrM
                       | apply stateless_readProp | apply stateless_countOf
                       | apply stateless_zparse
                       | apply stateless_bind; [|intros] ] ].

Ltac one_request :=
  first [ apply atMostOneRequest_petfinderRequest
        | apply atMostOneRequest_bind_l; [ no_effect | intros; one_request ]
        | apply atMostOneRequest_bind_r; [ one_request | intros; no_effect ] ].

Lemma atMostOneRequest_callHandler up now cid secret h args :
  atMostOneRequest eng now cid secret (callHandler zod up eng now h args).
Proof.
  destruct h; cbn [callHandler];
    try (apply atMostOneRequest_stateless;
         first [ apply stateless_ret | apply stateless_fault
               | destruct args as [[]|]; apply stateless_ret
               | destruct (isObject args);
                 [apply stateless_fault | apply stateless_ret]
               | apply stateless_bind;
                 [apply stateless_toStrM | intros; apply stateless_fault] ]);
    (apply atMostOneRequest_bind_r; [|intros; apply stateless_ret]);
    unfold searchPets, getPet, searchOrgs, getOrg, listAnimalTypes,
           getAnimalTypeDetails, listAnimalBreeds, searchAnimals, getAnimal,
           searchOrganizations, getOrganization, getAnimalTypes, getAnimalType,
           getAnimalBreeds;
    one_request.
Qed.
End RequestEffects.

(** ** What a request does to the world *)

Section WorldEffects.
Context (zod : ZodLib) (eng : Engine).
Implicit Types (up : Upstream) (now : Z) (w : World) (request : json)
         (hdrs : gmap string string).

Lemma nonEmpty_inv s t : nonEmpty s = Some t → s = Some t ∧ t ≠ "".
Proof.
  unfold nonEmpty. destruct s as [s|]; simpl; [|done].
  destruct (String.eqb_spec s ""); simpl; [done|]. by intros [= ->].
Qed.

(** A request leaves the world as it is, or runs one handler between
    setting and clearing the credential slot. *)
Lemma handleMCPRequest_world up now request hdrs w :
  let w' := (handleMCPRequest zod up eng now request hdrs w).2 in
  w' = w
  ∨ ∃ cid secret h args,
      hasCredentials hdrs cid secret
      ∧ w' = setCtx emptyCtx
               (callHandler zod up eng now h args
                            (setCtx (ctxOf cid secret) w)).2.
Proof.
  intros w'. subst w'. unfold handleMCPRequest.
  destruct (isNull request); [by left|].
  destruct (methodIs _ "initialize"); [by left|].
  destruct (methodIs _ "tools/list"); [by left|].
  destruct (methodIs _ "tools/call").
  - destruct (getProp request "params") as [params|]; [|by left].
    assert (∀ name args,
      let w' :=
        ((key ← toStrM eng name;
          let handler := lookupTool key in
          let creds := extractCredentialsFromHeaders hdrs in
          match handler with
          | None =>
              ret (failure (getProp request "id") (-32601)
                     ("Tool " +:+ key +:+ " not found"))
          | Some handler =>
              match nonEmpty (clientId creds), nonEmpty (clientSecret creds)
              with
              | Some cid, Some secret =>
                  tryFinally
                    (tryCatch
                       (modifyW (setCtx {| clientId := Some cid;
                                           clientSecret := Some secret |});;
                        r ← callHandler zod up eng now handler args;
                        ret (success (getProp request "id")
                                     (wrapResult eng r)))
                       (fun error =>
                          ret (createErrorResponse eng (getProp request "id")
                                 error (-32603))))
                    (setCtx emptyCtx)
              | _, _ =>
                  ret (failure (getProp request "id") (-32001)
                         authenticationRequired)
              end
          end) w).2 in
      w' = w
      ∨ ∃ cid secret h args,
          hasCredentials hdrs cid secret
          ∧ w' = setCtx emptyCtx
                   (callHandler zod up eng now h args
                                (setCtx (ctxOf cid secret) w)).2) as Hbody.
    { intros name args. unfold toStrM, fault. run.
      destruct (toStrV name) as [key|]; [|by left].
      destruct (lookupTool key) as [h|]; [|by left].
      cbn [extractCredentialsFromHeaders clientId clientSecret].
      destruct (nonEmpty (hdrs !! "x-petfinder-client-id")) as [cid|] eqn:Ec;
        [|by left].
      destruct (nonEmpty (hdrs !! "x-petfinder-client-secret"))
        as [secret|] eqn:Es; [|by left].
      apply nonEmpty_inv in Ec as [Ec ?], Es as [Es ?].
      right. exists cid, secret, h, args. split; [done|].
      unfold ctxOf.
      by destruct (callHandler zod up eng now h args _) as [[r|e] w1]. }
    destruct params; try apply Hbody. by left.
  - unfold toStrM, fault. run. destruct (toStrV _); by left.
Qed.

Lemma handleMCPRequest_step up now request hdrs w :
  let w' := (handleMCPRequest zod up eng now request hdrs w).2 in
  w' = w
  ∨ ∃ cid secret w2,
      hasCredentials hdrs cid secret
      ∧ (w2 = setCtx (ctxOf cid secret) w
         ∨ requestStep eng now cid secret (setCtx (ctxOf cid secret) w) w2)
      ∧ w' = setCtx emptyCtx w2.
Proof.
  intros w'.
  destruct (handleMCPRequest_world up now request hdrs w)
    as [H | (cid & secret & h & args & Hcred & H)]; [by left|].
  right. exists cid, secret, (callHandler zod up eng now h args
                                (setCtx (ctxOf cid secret) w)).2.
  split; [done|]. split; [|done].
  by apply (atMostOneRequest_callHandler zod eng up now cid secret h args).
Qed.

(** The transport adds nothing: the world after [fetch] is the world
    before, or the one [handleMCPRequest] leaves for the parsed body. *)
Lemma fetch_world up now req w :
  (fetch zod up eng now req w).2 = w
  ∨ ∃ body,
      JSON_parse eng (bodyText req) = Some body
      ∧ (fetch zod up eng now req w).2
        = (handleMCPRequest zod up eng now body (headers req) w).2.
Proof.
  unfold fetch.
  destruct (String.eqb _ "OPTIONS"); [by left|].
  destruct (String.eqb _ "/healthz"); [by left|].
  destruct (_ || _); [by left|].
  unfold fault. run.
  destruct (JSON_parse eng (bodyText req)) as [body|]; [|by left].
  destruct (stateless_readProp eng (Some body) "method") as [o1 H1].
  rewrite H1. destruct o1 as [method|e]; [|by left].
  destruct (stateless_toStrM eng method) as [o2 H2].
  rewrite H2. destruct o2 as [s|e]; [|by left].
  destruct (stateless_toStrM eng (getProp body "id")) as [o3 H3].
  rewrite H3. destruct o3 as [s'|e]; [|by left].
  right. exists body. split; [done|].
  by destruct (handleMCPRequest zod up eng now body (headers req) w)
    as [[r|e] w1].
Qed.

(** X1: the upstream calls of one request.  Whatever the request, it adds
    at most two calls to the log: at most one token exchange, made with
    exactly the credentials of the request's own headers, followed by at
    most one API call, whose bearer token is, as text, the token the cache
    then holds for that client id. *)
Theorem request_upstream_calls up now request hdrs w :
  let w' := (handleMCPRequest zod up eng now request hdrs w).2 in
  ∃ calls,
    netlog w' = netlog w ++ calls
    ∧ (length calls ≤ 2)%nat
    ∧ (calls = []
       ∨ ∃ cid secret,
           hasCredentials hdrs cid secret
           ∧ upstreamCalls cid secret calls
           ∧ ∀ url bearer,
               ApiGet url bearer ∈ calls →
               ∃ e, tokenCache w' !! cid = Some e
                    ∧ toStrV (access_token e) = Some bearer).
Proof.
  intros w'.
  destruct (handleMCPRequest_step up now request hdrs w)
    as [H | (cid & secret & w2 & Hcred & [-> | Hstep] & H)]; fold w' in H.
  - exists []. rewrite H, app_nil_r. split; [done|]. split; [simpl; lia|].
    by left.
  - exists []. rewrite H, app_nil_r. split; [done|]. split; [simpl; lia|].
    by left.
  - destruct Hstep as (_ & _ & calls & Hlog & Hcalls & Hbearer).
    exists calls. rewrite H. split; [done|]. split.
    + destruct Hcalls as (te & ag & -> & [-> | ->] & [-> | (? & ? & ->)]);
        simpl; lia.
    + right. by exists cid, secret.
Qed.

Lemma handleMCPRequest_other_clients up now request hdrs w k e :
  hdrs !! "x-petfinder-client-id" ≠ Some k →
  let w' := (handleMCPRequest zod up eng now request hdrs w).2 in
  (tokenCache w' !! k = Some e → tokenCache w !! k = Some e)
  ∧ (tokenCache w !! k = Some e → jsLe eng (expires_at e) now = false →
     tokenCache w' !! k = Some e).
Proof.
  intros Hk w'.
  destruct (handleMCPRequest_step up now request hdrs w)
    as [H | (cid & secret & w2 & Hcred & [-> | Hstep] & H)]; fold w' in H;
    rewrite H; [done | done |].
  destruct Hstep as (_ & Hother & _).
  assert (k ≠ cid) as Hne.
  { intros ->. by destruct Hcred as (Hid & _). }
  cbn [tokenCache setCtx] in *. rewrite (Hother k Hne). split.
  - by intros [? _]%sweep_lookup.
  - intros ? ?. by apply sweep_lookup.
Qed.

(** X2: the cache entries of the other clients.  For a client id other
    than the one the request presents, the request creates and changes
    nothing (an entry found afterwards was there before, unchanged), and an
    entry that has not expired at the time of the request (one of which
    [expires_at <= now] is false) is still there afterwards. *)
Theorem request_cache_isolation up now request hdrs w k e :
  hdrs !! "x-petfinder-client-id" ≠ Some k →
  let w' := (handleMCPRequest zod up eng now request hdrs w).2 in
  (tokenCache w' !! k = Some e → tokenCache w !! k = Some e)
  ∧ (tokenCache w !! k = Some e → jsLe eng (expires_at e) now = false →
     tokenCache w' !! k = Some e).
Proof. apply handleMCPRequest_other_clients. Qed.

(** X3: a request that lacks a credential header changes nothing: neither
    [handleMCPRequest] nor the transport around it touches the token cache,
    the credential slot or the upstream, whatever the method, the tool and
    the arguments. *)
Theorem no_credentials_no_effect up now :
  (∀ request hdrs w,
     lacksCredentials hdrs →
     (handleMCPRequest zod up eng now request hdrs w).2 = w)
  ∧ (∀ req w,
       lacksCredentials (headers req) →
       (fetch zod up eng now req w).2 = w).
Proof.
  assert (∀ request hdrs w,
            lacksCredentials hdrs →
            (handleMCPRequest zod up eng now request hdrs w).2 = w) as Hh.
  { intros request hdrs w Hlack.
    destruct (handleMCPRequest_world up now request hdrs w)
      as [H | (cid & secret & h & args & Hcred & _)]; [done|].
    exfalso. destruct Hcred as (Hc & Hc' & Hs & Hs').
    destruct Hlack as [Hl|Hl]; [rewrite Hc in Hl | rewrite Hs in Hl];
      by rewrite truthyStr_Some in Hl. }
  split; [done|]. intros req w Hlack.
  destruct (fetch_world up now req w) as [H | (body & _ & ->)]; [done|].
  by apply Hh.
Qed.

Lemma fetch_cache_keys up now req w k :
  is_Some (tokenCache (fetch zod up eng now req w).2 !! k) →
  is_Some (tokenCache w !! k) ∨ (presentedId req = Some k ∧ k ≠ "").
Proof.
  intros [e He].
  destruct (fetch_world up now req w) as [H | (body & _ & H)];
    rewrite H in He; [left; by exists e|].
  destruct (decide (presentedId req = Some k)) as [Hp|Hp].
  - destruct (handleMCPRequest_world up now body (headers req) w)
      as [Hw | (cid & secret & h & args & Hcred & _)].
    + rewrite Hw in He. left; by exists e.
    + right. split; [done|]. destruct Hcred as (Hc & Hc' & _).
      unfold presentedId in Hp. rewrite Hc in Hp. by injection Hp as <-.
  - left. exists e.
    by apply (handleMCPRequest_other_clients up now body (headers req) w k e).
Qed.

(** X4: the keys of the token cache.  However many requests a server has
    handled since it started, every client id under which the cache holds a
    token is non-empty and was presented in the client-id header of one of
    those requests. *)
Theorem cache_keys_were_presented steps k :
  is_Some (tokenCache (serveAll zod eng steps initialWorld) !! k) →
  k ≠ ""
  ∧ ∃ up now req, (up, now, req) ∈ steps ∧ presentedId req = Some k.
Proof.
  assert (∀ steps w,
            is_Some (tokenCache (serveAll zod eng steps w) !! k) →
            is_Some (tokenCache w !! k)
            ∨ (k ≠ ""
               ∧ ∃ up now req, (up, now, req) ∈ steps
                               ∧ presentedId req = Some k)) as Hgen.
  { clear steps. induction steps as [|[[up now] req] rest IH]; intros w H;
      [by left|].
    simpl in H. destruct (IH _ H) as [Hw | (Hk & up' & now' & req' & Hin & Hp)].
    - destruct (fetch_cache_keys up now req w k Hw) as [?|[Hp Hk]];
        [by left|].
      right. split; [done|]. exists up, now, req. split; [|done].
      apply elem_of_cons. by left.
    - right. split; [done|]. exists up', now', req'. split; [|done].
      apply elem_of_cons. by right. }
  intros H. destruct (Hgen steps initialWorld H) as [[e He]|?]; [|done].
  simpl in He. by rewrite lookup_empty in He.
Qed.
End WorldEffects.

(** ** Token acquisition: outcomes *)

Section TokenOutcomes.
Context (eng : Engine).
Implicit Types (up : Upstream) (now : Z) (w : World).

Lemma truthyStr_inv s : truthyStr s = true → ∃ t, s = Some t ∧ t ≠ "".
Proof.
  destruct s as [t|]; simpl; [|done].
  destruct (String.eqb_spec t ""); [done|]. intros _. by exists t.
Qed.

Lemma getAccessToken_credentials up now cid secret w :
  (∃ c s, cid = Some c ∧ c ≠ "" ∧ secret = Some s ∧ s ≠ "")
  ∨ ((truthyStr cid = false ∨ truthyStr secret = false)
     ∧ getAccessToken up eng now cid secret w
       = (Throws (PlainError missingCredentials), w)).
Proof.
  destruct (truthyStr cid) eqn:Ec.
  - destruct (truthyStr secret) eqn:Es.
    + apply truthyStr_inv in Ec as (c & -> & ?), Es as (s & -> & ?).
      left. by exists c, s.
    + right. split; [by right|].
      unfold getAccessToken. rewrite (nonEmpty_falsy secret) by done.
      by destruct (nonEmpty cid).
  - right. split; [by left|].
    unfold getAccessToken. by rewrite (nonEmpty_falsy cid).
Qed.

(** X5: a token that [getAccessToken] returns is the token the cache holds
    for the client id afterwards; the credentials were both non-empty; and
    the entry is either one that was valid beyond the 60-second margin or
    the one just built from a 2xx reply of the token endpoint. *)
Theorem getAccessToken_returns_cached_token up now cid secret w tok w' :
  getAccessToken up eng now cid secret w = (Returns tok, w') →
  ∃ c s e,
    cid = Some c ∧ c ≠ "" ∧ secret = Some s ∧ s ≠ ""
    ∧ tokenCache w' !! c = Some e ∧ access_token e = tok
    ∧ ((tokenCache w !! c = Some e
        ∧ jsGt eng (expires_at e) (now + 60) = true
        ∧ netlog w' = netlog w)
       ∨ ∃ status statusText text td,
           oauth2_token up c s = Responds status statusText text (Some td)
           ∧ ok status = true ∧ newEntry now td = Some e
           ∧ netlog w' = netlog w ++ [TokenExchange c s]).
Proof.
  intros Hrun.
  destruct (getAccessToken_credentials up now cid secret w)
    as [(c & s & -> & Hc & -> & Hs) | [_ H]]; [|by rewrite H in Hrun].
  exists c, s.
  destruct (usable_or_not eng now c w) as [(e & E & Hgt)|Hno].
  - rewrite (getAccessToken_hit _ _ _ _ _ _ e) in Hrun by done.
    injection Hrun as <- <-. exists e. repeat (split; [done|]).
    split.
    { apply sweep_lookup. split; [done|].
      apply (jsGt_not_jsLe _ _ _ _ Hgt). lia. }
    split; [done|]. by left.
  - rewrite getAccessToken_miss in Hrun by done.
    destruct (oauth2_token up c s) as [msg|st stt txt [td|]|st stt msg] eqn:Eup;
      [done | destruct (ok st) eqn:Eok; [|done] | by destruct (ok st) | done].
    destruct (newEntry now td) as [e|] eqn:Ee; [|done].
    injection Hrun as <- <-. exists e.
    repeat (split; [done|]).
    split; [cbn [tokenCache setCache]; by rewrite lookup_insert_eq|].
    split; [done|]. right. by exists st, stt, txt, td.
Qed.

Lemma newEntry_None now td :
  newEntry now td = None →
  td = JNull ∨ (td ≠ JNull ∧ plus now (getProp td "expires_in") = None).
Proof.
  unfold newEntry. destruct td; [by left|..];
    (destruct (plus now _) eqn:E; [done|]; by right).
Qed.

(** X6: when [getAccessToken] throws, no token has been stored.  Either a
    credential was missing and the world is untouched, or exactly one token
    exchange was logged, the cache is the swept cache, and the error is one
    of five: the error of a rejected [fetch] or of a reply whose body
    cannot be read; the [PetfinderAPIError] carrying the status, status
    text and raw body of a non-2xx reply; the syntax error of a 2xx reply
    that is not JSON; the [TypeError] of reading [access_token] off a 2xx
    reply whose body is [null]; the [TypeError] of adding to [now] an
    [expires_in] that has no primitive form. *)
Theorem getAccessToken_failure_stores_nothing up now cid secret w x w' :
  getAccessToken up eng now cid secret w = (Throws x, w') →
  (x = PlainError missingCredentials ∧ w' = w
   ∧ (truthyStr cid = false ∨ truthyStr secret = false))
  ∨ ∃ c s,
      cid = Some c ∧ secret = Some s
      ∧ tokenCache w' = sweep eng now (tokenCache w)
      ∧ requestContext w' = requestContext w
      ∧ netlog w' = netlog w ++ [TokenExchange c s]
      ∧ ((∃ msg, (oauth2_token up c s = Rejects msg
                  ∨ ∃ status statusText,
                      oauth2_token up c s = Truncated status statusText msg)
                 ∧ x = PlainError msg)
         ∨ (∃ status statusText text parsed,
              oauth2_token up c s = Responds status statusText text parsed
              ∧ ok status = false
              ∧ x = PetfinderAPIError status statusText (JStr text)
                      (oauthFailure status text))
         ∨ (∃ status statusText text,
              oauth2_token up c s = Responds status statusText text None
              ∧ ok status = true
              ∧ x = PlainError (fault_message eng JsonSyntax))
         ∨ (∃ status statusText text,
              oauth2_token up c s
              = Responds status statusText text (Some JNull)
              ∧ ok status = true
              ∧ x = PlainError (fault_message eng ReadOfNullish))
         ∨ (∃ status statusText text td,
              oauth2_token up c s = Responds status statusText text (Some td)
              ∧ ok status = true
              ∧ td ≠ JNull
              ∧ plus now (getProp td "expires_in") = None
              ∧ x = PlainError (fault_message eng NoPrimitive))).
Proof.
  intros Hrun.
  destruct (getAccessToken_credentials up now cid secret w)
    as [(c & s & -> & Hc & -> & Hs) | [Hfalsy H]].
  2:{ rewrite H in Hrun. injection Hrun as <- <-. by left. }
  right. exists c, s. split; [done|]. split; [done|].
  destruct (usable_or_not eng now c w) as [(e & E & Hgt)|Hno].
  { by rewrite (getAccessToken_hit _ _ _ _ _ _ e) in Hrun. }
  rewrite getAccessToken_miss in Hrun by done.
  destruct (oauth2_token up c s) as [msg|st stt txt [td|]|st stt msg] eqn:Eup;
    [|destruct (ok st) eqn:Eok; [destruct (newEntry now td) eqn:Ee|]
     |destruct (ok st) eqn:Eok|]; try done;
    injection Hrun as <- <-; (split; [done|]); (split; [done|]);
    (split; [done|]).
  - left. exists msg. split; [by left | done].
  - destruct (newEntry_None _ _ Ee) as [-> | [Hnn Hplus]].
    + do 3 right. left. by exists st, stt, txt.
    + do 4 right. exists st, stt, txt, td. repeat (split; [done|]).
      by destruct td.
  - right; left. by exists st, stt, txt, (Some td).
  - right; right; left. by exists st, stt, txt.
  - right; left. by exists st, stt, txt, None.
  - left. exists msg. split; [right; by exists st, stt | done].
Qed.
End TokenOutcomes.

(** ** The upstream client *)

Section UpstreamClient.
Context (eng : Engine).
Implicit Types (up : Upstream) (now : Z) (w : World).

Lemma requestContext_eta (x : ReqCtx) cid secret :
  clientId x = Some cid → clientSecret x = Some secret →
  x = {| clientId := Some cid; clientSecret := Some secret |}.
Proof. destruct x; simpl. by intros -> ->. Qed.

Lemma petfinderRequest_context up now endpoint params w :
  (∃ cid secret,
     requestContext w = {| clientId := Some cid; clientSecret := Some secret |}
     ∧ cid ≠ "" ∧ secret ≠ "")
  ∨ petfinderRequest up eng now endpoint params w
    = (Throws (PlainError "Request context missing credentials"), w).
Proof.
  unfold petfinderRequest. run.
  destruct (nonEmpty (clientId _)) as [cid|] eqn:Ec; [|by right].
  destruct (nonEmpty (clientSecret _)) as [secret|] eqn:Es; [|by right].
  apply nonEmpty_inv in Ec as [Ec ?], Es as [Es ?].
  left. exists cid, secret. split; [|done]. by apply requestContext_eta.
Qed.

(** X7: with a token for the client still valid beyond the margin in the
    cache, a request goes straight to the API: the only call logged is the
    [GET] of the URL built from the endpoint and the parameters, with the
    cached token, as text, as bearer. *)
Theorem petfinderRequest_reuses_cached_token
    up now endpoint params w cid secret e query bearer :
  requestContext w = ctxOf cid secret → cid ≠ "" → secret ≠ "" →
  tokenCache w !! cid = Some e → jsGt eng (expires_at e) (now + 60) = true →
  (buildSearchParams eng params w).1 = Returns query →
  toStrV (access_token e) = Some bearer →
  netlog (petfinderRequest up eng now endpoint params w).2
  = netlog w ++ [ApiGet (requestUrl eng endpoint params query) bearer].
Proof.
  intros Hctx Hc Hs He Hgt Hq Hb.
  rewrite (petfinderRequest_run _ _ _ _ _ _ cid secret) by done.
  rewrite (getAccessToken_hit _ _ _ _ _ _ e) by done.
  destruct (stateless_buildSearchParams eng params) as [o Ho].
  rewrite Ho in Hq |- *. simpl in Hq. subst o. rewrite Hb. cbv zeta.
  destruct (api up _ bearer) as [m|st stt txt [j|]|st stt m];
    [done | by destruct (ok st) .. | done].
Qed.

(** X8: a value that [petfinderRequest] returns is the JSON body of a 2xx
    reply of the API to the call it logged last, a [GET] of the URL built
    from the requested endpoint and the parameters; it returns nothing
    for a rejected call, a non-2xx reply, a body that is not JSON, or an
    empty credential slot. *)
Theorem petfinderRequest_returns_only_2xx_json
    up now endpoint params w j w' :
  petfinderRequest up eng now endpoint params w = (Returns j, w') →
  ∃ query bearer status statusText text earlier,
    (buildSearchParams eng params w).1 = Returns query
    ∧ api up (requestUrl eng endpoint params query) bearer
      = Responds status statusText text (Some j)
    ∧ ok status = true
    ∧ netlog w'
      = earlier ++ [ApiGet (requestUrl eng endpoint params query) bearer]
    ∧ truthyStr (clientId (requestContext w)) = true
    ∧ truthyStr (clientSecret (requestContext w)) = true.
Proof.
  intros Hrun.
  destruct (petfinderRequest_context up now endpoint params w)
    as [(cid & secret & Hctx & Hc & Hs) | H]; [|by rewrite H in Hrun].
  rewrite (petfinderRequest_run _ _ _ _ _ _ cid secret) in Hrun by done.
  destruct (getAccessToken up eng now (Some cid) (Some secret) w)
    as [[token|x] w1]; [|done].
  destruct (stateless_buildSearchParams eng params) as [o Ho].
  rewrite Ho in Hrun |- *. destruct o as [query|x]; [|done].
  destruct (toStrV token) as [bearer|]; [|done].
  cbv zeta in Hrun.
  destruct (api up _ bearer) as [m|st stt txt [j'|]|st stt m] eqn:Eapi;
    [done | destruct (ok st) eqn:Eok; [|done] | by destruct (ok st) | done].
  injection Hrun as <- <-.
  exists query, bearer, st, stt, txt, (netlog w1).
  rewrite Hctx. cbn [clientId clientSecret].
  rewrite !truthyStr_Some by done. done.
Qed.

(** *** The query string *)

Lemma bind_ret_r {A} (m : M A) w : (x ← m; ret x) w = m w.
Proof. run. by destruct (m w) as [[a|e] w']. Qed.

Lemma forEach_returns_cons {A B} (f : A → M (list B)) x r w l :
  stateless (f x) → (∀ a, stateless (f a)) →
  (forEach f (x :: r) w).1 = Returns l →
  ∃ ys zs, (f x w).1 = Returns ys ∧ (forEach f r w).1 = Returns zs
           ∧ l = ys ++ zs.
Proof.
  intros [o Ho] Hf. simpl. run. rewrite Ho.
  destruct o as [ys|e]; [|done].
  destruct (stateless_forEach f r Hf) as [o' Ho']. rewrite Ho'.
  destruct o' as [zs|e]; [|done]. simpl. intros [= <-]. by exists ys, zs.
Qed.

Lemma forEach_cons_congr {A B} (f : A → M (list B)) x r r' :
  (∀ w, forEach f r w = forEach f r' w) →
  ∀ w, forEach f (x :: r) w = forEach f (x :: r') w.
Proof.
  intros H w. simpl. run. destruct (f x w) as [[ys|e] w1]; [|done].
  by rewrite H.
Qed.

Lemma forEach_skip {A B} (f : A → M (list B)) x r w :
  (∀ w, f x w = (Returns [], w)) → forEach f (x :: r) w = forEach f r w.
Proof.
  intros H. simpl. run. rewrite H.
  by destruct (forEach f r w) as [[zs|e] w1].
Qed.

Lemma stateless_pair (key : string) (value : json) :
  stateless (s ← toStringMethod eng value; ret [(key, s)]).
Proof.
  apply stateless_bind; [apply stateless_toStringMethod|].
  intros; apply stateless_ret.
Qed.

Lemma pair_keys (key : string) (value : json) w (l : list (string * string)) :
  ((s ← toStringMethod eng value; ret [(key, s)]) w).1 = Returns l →
  l.*1 = [key].
Proof.
  destruct (stateless_toStringMethod eng value) as [o Ho]. run. rewrite Ho.
  destruct o; [|done]. by intros [= <-].
Qed.

Lemma items_keys (key : string) (items : list json) w
    (l : list (string * string)) :
  (forEach (fun v => s ← toStringMethod eng v; ret [(key, s)]) items w).1
  = Returns l →
  l.*1 = replicate (length items) key.
Proof.
  revert l. induction items as [|v r IH]; intros l.
  - by intros [= <-].
  - intros H.
    apply forEach_returns_cons in H as (ys & zs & Hy & Hz & ->);
      [|apply stateless_pair | intros; apply stateless_pair].
    rewrite fmap_app, (pair_keys _ _ _ _ Hy), (IH _ Hz). done.
Qed.

(** X9: the keys of the query string.  When the query is built from an
    object, its keys are the object's keys in order, a key with an array
    value repeated once per element, a key with a [null] value left out,
    any other key appearing once. *)
Theorem buildSearchParams_keys fields w query :
  (buildSearchParams eng (Some (JObj fields)) w).1 = Returns query →
  query.*1 = flat_map (fun kv => replicate (arity kv.2) kv.1) fields.
Proof.
  unfold buildSearchParams. cbn [truthy ownEntries]. revert query.
  induction fields as [|[key value] r IH]; intros query H.
  - by injection H as <-.
  - apply forEach_returns_cons in H as (ys & zs & Hy & Hz & ->).
    + rewrite fmap_app, (IH _ Hz). cbn [flat_map fst snd]. f_equal.
      destruct value; cbn [arity];
        first [ by injection Hy as <-
              | by apply (items_keys _ _ _ _ Hy)
              | by apply (pair_keys _ _ _ _ Hy) ].
    + destruct value; first [apply stateless_ret | apply stateless_pair
                             | apply stateless_forEach; intros;
                               apply stateless_pair].
    + intros [k v]. destruct v;
        first [apply stateless_ret | apply stateless_pair
               | apply stateless_forEach; intros; apply stateless_pair].
Qed.

(** X10: [null] values are ignored when the query is built: the outcome is
    the same as for the object without its [null]-valued properties. *)
Theorem buildSearchParams_ignores_null fields w :
  buildSearchParams eng (Some (JObj fields)) w
  = buildSearchParams eng
      (Some (JObj (List.filter (fun kv => negb (isNull kv.2)) fields))) w.
Proof.
  unfold buildSearchParams. cbn [truthy ownEntries]. revert w.
  induction fields as [|[key value] r IH]; [done|].
  destruct value; cbn [List.filter isNull negb snd];
    first [ by apply forEach_cons_congr
          | intros w; rewrite forEach_skip; [apply IH | done] ].
Qed.
End UpstreamClient.

(** ** Error envelopes and published schemas *)

Section Envelopes.
Context (zod : ZodLib) (eng : Engine).

Lemma eqb_ne (k k' : string) : k ≠ k' → String.eqb k k' = false.
Proof. apply String.eqb_neq. Qed.

Lemma assoc_copyIfTruthy parsedBody k k' d :
  assoc k (copyIfTruthy parsedBody k' d)
  = match (if decide (k = k') then getProp parsedBody k' else None) with
    | Some v => if truthy (Some v) then Some v else assoc k d
    | None => assoc k d
    end.
Proof.
  unfold copyIfTruthy. case_decide as Hk.
  - subst k'. destruct (getProp parsedBody k) as [v|]; [|done].
    destruct (truthy (Some v)); [apply assoc_setField_eq | done].
  - destruct (getProp parsedBody k') as [v|]; [|done].
    destruct (truthy (Some v)); [by apply assoc_setField_ne | done].
Qed.

(** X11: an upstream error whose body is a JSON object.  The [data] of
    the envelope has every property of the body with the body's value, and
    [status], [title] and [detail] fall back to the HTTP status, the status
    text and the error message when the body does not have them. *)
Theorem createErrorResponse_object_body
    rid status statusText fields msg fallback :
  NoDup fields.*1 →
  ∃ d,
    error (createErrorResponse eng rid
             (PetfinderAPIError status statusText (JObj fields) msg) fallback)
    = Some {| code := mapHTTPStatusToJSONRPCError status;
              message := getErrorMessage status;
              data := Some (JObj d) |}
    ∧ ∀ k, assoc k d
           = match assoc k fields with
             | Some v => Some v
             | None => assoc k [("status", JNum status);
                                ("title", JStr statusText);
                                ("detail", JStr msg)]
             end.
Proof.
  intros Hnd. eexists. split; [reflexivity|].
  intros k. cbn [ownEntries]. by apply assoc_objAssign.
Qed.

(** X12: an upstream error whose body is text, as every error of the
    token endpoint is.  [data.status] is always the HTTP status; [title]
    and [detail] are those of the body parsed as JSON when it has truthy
    ones, else the status text and the error message; [type] and
    [invalid-params] are copied when truthy; [data] has no other
    property. *)
Theorem createErrorResponse_text_body rid status statusText text msg fallback :
  let copied k :=
    match JSON_parse eng text with
    | Some parsedBody =>
        match getProp parsedBody k with
        | Some v => if truthy (Some v) then Some v else None
        | None => None
        end
    | None => None
    end in
  ∃ d,
    error (createErrorResponse eng rid
             (PetfinderAPIError status statusText (JStr text) msg) fallback)
    = Some {| code := mapHTTPStatusToJSONRPCError status;
              message := getErrorMessage status;
              data := Some (JObj d) |}
    ∧ assoc "status" d = Some (JNum status)
    ∧ assoc "title" d = Some (default (JStr statusText) (copied "title"))
    ∧ assoc "detail" d = Some (default (JStr msg) (copied "detail"))
    ∧ assoc "type" d = copied "type"
    ∧ assoc "invalid-params" d = copied "invalid-params"
    ∧ ∀ k, k ∉ ["status"; "title"; "detail"; "type"; "invalid-params"] →
           assoc k d = None.
Proof.
  intros copied.
  set (d0 := [("status", JNum status); ("title", JStr statusText);
              ("detail", JStr msg)]).
  assert (∀ k, k ∉ ["status"; "title"; "detail"; "type"; "invalid-params"] →
               assoc k d0 = None) as Hother.
  { intros k Hk. rewrite !not_elem_of_cons in Hk.
    destruct Hk as (H1 & H2 & H3 & _). simpl.
    by rewrite !eqb_ne by done. }
  destruct (JSON_parse eng text) as [pb|] eqn:Eparse.
  2:{ exists d0. subst copied. cbn [createErrorResponse]. rewrite Eparse.
      by repeat (split; [reflexivity|]). }
  set (d := copyIfTruthy pb "invalid-params"
              (copyIfTruthy pb "detail"
                 (copyIfTruthy pb "title" (copyIfTruthy pb "type" d0)))).
  assert (∀ k, assoc k d
               = match (if decide (k ∈ ["type"; "title"; "detail";
                                         "invalid-params"])
                        then copied k else None) with
                 | Some v => Some v
                 | None => assoc k d0
                 end) as Hd.
  { intros k. subst d. rewrite !assoc_copyIfTruthy.
    destruct (decide (k ∈ ["type"; "title"; "detail"; "invalid-params"]))
      as [Hin|Hnin].
    - rewrite !elem_of_cons, elem_of_nil in Hin.
      destruct Hin as [->|[->|[->|[->|[]]]]];
        repeat (case_decide; try discriminate); unfold copied;
        rewrite ?Eparse;
        (destruct (getProp pb _) as [v|]; [destruct (truthy (Some v))|]);
        done.
    - repeat (case_decide;
              [subst k; exfalso; apply Hnin; rewrite !elem_of_cons; tauto|]).
      done. }
  exists (match pb with JNull => d0 | _ => d end).
  split; [cbn [createErrorResponse]; rewrite Eparse; by destruct pb|].
  assert (∀ k, assoc k (match pb with JNull => d0 | _ => d end) = assoc k d)
    as Hnull.
  { intros k. by destruct pb. }
  rewrite !Hnull, !Hd.
  split.
  { case_decide as Hin; [|done].
    rewrite !elem_of_cons, elem_of_nil in Hin.
    by destruct Hin as [?|[?|[?|[?|[]]]]]. }
  split.
  { case_decide as Hin; [by destruct (copied "title")|].
    exfalso. apply Hin. rewrite !elem_of_cons. tauto. }
  split.
  { case_decide as Hin; [by destruct (copied "detail")|].
    exfalso. apply Hin. rewrite !elem_of_cons. tauto. }
  split.
  { case_decide as Hin; [by destruct (copied "type")|].
    exfalso. apply Hin. rewrite !elem_of_cons. tauto. }
  split.
  { case_decide as Hin; [by destruct (copied "invalid-params")|].
    exfalso. apply Hin. rewrite !elem_of_cons. tauto. }
  intros k Hk. rewrite Hnull, Hd.
  case_decide as Hin; [|by apply Hother].
  exfalso. apply Hk. rewrite !elem_of_cons in Hin. rewrite !elem_of_cons.
  tauto.
Qed.

(** X13: the [required] list of a published input schema.  When the
    generated JSON schema has a [required] array, the published schema
    keeps every other property as generated; a field of the shape is listed
    as required exactly when the generator listed it and the field is
    neither optional nor defaulted; and the list is never left empty (it is
    removed instead). *)
Theorem zodToMCPSchema_required schema fields names :
  toJSONSchema zod schema = JObj fields →
  assoc "required" fields = Some (JArr names) →
  let out := zodToMCPSchema zod schema in
  (∀ k, k ≠ "required" → getProp out k = assoc k fields)
  ∧ (∀ n field,
       assoc n schema = Some field →
       (∃ kept, getProp out "required" = Some (JArr kept) ∧ JStr n ∈ kept)
       ↔ (JStr n ∈ names ∧ optional field = false
          ∧ defaultValue field = None))
  ∧ getProp out "required" ≠ Some (JArr []).
Proof.
  intros Hjson Hreq out. subst out. unfold zodToMCPSchema.
  rewrite Hjson. cbn [getProp]. rewrite Hreq.
  set (keep := fun fieldName : json => _).
  assert (∀ n field, assoc n schema = Some field →
            JStr n ∈ List.filter keep names
            ↔ (JStr n ∈ names ∧ optional field = false
               ∧ defaultValue field = None)) as Hkeep.
  { intros n field Hf. rewrite !list_elem_of_In, filter_In.
    assert (keep (JStr n)
            = negb (isOptional field)
              && negb (bool_decide (is_Some (defaultValue field)))) as ->.
    { unfold keep. cbv beta iota. by rewrite Hf. }
    rewrite andb_true_iff, !negb_true_iff. unfold isOptional.
    rewrite orb_false_iff, bool_decide_eq_false. split.
    - intros (Hin & (Ho & _) & Hd). split; [done|]. split; [done|].
      destruct (defaultValue field); [exfalso; apply Hd; eauto | done].
    - intros (Hin & Ho & Hd). rewrite Hd. split; [done|].
      repeat split; try done; by intros []. }
  destruct (List.filter keep names) as [|x kept] eqn:Ef; cbn [getProp].
  - split; [intros k Hk; by apply assoc_deleteField_ne|].
    split; [|by rewrite assoc_deleteField_eq].
    intros n field Hf. rewrite <- (Hkeep n field Hf).
    rewrite assoc_deleteField_eq. split; [by intros (? & ? & _)|].
    by intros ?%elem_of_nil.
  - split; [intros k Hk; by apply assoc_setField_ne|].
    rewrite assoc_setField_eq. split; [|done].
    intros n field Hf. rewrite <- (Hkeep n field Hf). split.
    + by intros (? & [= <-] & ?).
    + intros ?. by eexists.
Qed.
End Envelopes.

(** ** Tool calls end to end *)

Section ToolCalls.
Context (zod : ZodLib) (eng : Engine).
Implicit Types (up : Upstream) (now : Z) (w : World) (request : json)
         (hdrs : gmap string string).

Lemma tools_call_with_credentials up now request hdrs key args h cid secret w :
  callsTool request key args → lookupTool key = Some h →
  hasCredentials hdrs cid secret →
  handleMCPRequest zod up eng now request hdrs w
  = let '(o, w') := callHandler zod up eng now h args
                      (setCtx (ctxOf cid secret) w) in
    (Returns match o with
             | Returns r => success (getProp request "id") (wrapResult eng r)
             | Throws e =>
                 createErrorResponse eng (getProp request "id") e (-32603)
             end, setCtx emptyCtx w').
Proof.
  intros Hcall Hh Hcred.
  rewrite (handleMCPRequest_tools_call _ _ _ _ _ _ _ _ _ Hcall), Hh.
  by destruct (hasCredentials_nonEmpty _ _ _ Hcred) as [-> ->].
Qed.

(** X14: [pets.search] validates before it does anything else.  The value
    given to the validator is the caller's arguments over the defaults
    [status: adoptable], [sort: recent], [page: 1], [limit: 20], the
    caller's values winning; when the validator rejects it, the answer is
    the error -32603 with the validator's message, no upstream call is
    made, the token cache is untouched and the credential slot is empty. *)
Theorem pets_search_rejected_before_upstream
    up now request hdrs fields cid secret w :
  callsTool request "pets.search" (Some (JObj fields)) →
  NoDup fields.*1 →
  hasCredentials hdrs cid secret →
  let defaults := [("status", JStr "adoptable"); ("sort", JStr "recent");
                   ("page", JNum 1); ("limit", JNum 20)] in
  let merged := objAssign defaults fields in
    (∀ k, assoc k merged
          = match assoc k fields with
            | Some v => Some v
            | None => assoc k defaults
            end)
    ∧ ∀ issues msg,
        parse zod animalSearchSchema (JObj merged) = inl (issues, msg) →
        let r := handleMCPRequest zod up eng now request hdrs w in
        r.1 = Returns (failure (getProp request "id") (-32603) msg)
        ∧ tokenCache r.2 = tokenCache w
        ∧ netlog r.2 = netlog w
        ∧ requestContext r.2 = emptyCtx.
Proof.
  intros Hcall Hnd Hcred defaults merged. split.
  - intros k. by apply assoc_objAssign.
  - intros issues msg Hv r. subst r.
    rewrite (tools_call_with_credentials _ _ _ _ _ _ Fn_searchPets _ _ _
               Hcall eq_refl Hcred).
    by rewrite (searchPets_rejects_before_upstream zod eng up now
                  (Some (JObj fields)) issues msg _ Hv).
Qed.

(** X15: [organizations.search] does the same over the defaults [page: 1],
    [limit: 20]. *)
Theorem organizations_search_rejected_before_upstream
    up now request hdrs fields cid secret w :
  callsTool request "organizations.search" (Some (JObj fields)) →
  NoDup fields.*1 →
  hasCredentials hdrs cid secret →
  let defaults := [("page", JNum 1); ("limit", JNum 20)] in
  let merged := objAssign defaults fields in
    (∀ k, assoc k merged
          = match assoc k fields with
            | Some v => Some v
            | None => assoc k defaults
            end)
    ∧ ∀ issues msg,
        parse zod organizationSearchSchema (JObj merged) = inl (issues, msg) →
        let r := handleMCPRequest zod up eng now request hdrs w in
        r.1 = Returns (failure (getProp request "id") (-32603) msg)
        ∧ tokenCache r.2 = tokenCache w
        ∧ netlog r.2 = netlog w
        ∧ requestContext r.2 = emptyCtx.
Proof.
  intros Hcall Hnd Hcred defaults merged. split.
  - intros k. by apply assoc_objAssign.
  - intros issues msg Hv r. subst r.
    rewrite (tools_call_with_credentials _ _ _ _ _ _ Fn_searchOrgs _ _ _
               Hcall eq_refl Hcred).
    by rewrite (searchOrgs_rejects_before_upstream zod eng up now
                  (Some (JObj fields)) issues msg _ Hv).
Qed.

(** X16: [pets.get], the successful call.  With an [id] that prints as
    [s] (a number as JavaScript prints it: [1e+21] for 10^21), a token for
    the caller that prints as [bearer] and a 2xx JSON reply [pet] to the
    [GET] of [PETFINDER_BASE/animals/s], the answer is the two text blocks
    ["Pet details for ID s:"] and the serialised [pet]; the one API call is
    logged and the credential slot is cleared. *)
Theorem pets_get_success
    up now request hdrs input idv s cid secret w token bearer w1
    status statusText text pet :
  callsTool request "pets.get" (Some input) →
  getProp input "id" = Some idv → toStr idv = Some s →
  hasCredentials hdrs cid secret →
  getAccessToken up eng now (Some cid) (Some secret) (setCtx (ctxOf cid secret) w)
  = (Returns token, w1) →
  toStrV token = Some bearer →
  api up (PETFINDER_BASE +:+ "/animals/" +:+ s) bearer
  = Responds status statusText text (Some pet) →
  ok status = true →
  handleMCPRequest zod up eng now request hdrs w
  = (Returns (success (getProp request "id")
                (toolResult ("Pet details for ID " +:+ s +:+ ":")
                            (JSON_stringify eng pet))),
     setCtx emptyCtx
       (logCall (ApiGet (PETFINDER_BASE +:+ "/animals/" +:+ s) bearer) w1)).
Proof.
  intros Hcall Hid Hs Hcred Htok Hb Hapi Hok.
  rewrite (tools_call_with_credentials _ _ _ _ _ _ Fn_getPet _ _ _
             Hcall eq_refl Hcred).
  assert (∀ w0, readProp eng (Some input) "id" w0 = (Returns (Some idv), w0))
    as Hread.
  { intros w0. destruct input; try done. unfold readProp, ret. by rewrite Hid. }
  assert (∀ w0, toStrM eng (Some idv) w0 = (Returns s, w0)) as Hstr.
  { intros w0. unfold toStrM. cbn [toStrV]. by rewrite Hs. }
  assert (petfinderRequest up eng now ("/animals/" +:+ s) None
                           (setCtx (ctxOf cid secret) w)
          = (Returns pet,
             logCall (ApiGet (PETFINDER_BASE +:+ "/animals/" +:+ s) bearer)
                     w1))
    as Hreq.
  { destruct Hcred as (_ & Hc & _ & Hsec).
    rewrite (petfinderRequest_run _ _ _ _ _ _ cid secret) by done.
    rewrite Htok.
    change (buildSearchParams eng None) with (@ret (list (string * string)) []).
    unfold ret. rewrite Hb. cbv zeta.
    change (requestUrl eng ("/animals/" +:+ s) None [])
      with (PETFINDER_BASE +:+ "/animals/" +:+ s).
    by rewrite Hapi, Hok. }
  cbn [callHandler]. unfold getPet, getAnimal. run.
  rewrite Hread, Hstr, Hreq, Hread, Hstr. done.
Qed.

(** X17: [pets.search], the successful call.  With arguments the
    validator accepts and a 2xx JSON reply to the [/animals] request, the
    summary block counts the elements of the reply's [animals] array, the
    count printed as a number prints, and says 0 when the reply has no
    [animals]; the second block is the serialised reply. *)
Theorem pets_search_success
    up now request hdrs input validated cid secret w result w1 animals :
  callsTool request "pets.search" input →
  hasCredentials hdrs cid secret →
  parse zod animalSearchSchema
    (JObj (objAssign [("status", JStr "adoptable"); ("sort", JStr "recent");
                      ("page", JNum 1); ("limit", JNum 20)]
                     (ownEntries input)))
  = inr validated →
  petfinderRequest up eng now "/animals" (Some validated)
                   (setCtx (ctxOf cid secret) w)
  = (Returns result, w1) →
  getProp result "animals" = Some (JArr animals)
  ∨ (getProp result "animals" = None ∧ result ≠ JNull ∧ animals = []) →
  handleMCPRequest zod up eng now request hdrs w
  = (Returns (success (getProp request "id")
                (toolResult
                   ("Found " +:+ numberToString (Z.of_nat (length animals))
                    +:+ " pets matching your search criteria.")
                   (JSON_stringify eng result))),
     setCtx emptyCtx w1).
Proof.
  intros Hcall Hcred Hv Hreq Hanimals.
  rewrite (tools_call_with_credentials _ _ _ _ _ _ Fn_searchPets _ _ _
             Hcall eq_refl Hcred).
  assert (∀ w0, countOf eng result "animals" w0
                = (Returns (numberToString (Z.of_nat (length animals))), w0))
    as Hcount.
  { intros w0. unfold countOf, readProp. run.
    destruct Hanimals as [Ha | (Ha & Hnn & ->)].
    - destruct result; try done. rewrite Ha. cbn [lengthOf truthy].
      destruct animals as [|a l]; [done|].
      assert ((Z.of_nat (length (a :: l)) =? 0) = false) as ->
        by (apply Z.eqb_neq; simpl; lia).
      done.
    - destruct result; try done; by rewrite ?Ha. }
  cbn [callHandler]. unfold searchPets, zparse, searchAnimals. rewrite Hv. run.
  by rewrite Hreq, Hcount.
Qed.
End ToolCalls.

(** ** Envelopes and transport *)

Section Transport.
Context (zod : ZodLib) (eng : Engine).
Implicit Types (up : Upstream) (now : Z) (w : World) (request : json)
         (hdrs : gmap string string).

Lemma createErrorResponse_id rid e fallback :
  id (createErrorResponse eng rid e fallback) = rid.
Proof. by destruct e. Qed.

Lemma mapHTTPStatusToJSONRPCError_not_parse_error status :
  mapHTTPStatusToJSONRPCError status ≠ -32700.
Proof.
  rewrite mapHTTPStatusToJSONRPCError_table. by repeat case_decide.
Qed.

Lemma createErrorResponse_code rid e :
  errorCode (createErrorResponse eng rid e (-32603)) ≠ Some (-32700).
Proof.
  destruct e; try done. cbn. intros [= H].
  by apply mapHTTPStatusToJSONRPCError_not_parse_error in H.
Qed.

(** What [handleMCPRequest] can answer, and how it can fail. *)
Lemma handleMCPRequest_answers up now request hdrs w :
  let run := handleMCPRequest zod up eng now request hdrs w in
  let known :=
    methodIs (getProp request "method") "initialize"
    || methodIs (getProp request "method") "tools/list"
    || methodIs (getProp request "method") "tools/call" in
  (∃ f, run = (Throws (PlainError (fault_message eng f)), w))
  ∨ ∃ r w',
      run = (Returns r, w')
      ∧ errorCode r ≠ Some (-32700)
      ∧ id r = if known || truthy (getProp request "id")
               then getProp request "id" else Some (JStr "unknown").
Proof.
  intros run known. subst run known. unfold handleMCPRequest.
  destruct (isNull request); [left; by eexists|].
  destruct (methodIs _ "initialize").
  { right. by eexists _, _. }
  destruct (methodIs _ "tools/list").
  { right. by eexists _, _. }
  destruct (methodIs _ "tools/call"); cbn [orb].
  - destruct (getProp request "params") as [params|];
      [|left; by eexists].
    set (P := fun x : Outcome MCPResponse * World =>
                (∃ f, x = (Throws (PlainError (fault_message eng f)), w))
                ∨ ∃ r w', x = (Returns r, w')
                          ∧ errorCode r ≠ Some (-32700)
                          ∧ id r = getProp request "id").
    assert (∀ name args,
      P ((key ← toStrM eng name;
          let handler := lookupTool key in
          let creds := extractCredentialsFromHeaders hdrs in
          match handler with
          | None =>
              ret (failure (getProp request "id") (-32601)
                     ("Tool " +:+ key +:+ " not found"))
          | Some handler =>
              match nonEmpty (clientId creds), nonEmpty (clientSecret creds)
              with
              | Some cid, Some secret =>
                  tryFinally
                    (tryCatch
                       (modifyW (setCtx {| clientId := Some cid;
                                           clientSecret := Some secret |});;
                        r ← callHandler zod up eng now handler args;
                        ret (success (getProp request "id")
                                     (wrapResult eng r)))
                       (fun error =>
                          ret (createErrorResponse eng (getProp request "id")
                                 error (-32603))))
                    (setCtx emptyCtx)
              | _, _ =>
                  ret (failure (getProp request "id") (-32001)
                         authenticationRequired)
              end
          end) w)) as Hbody.
    { assert (∀ r w', errorCode r ≠ Some (-32700) →
                      id r = getProp request "id" → P (Returns r, w'))
        as Hret by (intros r w' ? ?; right; by eexists _, _).
      intros name args. unfold toStrM, fault. run.
      destruct (toStrV name) as [key|]; [|left; by eexists].
      destruct (lookupTool key) as [h|]; [|by apply Hret].
      destruct (nonEmpty _) as [cid|]; [|by apply Hret].
      destruct (nonEmpty _) as [secret|]; [|by apply Hret].
      destruct (callHandler zod up eng now h args _) as [[r|e] w'].
      - by apply Hret.
      - apply Hret; [apply createErrorResponse_code
                    | apply createErrorResponse_id]. }
    destruct params; try apply Hbody. left; by eexists.
  - unfold toStrM, fault. run.
    destruct (toStrV _) as [m|]; [|left; by eexists].
    right. eexists _, _. split; [reflexivity|]. split; [done|].
    cbn [id failure]. by destruct (truthy _).
Qed.

(** X18: the [id] of an answer.  Whenever [handleMCPRequest] answers, the
    answer carries the request's [id] unchanged for the three known
    methods, with or without an [id] in the request; for any other method
    it carries the request's [id] only if that [id] is truthy, and the
    string ["unknown"] if the [id] is absent, [null], [0], [false] or the
    empty string. *)
Theorem response_id_echoes_request up now request hdrs w r w' :
  handleMCPRequest zod up eng now request hdrs w = (Returns r, w') →
  id r = if methodIs (getProp request "method") "initialize"
            || methodIs (getProp request "method") "tools/list"
            || methodIs (getProp request "method") "tools/call"
            || truthy (getProp request "id")
         then getProp request "id" else Some (JStr "unknown").
Proof.
  intros Hrun.
  destruct (handleMCPRequest_answers up now request hdrs w)
    as [[f H] | (r0 & w0 & H & _ & Hid)]; rewrite H in Hrun; [done|].
  by injection Hrun as <- <-.
Qed.

(** X19: the transport always answers.  [fetch] never lets an exception
    escape; the status is 200, 400 or 404; the answer is a JSON-RPC
    envelope exactly for [POST /mcp]; and any other request leaves the
    world as it was. *)
Theorem fetch_always_responds up now req w :
  ∃ resp w',
    fetch zod up eng now req w = (Returns resp, w')
    ∧ http_status resp ∈ [200; 400; 404]
    ∧ ((∃ r, http_body resp = JsonBody r)
       ↔ (http_method req = "POST" ∧ pathname req = "/mcp"))
    ∧ (¬ (http_method req = "POST" ∧ pathname req = "/mcp") → w' = w).
Proof.
  unfold fetch.
  destruct (String.eqb_spec (http_method req) "OPTIONS") as [Ho|Ho].
  { eexists _, w. split; [reflexivity|]. cbn [http_status http_body].
    split; [apply elem_of_cons; by left|]. split; [|done].
    split; [by intros [? ?] | intros [Hp _]; by rewrite Hp in Ho]. }
  destruct (String.eqb_spec (pathname req) "/healthz") as [Hh|Hh].
  { eexists _, w. split; [reflexivity|]. cbn [http_status http_body].
    split; [apply elem_of_cons; by left|]. split; [|done].
    split; [by intros [? ?] | intros [_ Hp]; by rewrite Hp in Hh]. }
  destruct (String.eqb_spec (http_method req) "POST") as [Hp|Hp];
    destruct (String.eqb_spec (pathname req) "/mcp") as [Hm|Hm];
    cbn [negb orb];
    try (eexists _, w; split; [reflexivity|]; cbn [http_status http_body];
         split; [rewrite !elem_of_cons; auto|]; split; [|done];
         split; [by intros [? ?] | by intros [? ?]]).
  assert (∀ (x : Outcome HttpResponse * World),
            (∃ r w', x = (Returns {| http_status := 200;
                                     http_body := JsonBody r |}, w'))
            ∨ (∃ r, x = (Returns {| http_status := 400;
                                    http_body := JsonBody r |}, w)) →
            ∃ resp w',
              x = (Returns resp, w')
              ∧ http_status resp ∈ [200; 400; 404]
              ∧ ((∃ r, http_body resp = JsonBody r)
                 ↔ (http_method req = "POST" ∧ pathname req = "/mcp"))
              ∧ (¬ (http_method req = "POST" ∧ pathname req = "/mcp") →
                 w' = w)) as Hshape.
  { intros x [(r & w' & ->) | (r & ->)]; eexists _, _;
      (split; [reflexivity|]); cbn [http_status http_body];
      (split; [rewrite !elem_of_cons; auto|]);
      (split; [split; [done | intros _; by eexists]|]);
      intros Hn; by destruct Hn. }
  apply Hshape. unfold fault. run.
  destruct (JSON_parse eng (bodyText req)) as [body|];
    [|right; by eexists].
  destruct (stateless_readProp eng (Some body) "method") as [o1 H1].
  rewrite H1. destruct o1 as [method|e]; [|right; by eexists].
  destruct (stateless_toStrM eng method) as [o2 H2].
  rewrite H2. destruct o2 as [s|e]; [|right; by eexists].
  destruct (stateless_toStrM eng (getProp body "id")) as [o3 H3].
  rewrite H3. destruct o3 as [s'|e]; [|right; by eexists].
  destruct (handleMCPRequest_answers up now body (headers req) w)
    as [[f ->] | (r & w' & -> & _)].
  - right; by eexists.
  - left; by eexists _, _.
Qed.

(** X20: status 400 means parse error, and nothing else does.  An answer
    of the transport has status 400 exactly when it is an envelope with
    the code -32700; such an answer has the id ["unknown"], no [result] and
    no [data], and the world is as it was.  This is what a body that is
    not JSON gets. *)
Theorem bad_request_is_parse_error up now req w resp w' :
  fetch zod up eng now req w = (Returns resp, w') →
  (http_status resp = 400
   ↔ ∃ r, http_body resp = JsonBody r ∧ errorCode r = Some (-32700))
  ∧ (http_status resp = 400 →
     w' = w
     ∧ ∃ msg, http_body resp
              = JsonBody (failure (Some (JStr "unknown")) (-32700) msg))
  ∧ (http_method req = "POST" → pathname req = "/mcp" →
     JSON_parse eng (bodyText req) = None → http_status resp = 400).
Proof.
  unfold fetch.
  destruct (String.eqb_spec (http_method req) "OPTIONS") as [Ho|Ho].
  { intros [= <- <-]. cbn [http_status http_body].
    split; [split; [done | by intros (? & ? & _)]|].
    split; [done|]. intros Hp. by rewrite Hp in Ho. }
  destruct (String.eqb_spec (pathname req) "/healthz") as [Hh|Hh].
  { intros [= <- <-]. cbn [http_status http_body].
    split; [split; [done | by intros (? & ? & _)]|].
    split; [done|]. intros _ Hp. by rewrite Hp in Hh. }
  destruct (String.eqb_spec (http_method req) "POST") as [Hp|Hp];
    destruct (String.eqb_spec (pathname req) "/mcp") as [Hm|Hm];
    cbn [negb orb];
    try (intros [= <- <-]; cbn [http_status http_body];
         split; [split; [done | by intros (? & ? & _)]|];
         split; [done|]; by intros ? ?).
  assert (∀ f,
            (Returns {| http_status := 400;
                        http_body :=
                          JsonBody (createErrorResponse eng
                                      (Some (JStr "unknown"))
                                      (PlainError (fault_message eng f))
                                      (-32700)) |}, w)
            = (Returns resp, w') →
            (http_status resp = 400
             ↔ ∃ r, http_body resp = JsonBody r
                    ∧ errorCode r = Some (-32700))
            ∧ (http_status resp = 400 →
               w' = w
               ∧ ∃ msg, http_body resp
                        = JsonBody (failure (Some (JStr "unknown"))
                                            (-32700) msg))
            ∧ (http_method req = "POST" → pathname req = "/mcp" →
               JSON_parse eng (bodyText req) = None →
               http_status resp = 400)) as Hbad.
  { intros f [= <- <-]. cbn [http_status http_body].
    split; [split; [intros _; by eexists | done]|].
    split; [intros _; split; [done | by eexists] | done]. }
  unfold fault. run.
  destruct (JSON_parse eng (bodyText req)) as [body|]; [|apply Hbad].
  unfold readProp, toStrM, fault. run.
  destruct body; try apply Hbad;
    (destruct (toStrV (getProp _ "method")); [|apply Hbad]);
    (destruct (toStrV (getProp _ "id")); [|apply Hbad]);
    (match goal with
     | |- context [handleMCPRequest zod up eng now ?b (headers req) w] =>
         destruct (handleMCPRequest_answers up now b (headers req) w)
           as [[f ->] | (r & w0 & -> & Hcode & _)]
     end; [apply Hbad|]);
    intros [= <- <-]; cbn [http_status http_body];
    (split; [split; [done | by intros (? & [= <-] & ?)]|]);
    (split; [done|]); done.
Qed.
End Transport.
(** ** Where the tools go and what they bring back *)

Section ToolTargets.
Context (zod : ZodLib) (eng : Engine).
Implicit Types (up : Upstream) (now : Z) (w : World) (request : json)
         (hdrs : gmap string string).

Lemma readProp_outcome (x : jsval) k :
  ∃ o, (∀ w, readProp eng x k w = (o, w))
       ∧ ∀ a, o = Returns a →
              ∃ v, x = Some v ∧ v ≠ JNull ∧ a = getProp v k.
Proof.
  unfold readProp, fault.
  destruct x as [v|]; [|by eexists].
  destruct v; try by eexists.
  all: eexists; split; [done|]; intros a [= <-]; by eexists.
Qed.

Lemma toStrM_outcome (v : jsval) :
  ∃ o, (∀ w, toStrM eng v w = (o, w))
       ∧ ∀ s, o = Returns s → toStrV v = Some s.
Proof.
  unfold toStrM, fault. destruct (toStrV v) as [s|]; [|by eexists].
  eexists; split; [done|]. by intros ? [= <-].
Qed.

Lemma zparse_outcome schema v :
  ∃ o, (∀ w, zparse zod schema v w = (o, w))
       ∧ ∀ a, o = Returns a → parse zod schema v = inr a.
Proof.
  unfold zparse. destruct (parse zod schema v) as [[issues msg]|a];
    [by eexists|].
  eexists; split; [done|]. by intros ? [= <-].
Qed.

Lemma relays_petfinderRequest up now endpoint params :
  relays up (fun url =>
               ∃ query,
                 (∀ w, (buildSearchParams eng params w).1 = Returns query)
                 ∧ url = requestUrl eng endpoint params query)
         eq (petfinderRequest up eng now endpoint params).
Proof.
  intros w.
  destruct (petfinderRequest_context eng up now endpoint params w)
    as [(cid & secret & Hctx & Hc & Hs) | H].
  2:{ rewrite H. exists []. rewrite app_nil_r. split; [done|].
      split; [by intros ?? ?%elem_of_nil | done]. }
  rewrite (petfinderRequest_run _ _ _ _ _ _ cid secret) by done.
  pose proof (getAccessToken_effect eng up now cid secret w Hc Hs)
    as (_ & _ & (te & Hlog & Hte) & _).
  assert (∀ P : string → Prop, ∀ u b, ApiGet u b ∈ te → P u) as Hquiet.
  { intros P u b Hin. destruct (no_api_in_exchange _ _ _ _ _ Hte Hin). }
  destruct (getAccessToken up eng now (Some cid) (Some secret) w)
    as [[token|x] w1]; cbn [fst snd] in *.
  2:{ exists te. split; [done|]. split; [apply Hquiet | done]. }
  destruct (stateless_buildSearchParams eng params) as [o Ho]. rewrite Ho.
  destruct o as [query|x].
  2:{ exists te. split; [done|]. split; [apply Hquiet | done]. }
  destruct (toStrV token) as [bearer|].
  2:{ exists te. split; [done|]. split; [apply Hquiet | done]. }
  set (url := requestUrl eng endpoint params query).
  exists (te ++ [ApiGet url bearer]). cbv zeta.
  assert (netlog (logCall (ApiGet url bearer) w1)
          = netlog w ++ te ++ [ApiGet url bearer]) as Hlog'.
  { cbn [netlog logCall]. by rewrite Hlog, app_assoc. }
  assert (∀ u b, ApiGet u b ∈ te ++ [ApiGet url bearer] →
            ∃ q, (∀ w0, (buildSearchParams eng params w0).1 = Returns q)
                 ∧ u = requestUrl eng endpoint params q) as HP.
  { intros u b [Hin|Hin]%elem_of_app; [by eapply Hquiet|].
    apply list_elem_of_singleton in Hin. injection Hin as -> ->.
    exists query. split; [|done]. intros w0. by rewrite Ho. }
  destruct (api up url bearer) as [msg|st stt txt [j|]|st stt msg] eqn:Eapi;
    [|destruct (ok st) eqn:Eok ..|]; cbn [fst snd];
    (split; [done|]; split; [done|]); try done.
  intros a [= <-]. by exists j, url, bearer, st, stt, txt, te.
Qed.

Lemma relays_weaken {A} up (P P' : string → Prop)
    (R : A → json → Prop) (m : M A) :
  (∀ u, P u → P' u) → relays up P R m → relays up P' R m.
Proof.
  intros HPP Hm w. destruct (Hm w) as (calls & Hlog & HP & Hret).
  exists calls. split; [done|]. split; [|done].
  intros u b Hin. by apply HPP, (HP u b).
Qed.

Lemma relays_bind_l {A B} up P (R : B → json → Prop) (m : M A)
    (k : A → M B) o :
  (∀ w, m w = (o, w)) → (∀ a, o = Returns a → relays up P R (k a)) →
  relays up P R (m ≫= k).
Proof.
  intros Hm Hk w. run. rewrite Hm. destruct o as [a|e].
  - apply (Hk a eq_refl).
  - exists []. rewrite app_nil_r. simpl. split; [done|].
    split; [by intros ?? ?%elem_of_nil | done].
Qed.

Lemma relays_bind_r {A B} up P (R : A → json → Prop) (R' : B → json → Prop)
    (m : M A) (k : A → M B) :
  relays up P R m → (∀ a, stateless (k a)) →
  (∀ a w b w', k a w = (Returns b, w') → ∀ j, R a j → R' b j) →
  relays up P R' (m ≫= k).
Proof.
  intros Hm Hk HR w. destruct (Hm w) as (calls & Hlog & HP & Hret).
  exists calls. run. destruct (m w) as [[a|e] w1]; cbn [fst snd] in *.
  - destruct (Hk a) as (o & Ho). pose proof (HR a w1) as HR'.
    rewrite Ho in HR' |- *. cbn [fst snd]. split; [done|]. split; [done|].
    intros b ->.
    destruct (Hret a eq_refl)
      as (j & u & bearer & st & stt & txt & earlier & Hj & Hrest).
    exists j, u, bearer, st, stt, txt, earlier.
    split; [by eapply HR' | done].
  - split; [done|]. split; [done|]. done.
Qed.

(** The four wrappers that put a property of their argument in the path. *)
Lemma relays_path up now (input : jsval) k (path : string → string) :
  relays up
    (fun url => ∃ s, (∃ v, input = Some v ∧ v ≠ JNull
                           ∧ toStrV (getProp v k) = Some s)
                     ∧ url = PETFINDER_BASE +:+ path s)
    eq
    (x ← readProp eng input k; s ← toStrM eng x;
     petfinderRequest up eng now (path s) None).
Proof.
  destruct (readProp_outcome input k) as (o & Ho & Hx).
  apply (relays_bind_l _ _ _ _ _ o Ho). intros x Hox.
  destruct (Hx x Hox) as (v & -> & Hv & ->).
  destruct (toStrM_outcome (getProp v k)) as (o' & Ho' & Hs).
  apply (relays_bind_l _ _ _ _ _ o' Ho'). intros s Hos.
  eapply relays_weaken; [|apply relays_petfinderRequest].
  intros u (q & _ & ->). exists s. split; [|done]. exists v. auto.
Qed.

Ltac pure_suffix :=
  solve [ repeat first [ apply stateless_ret | apply stateless_toStrM
                       | apply stateless_readProp | apply stateless_countOf
                       | apply stateless_bind; [|intros] ] ].

(** Each tool function asks for the URL it builds, and what it returns is a
    summary block followed by the serialised reply. *)
Lemma callHandler_relays up now h args :
  registered h = true →
  relays up (buildsUrl zod eng h args)
         (fun r j => ∃ s, r = Plain (toolResult s (JSON_stringify eng j)))
         (callHandler zod up eng now h args).
Proof.
  assert (∀ P (m : M json),
            relays up P (fun b j => ∃ s, b = toolResult s (JSON_stringify eng j)) m →
            relays up P
              (fun r j => ∃ s, r = Plain (toolResult s (JSON_stringify eng j)))
              (r ← m; ret (Plain r))) as Hplain.
  { intros P m Hm. eapply relays_bind_r; [exact Hm | intros; apply stateless_ret|].
    intros a w b w' [= <- _] j [s ->]. by exists s. }
  assert (∀ P (m : M json) (k : json → M json),
            relays up P eq m → (∀ a, stateless (k a)) →
            (∀ a w b w', k a w = (Returns b, w') →
                         ∃ s, b = toolResult s (JSON_stringify eng a)) →
            relays up P (fun b j => ∃ s, b = toolResult s (JSON_stringify eng j))
                   (m ≫= k)) as Htool.
  { intros P m k Hm Hk Hs. eapply relays_bind_r; [exact Hm | exact Hk|].
    intros a w b w' Hrun j ->. by eapply Hs. }
  intros Hreg. destruct h; try done; cbn [callHandler]; apply Hplain.
  - (* searchPets *)
    unfold searchPets, searchAnimals.
    destruct (zparse_outcome animalSearchSchema
                (JObj (objAssign [("status", JStr "adoptable");
                                  ("sort", JStr "recent");
                                  ("page", JNum 1); ("limit", JNum 20)]
                                 (ownEntries args)))) as (o & Ho & Hv).
    apply (relays_bind_l _ _ _ _ _ o Ho). intros validated Hov.
    apply Htool.
    + eapply relays_weaken; [|apply relays_petfinderRequest].
      intros u (q & Hq & ->). exists validated, q.
      split; [by apply Hv | done].
    + intros. pure_suffix.
    + intros a w b w'. run.
      destruct (countOf eng a "animals" w) as [[n|x] w1]; [|done].
      intros [= <- _]. by eexists.
  - (* getPet *)
    unfold getPet, getAnimal. apply Htool.
    + apply (relays_path up now args "id" (fun s => "/animals/" +:+ s)).
    + intros. pure_suffix.
    + intros a w b w'. run.
      destruct (readProp eng args "id" w) as [[x|?] w1]; [|done].
      destruct (toStrM eng x w1) as [[s|?] w2]; [|done].
      intros [= <- _]. by eexists.
  - (* searchOrgs *)
    unfold searchOrgs, searchOrganizations.
    destruct (zparse_outcome organizationSearchSchema
                (JObj (objAssign [("page", JNum 1); ("limit", JNum 20)]
                                 (ownEntries args)))) as (o & Ho & Hv).
    apply (relays_bind_l _ _ _ _ _ o Ho). intros validated Hov.
    apply Htool.
    + eapply relays_weaken; [|apply relays_petfinderRequest].
      intros u (q & Hq & ->). exists validated, q.
      split; [by apply Hv | done].
    + intros. pure_suffix.
    + intros a w b w'. run.
      destruct (countOf eng a "organizations" w) as [[n|x] w1]; [|done].
      intros [= <- _]. by eexists.
  - (* getOrg *)
    unfold getOrg, getOrganization. apply Htool.
    + apply (relays_path up now args "id" (fun s => "/organizations/" +:+ s)).
    + intros. pure_suffix.
    + intros a w b w'. run.
      destruct (readProp eng args "id" w) as [[x|?] w1]; [|done].
      destruct (toStrM eng x w1) as [[s|?] w2]; [|done].
      intros [= <- _]. by eexists.
  - (* listAnimalTypes *)
    unfold listAnimalTypes, getAnimalTypes. apply Htool.
    + eapply relays_weaken; [|apply relays_petfinderRequest].
      by intros u (q & _ & ->).
    + intros. pure_suffix.
    + intros a w b w' [= <- _]. by eexists.
  - (* getAnimalTypeDetails *)
    unfold getAnimalTypeDetails, getAnimalType. apply Htool.
    + apply (relays_path up now args "type" (fun s => "/types/" +:+ s)).
    + intros. pure_suffix.
    + intros a w b w'. run.
      destruct (readProp eng args "type" w) as [[x|?] w1]; [|done].
      destruct (toStrM eng x w1) as [[s|?] w2]; [|done].
      intros [= <- _]. by eexists.
  - (* listAnimalBreeds *)
    unfold listAnimalBreeds, getAnimalBreeds. apply Htool.
    + apply (relays_path up now args "type"
               (fun s => "/types/" +:+ s +:+ "/breeds")).
    + intros. pure_suffix.
    + intros a w b w'. run.
      destruct (readProp eng args "type" w) as [[x|?] w1]; [|done].
      destruct (toStrM eng x w1) as [[s|?] w2]; [|done].
      intros [= <- _]. by eexists.
Qed.

Lemma tools_call_relays up now request hdrs key args h w :
  callsTool request key args → assoc key allTools = Some h →
  let r := handleMCPRequest zod up eng now request hdrs w in
  ∃ calls,
    netlog r.2 = netlog w ++ calls
    ∧ (∀ url bearer,
         ApiGet url bearer ∈ calls → buildsUrl zod eng h args url)
    ∧ ∀ resp x,
        r.1 = Returns resp → result resp = Some x →
        ∃ summary j url bearer status statusText text earlier,
          x = toolResult summary (JSON_stringify eng j)
          ∧ api up url bearer = Responds status statusText text (Some j)
          ∧ ok status = true
          ∧ calls = earlier ++ [ApiGet url bearer].
Proof.
  intros Hcall Hh r. subst r.
  rewrite (handleMCPRequest_tools_call _ _ _ _ _ _ _ _ _ Hcall).
  unfold lookupTool. rewrite Hh.
  assert (∃ calls : list NetCall,
            netlog w = netlog w ++ calls
            ∧ (∀ url bearer,
                 ApiGet url bearer ∈ calls → buildsUrl zod eng h args url)
            ∧ calls = []) as (calls0 & Hlog0 & HP0 & ->).
  { exists []. rewrite app_nil_r. split; [done|].
    split; [by intros ?? ?%elem_of_nil | done]. }
  destruct (nonEmpty (hdrs !! "x-petfinder-client-id")) as [cid|].
  2:{ exists []. cbn [fst snd]. split; [done|]. split; [done|].
      by intros resp x [= <-]. }
  destruct (nonEmpty (hdrs !! "x-petfinder-client-secret")) as [secret|].
  2:{ exists []. cbn [fst snd]. split; [done|]. split; [done|].
      by intros resp x [= <-]. }
  destruct (callHandler_relays up now h args
              (assoc_allTools_registered _ _ Hh)
              (setCtx {| clientId := Some cid; clientSecret := Some secret |}
                      w)) as (calls & Hlog & HP & Hret).
  destruct (callHandler zod up eng now h args _) as [[a|e] w1];
    cbn [fst snd netlog setCtx] in *.
  - exists calls. split; [done|]. split; [done|].
    intros resp x [= <-]. cbn [result success]. intros [= <-].
    destruct (Hret a eq_refl)
      as (j & u & b & st & stt & txt & earlier & (s & ->) & Hrest).
    by exists s, j, u, b, st, stt, txt, earlier.
  - exists calls. split; [done|]. split; [done|].
    intros resp x [= <-]. by destruct e.
Qed.


(** X22: what a tool brings back.  The result of a successful [tools/call]
    of a registered tool is a summary block followed by the serialisation
    of the JSON body of a 2xx reply of the API, the reply to the last call
    the request made; nothing else reaches the caller as a result. *)
Theorem tool_result_is_upstream_reply
    up now request hdrs key args h w resp w' x :
  callsTool request key args → assoc key allTools = Some h →
  handleMCPRequest zod up eng now request hdrs w = (Returns resp, w') →
  result resp = Some x →
  ∃ summary j url bearer status statusText text earlier,
    x = toolResult summary (JSON_stringify eng j)
    ∧ api up url bearer = Responds status statusText text (Some j)
    ∧ ok status = true
    ∧ netlog w' = netlog w ++ earlier ++ [ApiGet url bearer].
Proof.
  intros Hcall Hh Hrun Hx.
  destruct (tools_call_relays up now request hdrs key args h w Hcall Hh)
    as (calls & Hlog & _ & Hret).
  rewrite Hrun in Hlog, Hret. cbn [fst snd] in *.
  destruct (Hret resp x eq_refl Hx)
    as (s & j & u & b & st & stt & txt & earlier & -> & Hapi & Hok & ->).
  by exists s, j, u, b, st, stt, txt, earlier.
Qed.
End ToolTargets.
(** ** Where the cached tokens come from *)

Section TokenProvenance.
Context (zod : ZodLib) (eng : Engine).
Implicit Types (up : Upstream) (now : Z) (w : World) (request : json)
         (hdrs : gmap string string).

Lemma getAccessToken_provenance up now cid secret w k e :
  cid ≠ "" → secret ≠ "" →
  tokenCache (getAccessToken up eng now (Some cid) (Some secret) w).2 !! k
  = Some e →
  tokenCache w !! k = Some e ∨ (k = cid ∧ issued up now cid secret e).
Proof.
  intros Hc Hs.
  destruct (usable_or_not eng now cid w) as [(e' & E & Hgt)|Hno].
  - rewrite (getAccessToken_hit _ _ _ _ _ _ e') by done.
    cbn [snd tokenCache setCache]. intros [? _]%sweep_lookup. by left.
  - rewrite getAccessToken_miss by done.
    assert (sweep eng now (tokenCache w) !! k = Some e →
            tokenCache w !! k = Some e ∨ (k = cid ∧ issued up now cid secret e))
      as Hswept by (intros [? _]%sweep_lookup; by left).
    destruct (oauth2_token up cid secret)
      as [msg|st stt txt [td|]|st stt msg] eqn:Er;
      [|destruct (ok st) eqn:Eok;
        [destruct (newEntry now td) as [e'|] eqn:Ee|]
       |destruct (ok st) eqn:Eok|];
      cbn [snd tokenCache setCache logCall]; try exact Hswept.
    destruct (decide (k = cid)) as [->|Hne].
    + rewrite lookup_insert_eq. intros [= <-]. right. split; [done|].
      by exists st, stt, txt, td.
    + by rewrite lookup_insert_ne.
Qed.

Lemma petfinderRequest_provenance up now endpoint params w cid secret k e :
  requestContext w = ctxOf cid secret →
  tokenCache (petfinderRequest up eng now endpoint params w).2 !! k = Some e →
  tokenCache w !! k = Some e
  ∨ (k = cid ∧ cid ≠ "" ∧ secret ≠ "" ∧ issued up now cid secret e).
Proof.
  intros Hctx.
  destruct (petfinderRequest_context eng up now endpoint params w)
    as [(c & s & Hctx' & Hc & Hs) | H]; [|rewrite H; by left].
  rewrite Hctx in Hctx'. injection Hctx' as <- <-.
  rewrite (petfinderRequest_run _ _ _ _ _ _ cid secret) by done.
  pose proof (getAccessToken_provenance up now cid secret w k e Hc Hs) as Hp.
  destruct (getAccessToken up eng now (Some cid) (Some secret) w)
    as [[token|x] w1]; cbn [snd] in *.
  2:{ intros H. destruct (Hp H) as [?|[-> ?]]; [by left | by right]. }
  destruct (stateless_buildSearchParams eng params) as [o Ho]. rewrite Ho.
  assert (tokenCache w1 !! k = Some e →
          tokenCache w !! k = Some e
          ∨ (k = cid ∧ cid ≠ "" ∧ secret ≠ "" ∧ issued up now cid secret e))
    as Hp'.
  { intros H. destruct (Hp H) as [?|[-> ?]]; [by left | by right]. }
  destruct o as [query|x]; [|done].
  destruct (toStrV token) as [bearer|]; [|done]. cbv zeta.
  destruct (api up _ bearer) as [msg|st stt txt [j|]|st stt msg];
    [|destruct (ok st) ..|]; exact Hp'.
Qed.

(** *** The handlers change the world through [petfinderRequest] only *)

Lemma viaPetfinderRequest_stateless {A} up now (m : M A) :
  stateless m → viaPetfinderRequest up eng now m.
Proof. intros [o Ho] w. left. by rewrite Ho. Qed.

Lemma viaPetfinderRequest_bind_l {A B} up now (m : M A) (k : A → M B) :
  stateless m → (∀ a, viaPetfinderRequest up eng now (k a)) →
  viaPetfinderRequest up eng now (m ≫= k).
Proof.
  intros [o Ho] Hk w. run. rewrite Ho.
  destruct o as [a|e]; [by apply Hk | by left].
Qed.

Lemma viaPetfinderRequest_bind_r {A B} up now (m : M A) (k : A → M B) :
  viaPetfinderRequest up eng now m → (∀ a, stateless (k a)) →
  viaPetfinderRequest up eng now (m ≫= k).
Proof. intros Hm Hk w. rewrite bind_stateless_world by done. apply Hm. Qed.

Lemma viaPetfinderRequest_petfinderRequest up now endpoint params :
  viaPetfinderRequest up eng now (petfinderRequest up eng now endpoint params).
Proof. intros w. right. by exists endpoint, params. Qed.

Ltac pure_part :=
  solve [ repeat first [ apply stateless_ret | apply stateless_toStrM
                       | apply stateless_readProp | apply stateless_countOf
                       | apply stateless_zparse
                       | apply stateless_bind; [|intros] ] ].

Ltac through_request :=
  first [ apply viaPetfinderRequest_petfinderRequest
        | apply viaPetfinderRequest_bind_l;
          [ pure_part | intros; through_request ]
        | apply viaPetfinderRequest_bind_r;
          [ through_request | intros; pure_part ] ].

Lemma viaPetfinderRequest_callHandler up now h args :
  viaPetfinderRequest up eng now (callHandler zod up eng now h args).
Proof.
  destruct h; cbn [callHandler];
    try (apply viaPetfinderRequest_stateless;
         first [ apply stateless_ret | apply stateless_fault
               | destruct args as [[]|]; apply stateless_ret
               | destruct (isObject args);
                 [apply stateless_fault | apply stateless_ret]
               | apply stateless_bind;
                 [apply stateless_toStrM | intros; apply stateless_fault] ]);
    (apply viaPetfinderRequest_bind_r; [|intros; apply stateless_ret]);
    unfold searchPets, getPet, searchOrgs, getOrg, listAnimalTypes,
           getAnimalTypeDetails, listAnimalBreeds, searchAnimals, getAnimal,
           searchOrganizations, getOrganization, getAnimalTypes, getAnimalType,
           getAnimalBreeds;
    through_request.
Qed.

Lemma handleMCPRequest_provenance up now request hdrs w k e :
  tokenCache (handleMCPRequest zod up eng now request hdrs w).2 !! k = Some e →
  tokenCache w !! k = Some e
  ∨ ∃ secret, hasCredentials hdrs k secret ∧ issued up now k secret e.
Proof.
  destruct (handleMCPRequest_world zod eng up now request hdrs w)
    as [-> | (cid & secret & h & args & Hcred & ->)]; [by left|].
  cbn [tokenCache setCtx].
  destruct (viaPetfinderRequest_callHandler up now h args
              (setCtx (ctxOf cid secret) w)) as [-> | (ep & ps & ->)];
    [by left|].
  intros H.
  destruct (petfinderRequest_provenance up now ep ps
              (setCtx (ctxOf cid secret) w) cid secret k e eq_refl H)
    as [?|(-> & _ & _ & ?)]; [by left|].
  right. by exists secret.
Qed.

Lemma fetch_provenance up now req w k e :
  tokenCache (fetch zod up eng now req w).2 !! k = Some e →
  tokenCache w !! k = Some e
  ∨ ∃ secret, hasCredentials (headers req) k secret ∧ issued up now k secret e.
Proof.
  destruct (fetch_world zod eng up now req w) as [-> | (body & _ & ->)];
    [by left|].
  apply handleMCPRequest_provenance.
Qed.

(** X23: where the cached tokens come from.  However many requests a
    server has handled since it started, every entry of the token cache was
    built from the body of a 2xx JSON reply that the token endpoint gave,
    during one of those requests, to the client id it is stored under and
    the secret presented with it: its token is the body's [access_token]
    and its expiry the sum of that request's time and the body's
    [expires_in], whatever the two are. *)
Theorem cached_tokens_were_issued steps k e :
  tokenCache (serveAll zod eng steps initialWorld) !! k = Some e →
  ∃ up now req secret,
    (up, now, req) ∈ steps
    ∧ hasCredentials (headers req) k secret
    ∧ issued up now k secret e.
Proof.
  assert (∀ steps w,
            tokenCache (serveAll zod eng steps w) !! k = Some e →
            tokenCache w !! k = Some e
            ∨ ∃ up now req secret,
                (up, now, req) ∈ steps
                ∧ hasCredentials (headers req) k secret
                ∧ issued up now k secret e) as Hgen.
  { clear steps. induction steps as [|[[up now] req] rest IH]; intros w H;
      [by left|].
    simpl in H.
    destruct (IH _ H) as [Hw | (up' & now' & req' & secret & Hin & Hrest)].
    - destruct (fetch_provenance up now req w k e Hw)
        as [?|(secret & Hcred & Hiss)]; [by left|].
      right. exists up, now, req, secret. split; [|done].
      apply elem_of_cons. by left.
    - right. exists up', now', req', secret. split; [|done].
      apply elem_of_cons. by right. }
  intros H. destruct (Hgen steps initialWorld H) as [He|?]; [|done].
  simpl in He. by rewrite lookup_empty in He.
Qed.
End TokenProvenance.
(** ** A client with a live token *)

Section LiveToken.
Context (zod : ZodLib) (eng : Engine).
Implicit Types (up : Upstream) (now : Z) (w : World) (request : json)
         (hdrs : gmap string string).

Lemma petfinderRequest_live_token up now endpoint params w cid secret e :
  requestContext w = ctxOf cid secret → cid ≠ "" → secret ≠ "" →
  tokenCache w !! cid = Some e → jsGt eng (expires_at e) (now + 60) = true →
  let w' := (petfinderRequest up eng now endpoint params w).2 in
  tokenCache w' = sweep eng now (tokenCache w)
  ∧ (netlog w' = netlog w
     ∨ ∃ url bearer, toStrV (access_token e) = Some bearer
                     ∧ netlog w' = netlog w ++ [ApiGet url bearer]).
Proof.
  intros Hctx Hc Hs He Hgt w'. subst w'.
  rewrite (petfinderRequest_run _ _ _ _ _ _ cid secret) by done.
  rewrite (getAccessToken_hit _ _ _ _ _ _ e) by done.
  destruct (stateless_buildSearchParams eng params) as [o Ho].
  rewrite Ho. destruct o as [query|x]; [|split; [done | by left]].
  destruct (toStrV (access_token e)) as [bearer|];
    [|split; [done | by left]].
  cbv zeta.
  destruct (api up _ bearer) as [m|st stt txt [j|]|st stt m];
    [|destruct (ok st) ..|]; (split; [done | right; by eexists _, _]).
Qed.

(** X24: a client with a live token.  When the cache holds, for the
    client id of the request, a token valid beyond the 60-second margin,
    the request makes no token exchange, whatever non-empty secret it
    presents: it makes no upstream call at all or a single API call with
    the cached token, as text, as bearer, and the cache is left as it was
    or swept of its expired entries. *)
Theorem request_with_live_token_skips_exchange
    up now request hdrs cid secret w e calls :
  hasCredentials hdrs cid secret →
  tokenCache w !! cid = Some e → jsGt eng (expires_at e) (now + 60) = true →
  let w' := (handleMCPRequest zod up eng now request hdrs w).2 in
  netlog w' = netlog w ++ calls →
  (calls = []
   ∨ ∃ url bearer, toStrV (access_token e) = Some bearer
                   ∧ calls = [ApiGet url bearer])
  ∧ (tokenCache w' = tokenCache w
     ∨ tokenCache w' = sweep eng now (tokenCache w))
  ∧ tokenCache w' !! cid = Some e.
Proof.
  intros Hcred He Hgt w'.
  assert (sweep eng now (tokenCache w) !! cid = Some e) as Hkept.
  { apply sweep_lookup. split; [done|].
    apply (jsGt_not_jsLe _ _ _ _ Hgt). lia. }
  assert (∀ w2, netlog w2 = netlog w → tokenCache w2 = tokenCache w →
                netlog w2 = netlog w ++ calls →
                (calls = []
                 ∨ ∃ url bearer, toStrV (access_token e) = Some bearer
                                 ∧ calls = [ApiGet url bearer])
                ∧ (tokenCache w2 = tokenCache w
                   ∨ tokenCache w2 = sweep eng now (tokenCache w))
                ∧ tokenCache w2 !! cid = Some e) as Hsame.
  { intros w2 Hlog Hcache Hcalls. rewrite Hlog in Hcalls.
    rewrite <- (app_nil_r (netlog w)) in Hcalls at 1.
    apply app_inv_head in Hcalls as <-.
    split; [by left|]. split; [by left|]. by rewrite Hcache. }
  subst w'.
  destruct (handleMCPRequest_world zod eng up now request hdrs w)
    as [-> | (c & s & h & args & Hcred' & ->)]; [by apply Hsame|].
  assert (c = cid ∧ s = secret) as [-> ->].
  { destruct Hcred as (Hc & _ & Hs & _), Hcred' as (Hc' & _ & Hs' & _).
    rewrite Hc in Hc'. rewrite Hs in Hs'. by injection Hc' as <-;
      injection Hs' as <-. }
  destruct (viaPetfinderRequest_callHandler zod eng up now h args
              (setCtx (ctxOf cid secret) w)) as [-> | (ep & ps & ->)];
    [by apply Hsame|].
  destruct Hcred as (_ & Hc & _ & Hs).
  destruct (petfinderRequest_live_token up now ep ps
              (setCtx (ctxOf cid secret) w) cid secret e eq_refl Hc Hs He Hgt)
    as (Hcache & Hlog).
  cbn [tokenCache netlog setCtx] in *. intros Hcalls.
  split; [|split; [by right | by rewrite Hcache]].
  destruct Hlog as [Hlog | (url & bearer & Hb & Hlog)];
    rewrite Hlog in Hcalls.
  - rewrite <- (app_nil_r (netlog w)) in Hcalls at 1.
    apply app_inv_head in Hcalls as <-. by left.
  - apply app_inv_head in Hcalls as <-. right. by exists url, bearer.
Qed.
End LiveToken.
(** ** Worked instances of the further properties *)

Lemma request_upstream_calls_witness :
  let w' := (handleMCPRequest demoZod (demoUpstream 3600 fidoReply) demoEngine
               1000 callGetPet123 credentialHeaders initialWorld).2 in
  netlog w' = [TokenExchange "id" "secret";
               ApiGet "https://api.petfinder.com/v2/animals/123" "tok"]
  ∧ ∃ calls,
      netlog w' = netlog initialWorld ++ calls ∧ (length calls ≤ 2)%nat.
Proof.
  intros w'. split; [by vm_compute|].
  destruct (request_upstream_calls demoZod demoEngine
              (demoUpstream 3600 fidoReply) 1000 callGetPet123
              credentialHeaders initialWorld) as (calls & Hlog & Hlen & _).
  exists calls. split; [exact Hlog | exact Hlen].
Defined.

Lemma request_cache_isolation_witness :
  guestHeaders !! "x-petfinder-client-id" ≠ Some "id"
  ∧ tokenCache (handleMCPRequest demoZod (demoUpstream 3600 fidoReply)
                  demoEngine 1000 callGetPet123 guestHeaders demoWorld).2
    !! "id"
    = Some {| access_token := Some (JStr "cached"); expires_at := Seconds 5000 |}.
Proof.
  assert (guestHeaders !! "x-petfinder-client-id" ≠ Some "id") as Hne.
  { intros H. vm_compute in H. discriminate. }
  split; [exact Hne|].
  apply (proj2 (request_cache_isolation demoZod demoEngine
                  (demoUpstream 3600 fidoReply) 1000 callGetPet123
                  guestHeaders demoWorld "id"
                  {| access_token := Some (JStr "cached");
                     expires_at := Seconds 5000 |} Hne)).
  - vm_compute. reflexivity.
  - reflexivity.
Defined.

Lemma no_credentials_no_effect_witness :
  lacksCredentials ∅
  ∧ (handleMCPRequest demoZod (demoUpstream 3600 fidoReply) demoEngine 1000
                      callGetPet123 ∅ demoWorld).2 = demoWorld
  ∧ (fetch demoZod (demoUpstream 3600 fidoReply) demoEngine 1000
           (post ∅ callGetPetAbc) demoWorld).2 = demoWorld.
Proof.
  assert (lacksCredentials ∅) as Hlack by (left; reflexivity).
  split; [exact Hlack|]. split.
  - exact (proj1 (no_credentials_no_effect demoZod demoEngine
                    (demoUpstream 3600 fidoReply) 1000)
                 callGetPet123 ∅ demoWorld Hlack).
  - exact (proj2 (no_credentials_no_effect demoZod demoEngine
                    (demoUpstream 3600 fidoReply) 1000)
                 (post ∅ callGetPetAbc) demoWorld Hlack).
Defined.

Lemma cache_keys_were_presented_witness :
  let steps := [(demoUpstream 3600 fidoReply, 1000,
                 post credentialHeaders callGetPetAbc)] in
  is_Some (tokenCache (serveAll demoZod demoEngine steps initialWorld) !! "id")
  ∧ "id" ≠ ""
  ∧ ∃ up now req, (up, now, req) ∈ steps ∧ presentedId req = Some "id".
Proof.
  intros steps.
  assert (is_Some (tokenCache (serveAll demoZod demoEngine steps initialWorld)
                   !! "id")) as H.
  { exists {| access_token := Some (JStr "tok"); expires_at := Seconds 4600 |}.
    vm_compute. reflexivity. }
  split; [exact H|].
  exact (cache_keys_were_presented demoZod demoEngine steps "id" H).
Defined.

Lemma getAccessToken_returns_cached_token_witness :
  ∃ w' e,
    getAccessToken (demoUpstream 3600 emptyPage) demoEngine 1000
                   (Some "id") (Some "secret") initialWorld
    = (Returns (Some (JStr "tok")), w')
    ∧ tokenCache w' !! "id" = Some e ∧ access_token e = Some (JStr "tok").
Proof.
  set (w' := (getAccessToken (demoUpstream 3600 emptyPage) demoEngine 1000
                (Some "id") (Some "secret") initialWorld).2).
  assert (getAccessToken (demoUpstream 3600 emptyPage) demoEngine 1000
            (Some "id") (Some "secret") initialWorld
          = (Returns (Some (JStr "tok")), w'))
    as H by (vm_compute; reflexivity).
  destruct (getAccessToken_returns_cached_token demoEngine _ _ _ _ _ _ _ H)
    as (c & s & e & Hc & _ & _ & _ & He & Ht & _).
  injection Hc as <-. exists w', e. split; [exact H|]. split; assumption.
Defined.

Lemma getAccessToken_failure_stores_nothing_witness :
  ∃ w',
    getAccessToken nullTokens demoEngine 1000
                   (Some "fresh") (Some "secret") demoWorld
    = (Throws (PlainError (fault_message demoEngine ReadOfNullish)), w')
    ∧ tokenCache w' = sweep demoEngine 1000 (tokenCache demoWorld)
    ∧ netlog w' = [TokenExchange "fresh" "secret"].
Proof.
  set (w' := (getAccessToken nullTokens demoEngine 1000
                (Some "fresh") (Some "secret") demoWorld).2).
  assert (getAccessToken nullTokens demoEngine 1000
            (Some "fresh") (Some "secret") demoWorld
          = (Throws (PlainError (fault_message demoEngine ReadOfNullish)), w'))
    as H by (vm_compute; reflexivity).
  exists w'. split; [exact H|].
  destruct (getAccessToken_failure_stores_nothing demoEngine _ _ _ _ _ _ _ H)
    as [(Hx & _) | (c & s & Hc & Hs & Hcache & _ & Hlog & _)];
    [discriminate Hx|].
  injection Hc as <-. injection Hs as <-. split; [exact Hcache | exact Hlog].
Defined.

Lemma petfinderRequest_reuses_cached_token_witness :
  netlog (petfinderRequest (demoUpstream 3600 emptyPage) demoEngine 1000
            "/animals" (Some (JObj [("type", JStr "dog")]))
            (setCtx (ctxOf "id" "secret") demoWorld)).2
  = [ApiGet "https://api.petfinder.com/v2/animals?type=dog" "cached"].
Proof.
  apply (petfinderRequest_reuses_cached_token demoEngine
           (demoUpstream 3600 emptyPage) 1000 "/animals"
           (Some (JObj [("type", JStr "dog")]))
           (setCtx (ctxOf "id" "secret") demoWorld) "id" "secret"
           {| access_token := Some (JStr "cached"); expires_at := Seconds 5000 |}
           [("type", "dog")] "cached").
  - reflexivity.
  - discriminate.
  - discriminate.
  - vm_compute. reflexivity.
  - reflexivity.
  - reflexivity.
  - reflexivity.
Defined.

Lemma petfinderRequest_returns_only_2xx_json_witness :
  ∃ w' query bearer status statusText text,
    petfinderRequest (demoUpstream 3600 fidoReply) demoEngine 1000
      "/animals/123" None (setCtx (ctxOf "id" "secret") initialWorld)
    = (Returns fido, w')
    ∧ api (demoUpstream 3600 fidoReply)
          (requestUrl demoEngine "/animals/123" None query) bearer
      = Responds status statusText text (Some fido)
    ∧ ok status = true.
Proof.
  set (w' := (petfinderRequest (demoUpstream 3600 fidoReply) demoEngine 1000
                "/animals/123" None
                (setCtx (ctxOf "id" "secret") initialWorld)).2).
  assert (petfinderRequest (demoUpstream 3600 fidoReply) demoEngine 1000
            "/animals/123" None (setCtx (ctxOf "id" "secret") initialWorld)
          = (Returns fido, w')) as H by (vm_compute; reflexivity).
  destruct (petfinderRequest_returns_only_2xx_json demoEngine _ _ _ _ _ _ _ H)
    as (query & bearer & status & statusText & text & earlier
        & _ & Hapi & Hok & _).
  exists w', query, bearer, status, statusText, text.
  split; [exact H|]. split; [exact Hapi | exact Hok].
Defined.

Lemma buildSearchParams_keys_witness :
  let fields := [("type", JStr "dog");
                 ("breed", JArr [JStr "lab"; JStr "pug"]);
                 ("name", JNull); ("limit", JNum 5)] in
  (buildSearchParams demoEngine (Some (JObj fields)) initialWorld).1
  = Returns [("type", "dog"); ("breed", "lab"); ("breed", "pug");
             ("limit", "5")]
  ∧ [("type", "dog"); ("breed", "lab"); ("breed", "pug"); ("limit", "5")].*1
    = flat_map (fun kv => replicate (arity kv.2) kv.1) fields.
Proof.
  intros fields.
  assert ((buildSearchParams demoEngine (Some (JObj fields)) initialWorld).1
          = Returns [("type", "dog"); ("breed", "lab"); ("breed", "pug");
                     ("limit", "5")]) as H by (vm_compute; reflexivity).
  split; [exact H|].
  exact (buildSearchParams_keys demoEngine fields initialWorld _ H).
Defined.

Lemma createErrorResponse_object_body_witness :
  NoDup notFoundProblem.*1
  ∧ ∃ d,
      error (createErrorResponse demoEngine (Some (JNum 1))
               (PetfinderAPIError 404 "Not Found" (JObj notFoundProblem)
                  (apiFailure 404 "")) (-32603))
      = Some {| code := -32003; message := "Resource not found";
                data := Some (JObj d) |}
      ∧ assoc "detail" d
        = Some (JStr "The requested resource was not found.").
Proof.
  assert (NoDup notFoundProblem.*1) as Hnd.
  { apply (bool_decide_unpack _). vm_compute. exact I. }
  split; [exact Hnd|].
  destruct (createErrorResponse_object_body demoEngine (Some (JNum 1)) 404
              "Not Found" notFoundProblem (apiFailure 404 "") (-32603) Hnd)
    as (d & Hd & Hk).
  exists d. split; [exact Hd|]. exact (Hk "detail").
Defined.

Lemma createErrorResponse_text_body_witness :
  ∃ d,
    error (createErrorResponse demoEngine (Some (JNum 1))
             (PetfinderAPIError 401 "Unauthorized" (JStr "denied")
                (oauthFailure 401 "denied")) (-32603))
    = Some {| code := -32001;
              message := "Authentication failed - invalid credentials";
              data := Some (JObj d) |}
    ∧ assoc "status" d = Some (JNum 401)
    ∧ assoc "title" d = Some (JStr "Unauthorized")
    ∧ assoc "type" d = None.
Proof.
  destruct (createErrorResponse_text_body demoEngine (Some (JNum 1)) 401
              "Unauthorized" "denied" (oauthFailure 401 "denied") (-32603))
    as (d & Hd & Hstatus & Htitle & _ & Htype & _).
  exists d. split; [exact Hd|]. split; [exact Hstatus|].
  split; [exact Htitle | exact Htype].
Defined.

Lemma zodToMCPSchema_required_witness :
  getProp (zodToMCPSchema demoZod animalGetSchema) "type"
  = Some (JStr "object")
  ∧ ((∃ kept, getProp (zodToMCPSchema demoZod animalGetSchema) "required"
              = Some (JArr kept) ∧ JStr "id" ∈ kept)
     ↔ (JStr "id" ∈ [JStr "id"] ∧ false = false ∧ @None json = None)).
Proof.
  destruct (zodToMCPSchema_required demoZod animalGetSchema
              [("type", JStr "object"); ("required", JArr [JStr "id"])]
              [JStr "id"] eq_refl eq_refl) as (Hother & Hreq & _).
  split.
  - apply Hother. discriminate.
  - exact (Hreq "id" (required (ZNumber [IsInt; IsPositive])) eq_refl).
Defined.

Lemma pets_search_rejected_before_upstream_witness :
  let r := handleMCPRequest demoZod (demoUpstream 3600 emptyPage) demoEngine
             1000 callSearchDragons credentialHeaders demoWorld in
  r.1 = Returns (failure (Some (JNum 8)) (-32603) "Invalid input")
  ∧ tokenCache r.2 = tokenCache demoWorld
  ∧ netlog r.2 = netlog demoWorld.
Proof.
  intros r.
  destruct (proj2 (pets_search_rejected_before_upstream demoZod demoEngine
                     (demoUpstream 3600 emptyPage) 1000 callSearchDragons
                     credentialHeaders [("type", JStr "dragon")] "id" "secret"
                     demoWorld (callsTool_toolCall _ _ _)
                     ltac:(apply (bool_decide_unpack _); vm_compute; exact I)
                     credentialHeaders_present)
                  [{| issue_path := []; issue_message := "Invalid input" |}]
                  "Invalid input" eq_refl)
    as (H1 & H2 & H3 & _).
  split; [exact H1|]. split; [exact H2 | exact H3].
Defined.

Lemma organizations_search_rejected_before_upstream_witness :
  let r := handleMCPRequest demoZod (demoUpstream 3600 emptyPage) demoEngine
             1000 callSearchOrgsTooMany credentialHeaders demoWorld in
  r.1 = Returns (failure (Some (JNum 10)) (-32603) "Invalid input")
  ∧ netlog r.2 = netlog demoWorld.
Proof.
  intros r.
  destruct (proj2 (organizations_search_rejected_before_upstream demoZod
                     demoEngine (demoUpstream 3600 emptyPage) 1000
                     callSearchOrgsTooMany credentialHeaders
                     [("limit", JNum 500)] "id" "secret"
                     demoWorld (callsTool_toolCall _ _ _)
                     ltac:(apply (bool_decide_unpack _); vm_compute; exact I)
                     credentialHeaders_present)
                  [{| issue_path := []; issue_message := "Invalid input" |}]
                  "Invalid input" eq_refl)
    as (H1 & _ & H3 & _).
  split; [exact H1 | exact H3].
Defined.

Lemma pets_get_success_witness :
  (handleMCPRequest demoZod (demoUpstream 3600 fidoReply) demoEngine 1000
                    callGetPetHuge credentialHeaders initialWorld)
  = (Returns (success (Some (JNum 12))
                (toolResult "Pet details for ID 1e+21:" (printJson fido))),
     setCtx emptyCtx
       (logCall (ApiGet "https://api.petfinder.com/v2/animals/1e+21" "tok")
          (getAccessToken (demoUpstream 3600 fidoReply) demoEngine 1000
             (Some "id") (Some "secret")
             (setCtx (ctxOf "id" "secret") initialWorld)).2)).
Proof.
  set (w1 := (getAccessToken (demoUpstream 3600 fidoReply) demoEngine 1000
                (Some "id") (Some "secret")
                (setCtx (ctxOf "id" "secret") initialWorld)).2).
  exact (pets_get_success demoZod demoEngine (demoUpstream 3600 fidoReply)
           1000 callGetPetHuge credentialHeaders
           (JObj [("id", JNum 1000000000000000000000)])
           (JNum 1000000000000000000000) "1e+21" "id" "secret" initialWorld
           (Some (JStr "tok")) "tok" w1
           200 "OK" "" fido (callsTool_toolCall _ _ _) eq_refl
           ltac:(vm_compute; reflexivity)
           credentialHeaders_present ltac:(vm_compute; reflexivity)
           eq_refl eq_refl eq_refl).
Defined.

Lemma pets_search_success_witness :
  (handleMCPRequest demoZod (demoUpstream 3600 twoDogsReply) demoEngine 1000
                    callSearchDogs credentialHeaders initialWorld).1
  = Returns (success (Some (JNum 3))
               (toolResult "Found 2 pets matching your search criteria."
                           (printJson twoDogs))).
Proof.
  set (w1 := (petfinderRequest (demoUpstream 3600 twoDogsReply) demoEngine
                1000 "/animals"
                (Some (JObj (objAssign [("status", JStr "adoptable");
                                        ("sort", JStr "recent");
                                        ("page", JNum 1); ("limit", JNum 20)]
                                       [("type", JStr "dog")])))
                (setCtx (ctxOf "id" "secret") initialWorld)).2).
  rewrite (pets_search_success demoZod demoEngine
             (demoUpstream 3600 twoDogsReply) 1000 callSearchDogs
             credentialHeaders (Some (JObj [("type", JStr "dog")]))
             _ "id" "secret" initialWorld twoDogs w1
             [JObj [("id", JNum 1)]; JObj [("id", JNum 2)]]
             (callsTool_toolCall _ _ _) credentialHeaders_present eq_refl
             ltac:(vm_compute; reflexivity) (or_introl eq_refl)).
  reflexivity.
Defined.

Lemma response_id_echoes_request_witness :
  ∃ r w',
    handleMCPRequest demoZod (demoUpstream 3600 emptyPage) demoEngine 1000
                     callUnknownMethod ∅ initialWorld = (Returns r, w')
    ∧ getProp callUnknownMethod "id" = Some (JNum 0)
    ∧ id r = Some (JStr "unknown").
Proof.
  exists (failure (Some (JStr "unknown")) (-32601)
            "Method resources/list not found"), initialWorld.
  assert (handleMCPRequest demoZod (demoUpstream 3600 emptyPage) demoEngine
            1000 callUnknownMethod ∅ initialWorld
          = (Returns (failure (Some (JStr "unknown")) (-32601)
                        "Method resources/list not found"), initialWorld))
    as H by (vm_compute; reflexivity).
  split; [exact H|]. split; [reflexivity|].
  exact (response_id_echoes_request demoZod demoEngine _ _ _ _ _ _ _ H).
Defined.

Lemma fetch_always_responds_witness :
  ∃ resp w',
    fetch demoZod (demoUpstream 3600 emptyPage) demoEngine 1000
          (post ∅ listTools) initialWorld = (Returns resp, w')
    ∧ http_status resp ∈ [200; 400; 404]
    ∧ ∃ r, http_body resp = JsonBody r.
Proof.
  destruct (fetch_always_responds demoZod demoEngine
              (demoUpstream 3600 emptyPage) 1000 (post ∅ listTools)
              initialWorld) as (resp & w' & Hrun & Hstatus & Hjson & _).
  exists resp, w'. split; [exact Hrun|]. split; [exact Hstatus|].
  apply Hjson. split; reflexivity.
Defined.

Lemma bad_request_is_parse_error_witness :
  ∃ msg,
    fetch demoZod (demoUpstream 3600 emptyPage) demoEngine 1000 postGarbage
          demoWorld
    = (Returns {| http_status := 400;
                  http_body :=
                    JsonBody (failure (Some (JStr "unknown")) (-32700) msg)
               |}, demoWorld).
Proof.
  destruct (fetch demoZod (demoUpstream 3600 emptyPage) demoEngine 1000
                  postGarbage demoWorld) as [[resp|x] w'] eqn:Hrun;
    [|by vm_compute in Hrun].
  destruct (bad_request_is_parse_error demoZod demoEngine _ _ _ _ _ _ Hrun)
    as (_ & H400 & Hbad).
  assert (http_status resp = 400) as Hst
    by exact (Hbad eq_refl eq_refl ltac:(vm_compute; reflexivity)).
  destruct (H400 Hst) as (Hw & msg & Hbody).
  exists msg. destruct resp as [st body].
  simpl in Hbody, Hst. by rewrite Hbody, Hst, Hw.
Defined.


Lemma tool_result_is_upstream_reply_witness :
  ∃ summary j url bearer status statusText text,
    toolResult "Pet details for ID 123:" (printJson fido)
    = toolResult summary (JSON_stringify demoEngine j)
    ∧ api (demoUpstream 3600 fidoReply) url bearer
      = Responds status statusText text (Some j)
    ∧ ok status = true.
Proof.
  set (w' := (handleMCPRequest demoZod (demoUpstream 3600 fidoReply)
                demoEngine 1000 callGetPet123 credentialHeaders
                initialWorld).2).
  assert (handleMCPRequest demoZod (demoUpstream 3600 fidoReply) demoEngine
            1000 callGetPet123 credentialHeaders initialWorld
          = (Returns (success (Some (JNum 9))
                        (toolResult "Pet details for ID 123:"
                                    (printJson fido))), w')) as H
    by (vm_compute; reflexivity).
  destruct (tool_result_is_upstream_reply demoZod demoEngine
              (demoUpstream 3600 fidoReply) 1000 callGetPet123
              credentialHeaders "pets.get" _ Fn_getPet initialWorld _ w' _
              (callsTool_toolCall _ _ _) eq_refl H eq_refl)
    as (s & j & u & b & st & stt & txt & earlier & Hx & Hapi & Hok & _).
  by exists s, j, u, b, st, stt, txt.
Defined.

Lemma cached_tokens_were_issued_witness :
  let steps := [(undatedTokens, 1000,
                 post credentialHeaders callSearchDogs)] in
  let undated := {| access_token := Some (JStr "tok"); expires_at := NaN |} in
  tokenCache (serveAll demoZod demoEngine steps initialWorld) !! "id"
  = Some undated
  ∧ ∃ up now req secret,
      (up, now, req) ∈ steps
      ∧ hasCredentials (headers req) "id" secret
      ∧ issued up now "id" secret undated.
Proof.
  intros steps undated.
  assert (tokenCache (serveAll demoZod demoEngine steps initialWorld) !! "id"
          = Some undated) as H
    by (vm_compute; reflexivity).
  split; [exact H|].
  exact (cached_tokens_were_issued demoZod demoEngine steps "id" _ H).
Defined.

Lemma request_with_live_token_skips_exchange_witness :
  let w' := (handleMCPRequest demoZod (demoUpstream 3600 emptyPage)
               demoEngine 1000 callSearchDogs otherSecretHeaders demoWorld).2
  in
  tokenCache w' !! "id"
  = Some {| access_token := Some (JStr "cached"); expires_at := Seconds 5000 |}
  ∧ (tokenCache w' = tokenCache demoWorld
     ∨ tokenCache w' = sweep demoEngine 1000 (tokenCache demoWorld)).
Proof.
  intros w'.
  destruct (request_with_live_token_skips_exchange demoZod demoEngine
              (demoUpstream 3600 emptyPage) 1000 callSearchDogs
              otherSecretHeaders "id" "another-secret" demoWorld
              {| access_token := Some (JStr "cached");
                 expires_at := Seconds 5000 |}
              [ApiGet
                 "https://api.petfinder.com/v2/animals?status=adoptable&sort=recent&page=1&limit=20&type=dog"
                 "cached"]
              ltac:(repeat split; by vm_compute)
              ltac:(vm_compute; reflexivity) ltac:(reflexivity)
              ltac:(vm_compute; reflexivity))
    as (_ & Hcache & Hkept).
  split; [exact Hkept | exact Hcache].
Defined.
